(** * firestore4kivy: the value codec, the merge engine and the update protocol

    A shallow embedding of [firestore4kivy.py] (classes [Authorize],
    [Firestore], [GeoPoint], [TimeStamp], [Reference]), the properties its
    specification states about it, and further properties of the code.

    Layout of the model:
    - Python scalars, and immutable trees of them ([pyval]): what the codec
      reads and builds, and what the JSON transport carries;
    - a store of mutable list and dict objects ([value], [object], [store]):
      what [dict_replace] and [dict_pop] mutate in place;
    - a world with a trace of sleeps and requests: what [create], [read],
      [update] and [delete] do.

    Python exceptions are results ([Exn]); assertions are enabled (the
    interpreter's default mode).  [Undef] marks behaviour the model does not
    define (a builtin outside the modelled fragment, or exhausted fuel); no
    theorem below concludes from an [Undef] run. *)

From Stdlib Require Import ZArith List String Ascii Bool Lia.
From Stdlib Require Import Floats.SpecFloat Numbers.DecimalString Numbers.DecimalZ.
From stdpp Require Import base list.

Import ListNotations.
Set Warnings "-register-all".
Local Open Scope Z_scope.
Local Open Scope string_scope.
Local Open Scope list_scope.

(* ===================================================================== *)
(** ** Numbers *)
(* ===================================================================== *)

(** Python [float] is IEEE 754 binary64. *)
Definition float : Type := spec_float.
Definition prec : Z := 53.
Definition emax : Z := 1024.

Definition float_of_int (n : Z) : float := binary_normalize prec emax n 0 false.
Definition float_mul (x y : float) : float := SFmul prec emax x y.

(** The three numeric classes the code meets: [bool] is a subclass of [int]
    in Python, so [isinstance(True, int)] holds. *)
Inductive num : Type :=
  | NBool (b : bool)
  | NInt (n : Z)
  | NFloat (f : float).

(** Python compares an [int] with a [float] by value, without rounding the
    integer: [m * 2^e] against [n]. *)
Definition float_cmp_int (f : float) (n : Z) : option comparison :=
  match f with
  | S754_nan => None
  | S754_infinity s => Some (if s then Lt else Gt)
  | S754_zero _ => Some (0 ?= n)%Z
  | S754_finite s m e =>
      let mz := cond_Zopp s (Zpos m) in
      Some (if (0 <=? e)%Z then (mz * 2 ^ e ?= n)%Z else (mz ?= n * 2 ^ (- e))%Z)
  end.

Definition int_of_bool (b : bool) : Z := if b then 1 else 0.

Definition num_cmp (a b : num) : option comparison :=
  let as_int (x : num) : Z + float :=
    match x with NBool b => inl (int_of_bool b) | NInt n => inl n | NFloat f => inr f end in
  match as_int a, as_int b with
  | inl x, inl y => Some (x ?= y)%Z
  | inr f, inl y => float_cmp_int f y
  | inl x, inr g => option_map CompOpp (float_cmp_int g x)
  | inr f, inr g => SFcompare f g
  end.

Definition num_lt (a b : num) : bool :=
  match num_cmp a b with Some Lt => true | _ => false end.
Definition num_gt (a b : num) : bool := num_lt b a.
Definition num_eq (a b : num) : bool :=
  match num_cmp a b with Some Eq => true | _ => false end.
Definition num_le (a b : num) : bool :=
  match num_cmp a b with Some (Lt | Eq) => true | _ => false end.
Definition num_ge (a b : num) : bool := num_le b a.

Definition is_nan (a : num) : bool :=
  match a with NFloat S754_nan => true | _ => false end.

(** [a * b] when one operand is a float: the integer operand is converted
    first (exact below [2^53]). *)
Definition num_to_float (a : num) : float :=
  match a with
  | NBool b => float_of_int (int_of_bool b)
  | NInt n => float_of_int n
  | NFloat f => f
  end.

Definition num_mul (a b : num) : num :=
  match a, b with
  | NFloat _, _ | _, NFloat _ => NFloat (float_mul (num_to_float a) (num_to_float b))
  | _, _ =>
      NInt ((match a with NBool x => int_of_bool x | NInt n => n | NFloat _ => 0 end)
            * (match b with NBool x => int_of_bool x | NInt n => n | NFloat _ => 0 end))
  end.

(** The float literal [1.5]. *)
Definition float_1_5 : float := S754_finite false 6755399441055744 (-52).

(* ===================================================================== *)
(** ** Python values *)
(* ===================================================================== *)

(** A Python [str] is kept as its UTF-8 text, so a lone surrogate has no
    representation here. *)
Definition bytes : Type := list Byte.byte.

(** Values without mutable parts.  [SGeoPoint], [STimeStamp] and
    [SReference] are instances of the three classes at the end of the source
    file; the fields of a [GeoPoint] are the entries of its [self.dict].
    [SOther ty] is an instance of any other class, named by its type. *)
Inductive scalar : Type :=
  | SNone
  | SBool (b : bool)
  | SInt (n : Z)
  | SFloat (f : float)
  | SStr (s : string)
  | SBytes (b : bytes)
  | SGeoPoint (latitude longitude : num)
  | STimeStamp (datetime : string)
  | SReference (document : string)
  | SOther (ty : string).

(** Immutable trees: JSON documents, wire nodes, snapshots of native
    values.  A dict keeps its insertion order, as in Python. *)
Inductive pyval : Type :=
  | PScalar (s : scalar)
  | PTuple (items : list pyval)
  | PList (items : list pyval)
  | PDict (items : list (string * pyval)).

Coercion PScalar : scalar >-> pyval.

Definition PStr (s : string) : pyval := PScalar (SStr s).
Definition PInt (n : Z) : pyval := PScalar (SInt n).
Definition PNone : pyval := PScalar SNone.

Definition num_val (x : num) : scalar :=
  match x with NBool b => SBool b | NInt n => SInt n | NFloat f => SFloat f end.

(** [isinstance(x, int) or isinstance(x, float)] *)
Definition as_num (x : pyval) : option num :=
  match x with
  | PScalar (SBool b) => Some (NBool b)
  | PScalar (SInt n) => Some (NInt n)
  | PScalar (SFloat f) => Some (NFloat f)
  | _ => None
  end.

(** Exceptions, with the text [str(e)] gives where the code fixes it. *)
Inductive exn : Type :=
  | AssertionError (msg : string)
  | IndexError
  | KeyError (key : string)
  | TypeError
  | ValueError
  | AttributeError
  | RuntimeError
  | UnicodeDecodeError
  | OverflowError
  | TransportError (msg : string).

Inductive res (A : Type) : Type :=
  | Val (a : A)
  | Exn (e : exn)
  | Undef.
Arguments Val {A} a.
Arguments Exn {A} e.
Arguments Undef {A}.

Definition res_bind {A B : Type} (m : res A) (k : A -> res B) : res B :=
  match m with
  | Val a => k a
  | Exn e => Exn e
  | Undef => Undef
  end.

Notation "'let*' x ':=' m 'in' k" := (res_bind m (fun x => k))
  (at level 10, x binder, k at level 200).

(* ===================================================================== *)
(** ** Dicts as insertion-ordered association lists *)
(* ===================================================================== *)

Section Dict.
Context {V : Type}.

Fixpoint dict_get (d : list (string * V)) (key : string) : option V :=
  match d with
  | [] => None
  | (k, v) :: rest => if String.eqb k key then Some v else dict_get rest key
  end.

Definition dict_has (d : list (string * V)) (key : string) : bool :=
  match dict_get d key with Some _ => true | None => false end.

(** [d[key] = v]: overwrite in place, or append a new key. *)
Fixpoint dict_set (d : list (string * V)) (key : string) (v : V) : list (string * V) :=
  match d with
  | [] => [(key, v)]
  | (k, w) :: rest =>
      if String.eqb k key then (k, v) :: rest else (k, w) :: dict_set rest key v
  end.

(** [d.pop(key)] on a key that is present *)
Fixpoint dict_del (d : list (string * V)) (key : string) : list (string * V) :=
  match d with
  | [] => []
  | (k, w) :: rest =>
      if String.eqb k key then rest else (k, w) :: dict_del rest key
  end.
End Dict.

(* ===================================================================== *)
(** ** The classes GeoPoint, TimeStamp, Reference *)
(* ===================================================================== *)

(** [min(max(x, lo), hi)]: [max] keeps its first argument unless the second
    is greater, [min] keeps its first unless the second is smaller. *)
Definition py_max (a b : num) : num := if num_gt b a then b else a.
Definition py_min (a b : num) : num := if num_lt b a then b else a.

Definition GeoPoint (latitude longitude : pyval) : scalar :=
  let latitude := match as_num latitude with Some x => x | None => NInt 0 end in
  let longitude := match as_num longitude with Some x => x | None => NInt 0 end in
  SGeoPoint (py_min (py_max latitude (NInt (-90))) (NInt 90))
            (py_min (py_max longitude (NInt (-180))) (NInt 180)).

Definition GeoPoint_get (g : scalar) : pyval :=
  match g with
  | SGeoPoint la lo => PDict [("latitude", PScalar (num_val la)); ("longitude", PScalar (num_val lo))]
  | _ => PNone
  end.

Definition TimeStamp (value : pyval) : scalar :=
  match value with
  | PScalar (SStr s) => STimeStamp s
  | _ => STimeStamp "2000-01-01T00:00:00Z"
  end.

Definition Reference (value : string) : scalar := SReference value.

(* ===================================================================== *)
(** ** Builtins the code calls *)
(* ===================================================================== *)

Infix "+:+" := String.append (at level 60, right associativity).

Definition str_of_int (n : Z) : string := NilZero.string_of_int (Z.to_int n).

(** [int(s)] on a [str]: the plain decimal numerals.  Python also takes
    surrounding blanks, a leading plus sign and underscores; the model
    leaves those undefined. *)
Definition int_of_str (s : string) : res Z :=
  match NilZero.int_of_string s with
  | Some d => Val (Z.of_int d)
  | None => Undef
  end.

(** Truth value of an immutable value ([if value:]). *)
Definition float_is_zero (f : float) : bool :=
  match f with S754_zero _ => true | _ => false end.

Definition scalar_truthy (s : scalar) : bool :=
  match s with
  | SNone => false
  | SBool b => b
  | SInt n => negb (n =? 0)%Z
  | SFloat f => negb (float_is_zero f)
  | SStr s => negb (String.eqb s "")
  | SBytes b => match b with [] => false | _ => true end
  | SGeoPoint _ _ | STimeStamp _ | SReference _ | SOther _ => true
  end.

Definition py_bool (v : pyval) : bool :=
  match v with
  | PScalar s => scalar_truthy s
  | PTuple items | PList items => match items with [] => false | _ => true end
  | PDict items => match items with [] => false | _ => true end
  end.

(** [str(value)]: the cases whose text the language fixes. *)
Definition py_str (v : pyval) : res string :=
  match v with
  | PScalar (SStr s) => Val s
  | PScalar (SInt n) => Val (str_of_int n)
  | PScalar (SBool b) => Val (if b then "True" else "False")
  | PScalar SNone => Val "None"
  | _ => Undef
  end.

(** [int(value)] *)
Definition py_int (v : pyval) : res Z :=
  match v with
  | PScalar (SInt n) => Val n
  | PScalar (SBool b) => Val (int_of_bool b)
  | PScalar (SStr s) => int_of_str s
  | PScalar (SFloat _) | PScalar (SBytes _) | PScalar (SOther _) => Undef
  | _ => Exn TypeError
  end.

(** [float(value)] *)
Definition py_float (v : pyval) : res float :=
  match v with
  | PScalar (SFloat f) => Val f
  | PScalar (SInt n) =>
      match float_of_int n with
      | S754_infinity _ => Exn OverflowError
      | f => Val f
      end
  | PScalar (SBool b) => Val (float_of_int (int_of_bool b))
  | PScalar (SStr _) | PScalar (SBytes _) | PScalar (SOther _) => Undef
  | _ => Exn TypeError
  end.

(** Strict UTF-8: shortest forms only, no surrogates, nothing above
    U+10FFFF. *)
Definition is_cont (b : N) : bool := ((128 <=? b) && (b <=? 191))%N.

Fixpoint valid_utf8_N (b : list N) : bool :=
  match b with
  | [] => true
  | b0 :: r0 =>
      if (b0 <? 128)%N then valid_utf8_N r0 else
      match r0 with
      | [] => false
      | b1 :: r1 =>
          if ((194 <=? b0) && (b0 <=? 223))%N then is_cont b1 && valid_utf8_N r1 else
          match r1 with
          | [] => false
          | b2 :: r2 =>
              if ((224 <=? b0) && (b0 <=? 239))%N then
                (if (b0 =? 224)%N then (160 <=? b1) && (b1 <=? 191)
                 else if (b0 =? 237)%N then (128 <=? b1) && (b1 <=? 159)
                 else is_cont b1)%N
                && is_cont b2 && valid_utf8_N r2
              else
              match r2 with
              | [] => false
              | b3 :: r3 =>
                  if ((240 <=? b0) && (b0 <=? 244))%N then
                    (if (b0 =? 240)%N then (144 <=? b1) && (b1 <=? 191)
                     else if (b0 =? 244)%N then (128 <=? b1) && (b1 <=? 143)
                     else is_cont b1)%N
                    && is_cont b2 && is_cont b3 && valid_utf8_N r3
                  else false
              end
          end
      end
  end.

Definition valid_utf8 (b : bytes) : bool := valid_utf8_N (List.map Byte.to_N b).

(** [value.decode('utf-8')] on [bytes] *)
Definition bytes_decode (b : bytes) : res string :=
  if valid_utf8 b then Val (string_of_list_byte b) else Exn UnicodeDecodeError.

(** [value.encode(errors='ignore')]: a method of [str] only.  The text is
    already UTF-8, so nothing is dropped. *)
Definition py_encode_ignore (v : pyval) : res bytes :=
  match v with
  | PScalar (SStr s) => Val (list_byte_of_string s)
  | PScalar (SOther _) => Undef
  | _ => Exn AttributeError
  end.

Definition type_name (v : pyval) : string :=
  match v with
  | PScalar SNone => "NoneType"
  | PScalar (SBool _) => "bool"
  | PScalar (SInt _) => "int"
  | PScalar (SFloat _) => "float"
  | PScalar (SStr _) => "str"
  | PScalar (SBytes _) => "bytes"
  | PScalar (SGeoPoint _ _) => "firestore4kivy.firestore4kivy.GeoPoint"
  | PScalar (STimeStamp _) => "firestore4kivy.firestore4kivy.TimeStamp"
  | PScalar (SReference _) => "firestore4kivy.firestore4kivy.Reference"
  | PScalar (SOther ty) => ty
  | PTuple _ => "tuple"
  | PList _ => "list"
  | PDict _ => "dict"
  end.

(** [str(type(value))] *)
Definition str_of_type (v : pyval) : string := "<class '" +:+ type_name v +:+ "'>".

(** The builtin classes the encoder names before its catch-all branch. *)
Definition listed_builtin (v : pyval) : bool :=
  match v with
  | PTuple _ => true
  | PScalar (SOther ty) =>
      existsb (String.eqb ty)
        ["bytearray"; "memoryview"; "complex"; "range"; "frozenset"; "set"]
  | _ => false
  end.

(* ===================================================================== *)
(** ** Dict translation: dict_to_firestore *)
(* ===================================================================== *)

Definition dquote : string := String (ascii_of_nat 34) EmptyString.

Definition nested_list_msg : string :=
  "ERROR: Nested lists are not available in Firestore.".

(** The inner function [map] of [dict_to_firestore], for the values that
    need no recursive call. *)
Definition map_scalar (ref : string) (s : scalar) : res pyval :=
  match s with
  | SNone => Val (PDict [("nullValue", PNone)])
  | SBool b => Val (PDict [("booleanValue", PScalar (SBool b))])
  | SInt n => Val (PDict [("integerValue", PStr (str_of_int n))])
  | SFloat f => Val (PDict [("doubleValue", PScalar (SFloat f))])
  | SStr s => Val (PDict [("stringValue", PStr s)])
  | SBytes b => let* s := bytes_decode b in Val (PDict [("bytesValue", PStr s)])
  | SGeoPoint _ _ => Val (PDict [("geoPointValue", GeoPoint_get s)])
  | STimeStamp d => Val (PDict [("timestampValue", PStr d)])
  | SReference d => Val (PDict [("referenceValue", PStr d)])
  | SOther _ =>
      if listed_builtin (PScalar s) then
        Exn (AssertionError ("ERROR: " +:+ ref +:+ "value type " +:+ str_of_type (PScalar s)
                             +:+ " is not available in Firestore."))
      else
        Exn (AssertionError ("ERROR: Class " +:+ str_of_type (PScalar s)
                             +:+ " is not available in Firestore."))
  end.

(** The inner function [map] of [dict_to_firestore]: it sees the
    [parent_is_list] of the call that encloses it, and calls
    [self.dict_to_firestore], here [encode]. *)
Definition map_value (encode : pyval -> bool -> res pyval) (parent_is_list : bool)
    (ref : string) (value : pyval) : res pyval :=
  match value with
  | PScalar s => map_scalar ref s
  | PList _ =>
      if parent_is_list then Exn (AssertionError nested_list_msg)
      else
        let* values := encode value true in
        Val (PDict [("arrayValue", PDict [("values", values)])])
  | PDict _ =>
      let* fields := encode value false in
      Val (PDict [("mapValue", PDict [("fields", fields)])])
  | PTuple _ =>
      Exn (AssertionError ("ERROR: " +:+ ref +:+ "value type " +:+ str_of_type value
                           +:+ " is not available in Firestore."))
  end.

(** [for key in data: new_dict[str(key)] = map('Key "' + str(key) + '" ', data[key])]:
    a Python dict has no duplicate key, so [data[key]] is the value paired
    with [key]. *)
Fixpoint encode_fields (map : string -> pyval -> res pyval)
    (items : list (string * pyval)) (new_dict : list (string * pyval)) : res pyval :=
  match items with
  | [] => Val (PDict new_dict)
  | (key, value) :: rest =>
      let* node := map ("Key " +:+ dquote +:+ key +:+ dquote +:+ " ") value in
      encode_fields map rest (dict_set new_dict key node)
  end.

(** [for d in data: new_array.append(map('List Index [' + str(i) + '] ', d)); i += 1] *)
Fixpoint encode_array (map : string -> pyval -> res pyval)
    (items : list pyval) (i : Z) (new_array : list pyval) : res pyval :=
  match items with
  | [] => Val (PList new_array)
  | d :: rest =>
      let* node := map ("List Index [" +:+ str_of_int i +:+ "] ") d in
      encode_array map rest (i + 1) (new_array ++ [node])
  end.

(** [dict_to_firestore(data, parent_is_list)].  A [data] that is neither a
    dict nor a list falls off the end of the function, which returns
    [None]. *)
Fixpoint dict_to_firestore (data : pyval) (parent_is_list : bool) {struct data} : res pyval :=
  match data with
  | PDict items => encode_fields (map_value dict_to_firestore parent_is_list) items []
  | PList items => encode_array (map_value dict_to_firestore parent_is_list) items 0 []
  | _ => Val PNone
  end.

(* ===================================================================== *)
(** ** Dict translation: dict_from_firestore *)
(* ===================================================================== *)

Definition is_scalar_value (value : pyval) : bool :=
  match value with
  | PDict _ | PList _ => false
  | _ => true
  end.

Definition is_dict_value (value : pyval) (keys : list string) : bool :=
  match value with
  | PDict items =>
      (length items =? length keys)%nat && forallb (dict_has items) keys
  | _ => false
  end.

(** [value[key]] on a tree *)
Definition subscript (value : pyval) (key : string) : res pyval :=
  match value with
  | PDict items =>
      match dict_get items key with
      | Some v => Val v
      | None => Exn (KeyError key)
      end
  | _ => Exn TypeError
  end.

(** [f(value[key])], written so that [f] is applied to a part of [items]. *)
Fixpoint subscript_then {A : Type} (f : pyval -> res A)
    (items : list (string * pyval)) (key : string) : res A :=
  match items with
  | [] => Exn (KeyError key)
  | (k, v) :: rest => if String.eqb k key then f v else subscript_then f rest key
  end.

(** [for v in value['values']: array.append(self.dict_from_firestore(v))] *)
Fixpoint decode_array (decode : pyval -> res pyval) (elems : list pyval)
    (array : list pyval) : res pyval :=
  match elems with
  | [] => Val (PList array)
  | v :: rest =>
      let* x := decode v in
      decode_array decode rest (array ++ [x])
  end.

(** The loop over [value['values']], whatever it is: a list or tuple yields
    its elements; a dict yields its keys, and a [str] decodes to [{}]. *)
Definition decode_values (decode : pyval -> res pyval) (values : pyval) : res pyval :=
  match values with
  | PList elems | PTuple elems => decode_array decode elems []
  | PDict kvs => Val (PList (List.map (fun _ => PDict []) kvs))
  | PScalar (SStr _) | PScalar (SBytes _) | PScalar (SOther _) => Undef
  | PScalar _ => Exn TypeError
  end.

(** The branches of the loop body for a scalar [value]; [None] when no tag
    matches: the inner [if] chain has no [else], and the loop goes on. *)
Definition decode_scalar (key : string) (value : pyval) : option (res pyval) :=
  if String.eqb key "nullValue" then Some (Val PNone)
  else if String.eqb key "stringValue" then
    Some (let* s := py_str value in Val (PStr s))
  else if String.eqb key "booleanValue" then
    Some (Val (PScalar (SBool (py_bool value))))
  else if String.eqb key "integerValue" then
    Some (let* n := py_int value in Val (PInt n))
  else if String.eqb key "doubleValue" then
    Some (let* f := py_float value in Val (PScalar (SFloat f)))
  else if String.eqb key "bytesValue" then
    Some (let* b := py_encode_ignore value in Val (PScalar (SBytes b)))
  else if String.eqb key "timestampValue" then
    Some (let* s := py_str value in Val (PScalar (TimeStamp (PStr s))))
  else if String.eqb key "referenceValue" then
    Some (let* s := py_str value in Val (PScalar (Reference s)))
  else None.

(** [for key in data: value = data[key]; ...]: a Python dict has no
    duplicate key, so [data[key]] is the value paired with [key]. *)
Fixpoint decode_fields (decode : pyval -> res pyval)
    (items : list (string * pyval)) (new_dict : list (string * pyval)) : res pyval :=
  match items with
  | [] => Val (PDict new_dict)
  | (key, value) :: rest =>
      if is_scalar_value value then
        match decode_scalar key value with
        | Some r => r
        | None => decode_fields decode rest new_dict
        end
      else if String.eqb key "mapValue" && is_dict_value value ["fields"] then
        match value with
        | PDict vitems => subscript_then decode vitems "fields"
        | _ => Undef
        end
      else if String.eqb key "arrayValue" && is_dict_value value ["values"] then
        match value with
        | PDict vitems => subscript_then (decode_values decode) vitems "values"
        | _ => Undef
        end
      else if String.eqb key "geoPointValue"
              && is_dict_value value ["latitude"; "longitude"] then
        let* latitude := subscript value "latitude" in
        let* longitude := subscript value "longitude" in
        Val (PScalar (GeoPoint latitude longitude))
      else
        let* v := decode value in
        decode_fields decode rest (dict_set new_dict key v)
  end.

(** [dict_from_firestore(data)] *)
Fixpoint dict_from_firestore (data : pyval) {struct data} : res pyval :=
  match data with
  | PDict items => decode_fields dict_from_firestore items []
  | _ => Val (PDict [])
  end.

(* ===================================================================== *)
(** ** Utilities: dict_size *)
(* ===================================================================== *)

(** [dict_size(data)] on a snapshot: every value that is neither a dict nor
    a list counts for one. *)
Fixpoint dict_size (data : pyval) {struct data} : Z :=
  match data with
  | PDict items =>
      (fix for_key (items : list (string * pyval)) (count : Z) : Z :=
         match items with
         | [] => count
         | (_, v) :: rest => for_key rest (count + dict_size v)
         end) items 0
  | PList items =>
      (fix for_ele (items : list pyval) (count : Z) : Z :=
         match items with
         | [] => count
         | ele :: rest => for_ele rest (count + dict_size ele)
         end) items 0
  | _ => 1
  end.

(* ===================================================================== *)
(** ** Specification-side notions *)
(* ===================================================================== *)

(** [x] lies between [-bound] and [bound]. *)
Definition in_range (bound : Z) (x : num) : bool :=
  num_le (NInt (- bound)) x && num_le x (NInt bound).

(** Clamping to the nearest bound, as the specification words it. *)
Definition clamp (bound : Z) (x : num) : num :=
  if num_lt x (NInt (- bound)) then NInt (- bound)
  else if num_gt x (NInt bound) then NInt bound
  else x.

(** The number a constructor argument stands for: anything that is neither
    an [int] nor a [float] counts as 0. *)
Definition numeric_or_zero (x : pyval) : num :=
  match as_num x with Some n => n | None => NInt 0 end.

(* ===================================================================== *)
(** ** Mutable objects: the store *)
(* ===================================================================== *)

(** Lists and dicts are objects with an identity: a value refers to them by
    location, so that two references to one list see each other's updates.
    Tuples are immutable and held by value. *)
Abbreviation loc := nat.

Inductive value : Type :=
  | VScalar (s : scalar)
  | VTuple (items : list value)
  | VRef (l : loc).

Coercion VScalar : scalar >-> value.

Inductive object : Type :=
  | OList (items : list value)
  | ODict (items : list (string * value)).

Abbreviation store := (list object).

(** A computation over a state [S]: it returns, raises, or is outside the
    model.  A raised exception keeps the state: updates made before it stay. *)
Inductive outcome (S A : Type) : Type :=
  | Ok (a : A) (s : S)
  | Raise (e : exn) (s : S)
  | Stuck.
Arguments Ok {S A} a s.
Arguments Raise {S A} e s.
Arguments Stuck {S A}.

Definition M (S A : Type) : Type := S -> outcome S A.

Definition ret {S A : Type} (a : A) : M S A := fun s => Ok a s.
Definition raise {S A : Type} (e : exn) : M S A := fun s => Raise e s.
Definition stuck {S A : Type} : M S A := fun _ => Stuck.

Definition bind {S A B : Type} (m : M S A) (k : A -> M S B) : M S B :=
  fun s =>
    match m s with
    | Ok a s' => k a s'
    | Raise e s' => Raise e s'
    | Stuck => Stuck
    end.

Notation "'let!' x ':=' m 'in' k" := (bind m (fun x => k))
  (at level 10, x binder, k at level 200).

(** [try: m  except Exception as e: handler e] *)
Definition try_except {S A : Type} (m : M S A) (handler : exn -> M S A) : M S A :=
  fun s =>
    match m s with
    | Raise e s' => handler e s'
    | r => r
    end.

Definition of_res {S A : Type} (r : res A) : M S A :=
  match r with
  | Val a => ret a
  | Exn e => raise e
  | Undef => stuck
  end.

Definition H (A : Type) : Type := M store A.

(** A new object gets the next free location. *)
Definition alloc (o : object) : H value :=
  fun σ => Ok (VRef (length σ)) (σ ++ [o]).

Definition load (l : loc) : H object :=
  fun σ => match σ !! l with Some o => Ok o σ | None => Stuck end.

Definition put (l : loc) (o : object) : H unit :=
  fun σ => Ok tt (<[l := o]> σ).

(** What [isinstance(v, dict)] and [isinstance(v, list)] see. *)
Inductive view : Type :=
  | IsDict (l : loc) (items : list (string * value))
  | IsList (l : loc) (items : list value)
  | IsOther.

Definition view_of (v : value) : H view :=
  match v with
  | VRef l =>
      let! o := load l in
      match o with
      | ODict items => ret (IsDict l items)
      | OList items => ret (IsList l items)
      end
  | _ => ret IsOther
  end.

Definition load_dict (l : loc) : H (list (string * value)) :=
  let! o := load l in
  match o with ODict items => ret items | OList _ => stuck end.

Definition load_list (l : loc) : H (list value) :=
  let! o := load l in
  match o with OList items => ret items | ODict _ => stuck end.

Definition is_tuple (v : value) : bool :=
  match v with VTuple _ => true | _ => false end.

(** Truth value ([if value]) *)
Definition truthy (v : value) : H bool :=
  match v with
  | VScalar s => ret (scalar_truthy s)
  | VTuple items => ret (match items with [] => false | _ => true end)
  | VRef l =>
      let! o := load l in
      match o with
      | ODict items => ret (match items with [] => false | _ => true end)
      | OList items => ret (match items with [] => false | _ => true end)
      end
  end.

(** [value and (isinstance(value, dict) or isinstance(value, list))] *)
Definition nonempty_container (v : value) : H bool :=
  let! t := truthy v in
  if t then
    let! w := view_of v in
    ret (match w with IsDict _ _ | IsList _ _ => true | IsOther => false end)
  else ret false.

(** [ele[i]] on a tuple, for the literal indices 0 and 1 *)
Definition tuple_item (ele : value) (i : nat) : res value :=
  match ele with
  | VTuple items =>
      match items !! i with
      | Some x => Val x
      | None => Exn IndexError
      end
  | _ => Exn TypeError
  end.

(** The number a value is in a comparison with an [int], if it is one.
    Instances of other classes may define their own comparison. *)
Definition value_num (v : value) : res (option num) :=
  match v with
  | VScalar (SBool b) => Val (Some (NBool b))
  | VScalar (SInt n) => Val (Some (NInt n))
  | VScalar (SFloat f) => Val (Some (NFloat f))
  | VScalar (SOther _) => Undef
  | _ => Val None
  end.

(** [index < n] where [n] is an [int]: a [TypeError] unless [index] is a number. *)
Definition py_lt_int (index : value) (n : Z) : res bool :=
  let* x := value_num index in
  match x with
  | Some x => Val (num_lt x (NInt n))
  | None => Exn TypeError
  end.

(** [index == n]: never raises. *)
Definition py_eq_int (index : value) (n : Z) : res bool :=
  let* x := value_num index in
  match x with
  | Some x => Val (num_eq x (NInt n))
  | None => Val false
  end.

(** The position [l[index]] addresses in a list of length [n]: an [int] (or
    [bool]), counted from the end when negative. *)
Definition list_position (n : nat) (index : value) : res nat :=
  let at_int (i : Z) : res nat :=
    if (0 <=? i)%Z && (i <? Z.of_nat n)%Z then Val (Z.to_nat i)
    else if (- Z.of_nat n <=? i)%Z && (i <? 0)%Z then Val (Z.to_nat (Z.of_nat n + i))
    else Exn IndexError in
  match index with
  | VScalar (SInt i) => at_int i
  | VScalar (SBool b) => at_int (int_of_bool b)
  | VScalar (SOther _) => Undef
  | _ => Exn TypeError
  end.

(** [existing[index]] on the list at [l] *)
Definition list_getitem (l : loc) (index : value) : H value :=
  let! items := load_list l in
  let! i := of_res (list_position (length items) index) in
  match items !! i with
  | Some x => ret x
  | None => stuck
  end.

(** [existing[index] = value] *)
Definition list_setitem (l : loc) (index : value) (v : value) : H unit :=
  let! items := load_list l in
  let! i := of_res (list_position (length items) index) in
  put l (OList (<[i := v]> items)).

(** [existing.append(value)] *)
Definition list_append (l : loc) (v : value) : H unit :=
  let! items := load_list l in
  put l (OList (items ++ [v])).

(** [existing.pop(index)] *)
Definition list_pop (l : loc) (index : value) : H unit :=
  let! items := load_list l in
  let! i := of_res (list_position (length items) index) in
  put l (OList (delete i items)).

(** [existing[key]] on the dict at [l] *)
Definition dict_getitem (l : loc) (key : string) : H value :=
  let! items := load_dict l in
  match dict_get items key with
  | Some v => ret v
  | None => raise (KeyError key)
  end.

(** [existing[key] = value] *)
Definition dict_setitem (l : loc) (key : string) (v : value) : H unit :=
  let! items := load_dict l in
  put l (ODict (dict_set items key v)).

(** [existing.pop(key)] *)
Definition dict_popitem (l : loc) (key : string) : H unit :=
  let! items := load_dict l in
  if dict_has items key then put l (ODict (dict_del items key))
  else raise (KeyError key).

(** [for key, value in d.items()] over the dict at [l], which had [n0]
    entries when the loop started.  Before each step, the last included,
    the iterator raises [RuntimeError] if the dict has changed size; it
    then yields the entry at its position as the dict is now. *)
Fixpoint for_items (l : loc) (n0 : nat) (todo : nat)
    (body : string -> value -> H unit) {struct todo} : H unit :=
  let! items := load_dict l in
  if negb (length items =? n0)%nat then raise RuntimeError
  else
    match todo with
    | O => ret tt
    | S todo' =>
        match items !! (n0 - todo)%nat with
        | Some (key, v) =>
            let! _ := body key v in
            for_items l n0 todo' body
        | None => stuck
        end
    end.

(** [for ele in lst] over the list at [l], from position [i]: the iterator
    reads the list as it is at each step.  [tuples] is the loop's flag. *)
Fixpoint for_each (fuel : nat) (l : loc) (i : nat) (tuples : bool)
    (body : value -> bool -> H bool) {struct fuel} : H bool :=
  match fuel with
  | O => stuck
  | S fuel' =>
      let! items := load_list l in
      match items !! i with
      | None => ret tuples
      | Some ele =>
          let! tuples' := body ele tuples in
          for_each fuel' l (S i) tuples' body
      end
  end.

(** [for ele in lst] over a list no one else holds *)
Fixpoint for_own (items : list value) (body : value -> H unit) : H unit :=
  match items with
  | [] => ret tt
  | ele :: rest =>
      let! _ := body ele in
      for_own rest body
  end.

(* ===================================================================== *)
(** ** Dict update: dict_replace and dict_pop *)
(* ===================================================================== *)

(** [sorted(removes, key = lambda x: x[0], reverse = True)].  The keys are
    computed first.  Sorting is stable, also with [reverse]: entries with
    equal keys keep their order.  With two entries or more the keys are
    compared: numbers sort by value; a key that is no number ends in a
    [TypeError] before anything is removed (raised by the comparison, or,
    when the keys are all [str] or all [bytes], by the first use of a key as
    an index).  The order Python gives to NaN keys, and comparisons of
    tuples, lists or instances of other classes, are not modelled. *)
Inductive sort_key : Type :=
  | KNum (x : num)
  | KNoNumber
  | KUnknown.

Definition classify_key (k : value) : sort_key :=
  match k with
  | VScalar (SBool b) => KNum (NBool b)
  | VScalar (SInt n) => KNum (NInt n)
  | VScalar (SFloat f) => if is_nan (NFloat f) then KUnknown else KNum (NFloat f)
  | VScalar (SOther _) | VTuple _ | VRef _ => KUnknown
  | VScalar _ => KNoNumber
  end.

Fixpoint keys_of (removes : list value) : res (list (sort_key * value)) :=
  match removes with
  | [] => Val []
  | ele :: rest =>
      let* k := tuple_item ele 0 in
      let* ks := keys_of rest in
      Val ((classify_key k, ele) :: ks)
  end.

Definition key_gt (a b : sort_key) : bool :=
  match a, b with
  | KNum x, KNum y => num_gt x y
  | _, _ => false
  end.

(** [ele] stood before every entry of [sorted] in the input: it goes in
    front of the first entry whose key is not greater than its own. *)
Fixpoint insert_desc (k : sort_key) (ele : value) (sorted : list (sort_key * value))
  : list (sort_key * value) :=
  match sorted with
  | [] => [(k, ele)]
  | (k', ele') :: rest =>
      if key_gt k' k then (k', ele') :: insert_desc k ele rest
      else (k, ele) :: sorted
  end.

Definition sort_desc (keyed : list (sort_key * value)) : list (sort_key * value) :=
  fold_right (fun x acc => insert_desc (fst x) (snd x) acc) [] keyed.

Definition sorted_descending (removes : list value) : res (list value) :=
  let* keyed := keys_of removes in
  match keyed with
  | [] | [_] => Val removes
  | _ =>
      if existsb (fun x => match fst x with KUnknown => true | _ => false end) keyed
      then Undef
      else if existsb (fun x => match fst x with KNoNumber => true | _ => false end) keyed
      then Exn TypeError
      else Val (List.map snd (sort_desc keyed))
  end.

(** The body of the loop [for key, value in replace.items()] of
    [dict_replace], on the dict at [le]; [rec] is [self.dict_replace]. *)
Definition replace_key (rec : value -> value -> H bool) (le : loc)
    (key : string) (value : value) : H unit :=
  let! eitems := load_dict le in
  if dict_has eitems key then
    let! w := view_of value in
    match w with
    | IsDict _ _ =>
        let! sub := dict_getitem le key in
        let! _ := rec sub value in
        ret tt
    | IsList _ _ =>
        let! sub := dict_getitem le key in
        let! edited := rec sub value in
        if negb edited then dict_setitem le key value else ret tt
    | IsOther => dict_setitem le key value
    end
  else (* new key *)
    dict_setitem le key value.

(** The body of the loop [for ele in replace] of [dict_replace], on the
    list at [le]; it returns the flag [tuples]. *)
Definition replace_entry (le : loc) (ele : value) (tuples : bool) : H bool :=
  if is_tuple ele then
    let! index := of_res (tuple_item ele 0) in
    let! value := of_res (tuple_item ele 1) in
    let! eitems := load_list le in
    let! below := of_res (py_lt_int index (Z.of_nat (length eitems))) in
    if below then
      let! _ := list_setitem le index value in
      ret true
    else
      let! at_end := of_res (py_eq_int index (Z.of_nat (length eitems))) in
      if at_end then
        let! _ := list_append le value in
        ret true
      else ret true
  else ret tuples.

(** [dict_replace(existing, replace)].  [fuel] bounds the depth of the
    recursion and the length of the list loop. *)
Fixpoint dict_replace (fuel : nat) (existing replace : value) {struct fuel} : H bool :=
  match fuel with
  | O => stuck
  | S fuel' =>
      let! r := view_of replace in
      let! e := view_of existing in
      match r, e with
      | IsDict lr ritems, IsDict le _ =>
          let! _ :=
            for_items lr (length ritems) (length ritems)
              (replace_key (dict_replace fuel') le) in
          ret false
      | IsList lr _, IsList le _ =>
          for_each fuel' lr 0 false (replace_entry le)
      | _, _ => ret false
      end
  end.

(** The body of the loop [for key, value in removes.items()] of
    [dict_pop], on the dict at [le]; [rec] is [self.dict_pop]. *)
Definition pop_key (rec : value -> value -> H value) (le : loc)
    (key : string) (value : value) : H unit :=
  let! eitems := load_dict le in
  if dict_has eitems key then
    let! partial := nonempty_container value in
    if partial then
      let! sub := dict_getitem le key in
      let! _ := rec sub value in
      ret tt
    else dict_popitem le key
  else ret tt.

(** The body of the loop [for ele in descending] of [dict_pop], on the
    list at [le]. *)
Definition pop_entry (rec : value -> value -> H value) (le : loc) (ele : value) : H unit :=
  let! index := of_res (tuple_item ele 0) in
  let! value := of_res (tuple_item ele 1) in
  let! partial := nonempty_container value in
  if partial then
    let! sub := list_getitem le index in
    let! _ := rec sub value in
    ret tt
  else
    let! eitems := load_list le in
    let! below := of_res (py_lt_int index (Z.of_nat (length eitems))) in
    if below then list_pop le index else ret tt.

(** [dict_pop(existing, removes)] *)
Fixpoint dict_pop (fuel : nat) (existing removes : value) {struct fuel} : H value :=
  match fuel with
  | O => stuck
  | S fuel' =>
      let! r := view_of removes in
      let! e := view_of existing in
      match r, e with
      | IsDict lr ritems, IsDict le _ =>
          let! _ :=
            for_items lr (length ritems) (length ritems) (pop_key (dict_pop fuel') le) in
          ret existing
      | IsList lr ritems, IsList le _ =>
          if forallb is_tuple ritems then
            let! descending := of_res (sorted_descending ritems) in
            let! _ := for_own descending (pop_entry (dict_pop fuel') le) in
            ret existing
          else
            (* the first entry that is no tuple: [return []] *)
            alloc (OList [])
      | _, _ => ret existing
      end
  end.

(* ===================================================================== *)
(** ** Between the store and trees *)
(* ===================================================================== *)

(** The objects a freshly built tree consists of: children first. *)
Fixpoint alloc_tree (t : pyval) {struct t} : H value :=
  match t with
  | PScalar s => ret (VScalar s)
  | PTuple items =>
      let! vs :=
        (fix each (items : list pyval) : H (list value) :=
           match items with
           | [] => ret []
           | x :: rest =>
               let! v := alloc_tree x in
               let! vs := each rest in
               ret (v :: vs)
           end) items in
      ret (VTuple vs)
  | PList items =>
      let! vs :=
        (fix each (items : list pyval) : H (list value) :=
           match items with
           | [] => ret []
           | x :: rest =>
               let! v := alloc_tree x in
               let! vs := each rest in
               ret (v :: vs)
           end) items in
      alloc (OList vs)
  | PDict items =>
      let! vs :=
        (fix each (items : list (string * pyval)) : H (list (string * value)) :=
           match items with
           | [] => ret []
           | (k, x) :: rest =>
               let! v := alloc_tree x in
               let! vs := each rest in
               ret ((k, v) :: vs)
           end) items in
      alloc (ODict vs)
  end.

(** The tree a value unfolds to in a store.  [None]: a dangling reference,
    or nesting deeper than [fuel] (a cyclic structure at any depth). *)
Fixpoint snapshot (fuel : nat) (σ : store) (v : value) {struct fuel} : option pyval :=
  match fuel with
  | O => None
  | S fuel' =>
      let each :=
        fix each (items : list value) : option (list pyval) :=
          match items with
          | [] => Some []
          | x :: rest =>
              match snapshot fuel' σ x, each rest with
              | Some t, Some ts => Some (t :: ts)
              | _, _ => None
              end
          end in
      match v with
      | VScalar s => Some (PScalar s)
      | VTuple items => option_map PTuple (each items)
      | VRef l =>
          match σ !! l with
          | Some (OList items) => option_map PList (each items)
          | Some (ODict items) =>
              option_map PDict
                ((fix each_item (items : list (string * value)) : option (list (string * pyval)) :=
                    match items with
                    | [] => Some []
                    | (k, x) :: rest =>
                        match snapshot fuel' σ x, each_item rest with
                        | Some t, Some ts => Some ((k, t) :: ts)
                        | _, _ => None
                        end
                    end) items)
          | None => None
          end
      end
  end.

(** Reading a value without changing the store *)
Definition read_tree (fuel : nat) (v : value) : H pyval :=
  fun σ => match snapshot fuel σ v with Some t => Ok t σ | None => Stuck end.

(* ===================================================================== *)
(** ** The transport and the world *)
(* ===================================================================== *)

(** What one call leaves behind: its sleeps and its requests, in order.
    The body of a POST is the document handed to [json.dumps]. *)
Inductive event : Type :=
  | ESleep (seconds : num)
  | EGet (url : string)
  | EPost (url : string) (body : pyval)
  | EDelete (url : string).

(** The response object [r] of [requests]: [r.status_code] and [r.json()],
    which raises when the body is no JSON. *)
Record response : Type := Response { status_code : Z; json : res pyval }.

(** What the transport does with a request: answer, or raise (timeout,
    connection error). *)
Inductive reply : Type :=
  | Reply (r : response)
  | NoReply (e : exn).

Record world : Type := World { heap : store; trace : list event }.

Definition W (A : Type) : Type := M world A.

Definition lift {A : Type} (m : H A) : W A :=
  fun w =>
    match m (heap w) with
    | Ok a σ => Ok a (World σ (trace w))
    | Raise e σ => Raise e (World σ (trace w))
    | Stuck => Stuck
    end.

Definition is_request (ev : event) : bool :=
  match ev with ESleep _ => false | _ => true end.

Definition requests_of (t : list event) : list event := List.filter is_request t.

Definition sleeps_of (t : list event) : list num :=
  flat_map (fun ev => match ev with ESleep s => [s] | _ => [] end) t.

(** The state of a [Firestore] object after [enable_database]. *)
Record Firestore : Type := {
  project_id : string;
  local_id : string;
  id_token : string
}.

(** The public operations return [(success, data, update_time)]; [data] is
    the document, or the error text: [Error s] is the text [s], [ErrorOf e]
    is ['ERROR: ' + str(e)], [ErrorRepr r] is ['ERROR:' + str(r)]. *)
Inductive data : Type :=
  | Doc (v : value)
  | Error (text : string)
  | ErrorOf (e : exn)
  | ErrorRepr (r : pyval).

Definition result : Type := bool * data * pyval.

(** [key in container] for a [str] key *)
Definition py_in (key : string) (container : pyval) : res bool :=
  match container with
  | PDict items => Val (dict_has items key)
  | PList items | PTuple items =>
      Val (existsb (fun x => match x with
                             | PScalar (SStr s) => String.eqb s key
                             | _ => false
                             end) items)
  | PScalar (SStr s) =>
      Val (match String.index 0 key s with Some _ => true | None => false end)
  | PScalar (SOther _) => Undef
  | PScalar _ => Exn TypeError
  end.

(** [v[0]] *)
Definition subscript0 (v : pyval) : res pyval :=
  match v with
  | PList items | PTuple items =>
      match items with
      | x :: _ => Val x
      | [] => Exn IndexError
      end
  | PDict _ => Exn (KeyError "0")
  | PScalar (SStr s) => if String.eqb s "" then Exn IndexError else Undef
  | PScalar (SBytes _) | PScalar (SOther _) => Undef
  | PScalar _ => Exn TypeError
  end.

(** ['ERROR: ' + msg]: a [TypeError] unless [msg] is a [str]. *)
Definition error_text (msg : pyval) : res data :=
  match msg with
  | PScalar (SStr m) => Val (Error ("ERROR: " +:+ m))
  | PScalar (SOther _) => Undef
  | _ => Exn TypeError
  end.

(** The two last branches of [parse_result] and [parse_result_update] *)
Definition parse_error (r : pyval) : res result :=
  let* has_error := py_in "error" r in
  let* has_message :=
    if has_error then
      let* err := subscript r "error" in
      py_in "message" err
    else Val false in
  if has_message then
    let* err := subscript r "error" in
    let* msg := subscript err "message" in
    let* text := error_text msg in
    Val (false, text, PStr "")
  else Val (false, ErrorRepr r, PStr "").

(** [parse_result(r)]: the decoded document is a new object. *)
Definition parse_result (r : pyval) : H result :=
  let! has_fields := of_res (py_in "fields" r) in
  if has_fields then
    let! fields := of_res (subscript r "fields") in
    let! tree := of_res (dict_from_firestore fields) in
    let! data := alloc_tree tree in
    let! has_time := of_res (py_in "updateTime" r) in
    let! update_time :=
      if has_time then of_res (subscript r "updateTime") else ret (PStr "") in
    ret (true, Doc data, update_time)
  else of_res (parse_error r).

(** [parse_result_update(r, data)] *)
Definition parse_result_update (r : pyval) (data : value) : res result :=
  let* has_results := py_in "writeResults" r in
  let* has_time :=
    if has_results then
      let* results := subscript r "writeResults" in
      let* first := subscript0 results in
      py_in "updateTime" first
    else Val false in
  if has_time then
    let* results := subscript r "writeResults" in
    let* first := subscript0 results in
    let* update_time := subscript first "updateTime" in
    Val (true, Doc data, update_time)
  else parse_error r.

Definition size_limit : Z := 19990.

Definition size_error (size : Z) : result :=
  (false,
   Error ("ERROR: " +:+ "Dict contains too many elements (" +:+ str_of_int size
          +:+ ") for Firestore."),
   PStr "").

Definition timed_out (collection document : string) : result :=
  (false, Error ("ERROR: Update of " +:+ collection +:+ "/" +:+ document +:+ " timed out."),
   PStr "").

(** [s[:-1]] *)
Fixpoint drop_last (s : string) : string :=
  match s with
  | EmptyString => EmptyString
  | String c EmptyString => EmptyString
  | String c rest => String c (drop_last rest)
  end.

(** How one pass of the loop in [update] ends. *)
Inductive step : Type :=
  | Continue
  | Return (r : result).

Section Operations.

(** The [Firestore] object, the transport (the reply to the request number
    [n] of the call, counted from 0), and the budget for recursion and
    loops. *)
Variable fs : Firestore.
Variable net : nat -> reply.
Variable fuel : nat.

Definition path : string :=
  "projects/" +:+ project_id fs +:+ "/databases/(default)/documents/".
Definition REST : string := "https://firestore.googleapis.com/v1/" +:+ path.

Definition sleep (seconds : num) : W unit :=
  fun w => Ok tt (World (heap w) (trace w ++ [ESleep seconds])).

(** [requests.post], [requests.get], [requests.delete] *)
Definition request (ev : event) : W response :=
  fun w =>
    let w' := World (heap w) (trace w ++ [ev]) in
    match net (length (requests_of (trace w))) with
    | Reply r => Ok r w'
    | NoReply e => Raise e w'
    end.

Definition build_headers : W unit :=
  if String.eqb (id_token fs) "" then raise (AssertionError "Database not enabled.")
  else ret tt.

(** [if not name: name = self.local_id] *)
Definition or_local_id (name : string) : string :=
  if String.eqb name "" then local_id fs else name.

Definition create (collection document : string) (data : value) : W result :=
  let collection := or_local_id collection in
  let document := or_local_id document in
  let! snap := lift (read_tree fuel data) in
  let size := dict_size snap in
  if (size >? size_limit)%Z then ret (size_error size)
  else
    let request_path := REST +:+ collection +:+ "?documentId=" +:+ document in
    try_except
      (let! fields := of_res (dict_to_firestore snap false) in
       let fs_data := PDict [("fields", fields)] in
       let! _ := build_headers in
       let! r := request (EPost request_path fs_data) in
       let! body := of_res (json r) in
       lift (parse_result body))
      (fun e => ret (false, ErrorOf e, PStr "")).

Definition read (collection document : string) : W result :=
  let collection := or_local_id collection in
  let document := or_local_id document in
  let request_path := REST +:+ collection +:+ "/" +:+ document in
  try_except
    (let! _ := build_headers in
     let! r := request (EGet request_path) in
     let! body := of_res (json r) in
     lift (parse_result body))
    (fun e => ret (false, ErrorOf e, PStr "")).

Definition delete (collection document : string) : W result :=
  let collection := or_local_id collection in
  let document := or_local_id document in
  let request_path := REST +:+ collection +:+ "/" +:+ document in
  try_except
    (let! _ := build_headers in
     let! r := request (EDelete request_path) in
     if (status_code r =? 200)%Z then
       let! empty := lift (alloc (ODict [])) in
       ret (true, Doc empty, PStr "")
     else
       let! body := of_res (json r) in
       lift (parse_result body))
    (fun e => ret (false, ErrorOf e, PStr "")).

(** The merge of one pass: [dict_replace], [dict_pop], then the callback. *)
Definition merge (existing replace delete : value)
    (callback : option (value -> H unit)) : H unit :=
  let! _ := dict_replace fuel existing replace in
  let! _ := dict_pop fuel existing delete in
  match callback with
  | Some f => f existing
  | None => ret tt
  end.

(** [t['error']['status'] == 'FAILED_PRECONDITION'] under its two guards *)
Definition failed_precondition (status : Z) (t : pyval) : res bool :=
  if (status =? 400)%Z then
    let* has_error := py_in "error" t in
    if has_error then
      let* err := subscript t "error" in
      let* has_status := py_in "status" err in
      if has_status then
        let* s := subscript err "status" in
        Val (match s with
             | PScalar (SStr s) => String.eqb s "FAILED_PRECONDITION"
             | _ => false
             end)
      else Val false
    else Val false
  else Val false.

(** The URL of a document, and the URL and body of a commit *)
Definition document_url (collection document : string) : string :=
  REST +:+ collection +:+ "/" +:+ document.

Definition commit_url : string := drop_last REST +:+ ":commit".

Definition commit_document (collection document : string) (fields update_time : pyval)
  : pyval :=
  let fs_data :=
    PDict [("fields", fields); ("name", PStr (path +:+ collection +:+ "/" +:+ document))] in
  PDict [("writes",
          PList [PDict [("update", fs_data);
                        ("currentDocument", PDict [("updateTime", update_time)])]])].

(** The [try] block of [update]: encode, commit under the read's
    [updateTime], and either go round again or return. *)
Definition commit (collection document : string) (existing : value)
    (snap update_time : pyval) : W step :=
  let request_path := commit_url in
  try_except
    (let! fields := of_res (dict_to_firestore snap false) in
     let commit := commit_document collection document fields update_time in
     let! _ := build_headers in
     let! r := request (EPost request_path commit) in
     let! t := of_res (json r) in
     let! again := of_res (failed_precondition (status_code r) t) in
     if again then ret Continue
     else
       let! res := of_res (parse_result_update t existing) in
       ret (Return res))
    (fun e => ret (Return (false, ErrorOf e, PStr ""))).

(** One pass of the loop after the backoff test: read, merge, size check,
    commit. *)
Definition attempt_body (collection document : string) (replace delete : value)
    (callback : option (value -> H unit)) : W step :=
  let! '(success, existing, update_time) := read collection document in
  if (success : bool) then
    match existing with
    | Doc existing =>
        let! _ := lift (merge existing replace delete callback) in
        let! snap := lift (read_tree fuel existing) in
        let size := dict_size snap in
        if (size >? size_limit)%Z then ret (Return (size_error size))
        else commit collection document existing snap update_time
    | _ => stuck
    end
  else ret (Return (false, existing, update_time)).

(** The loop of [update], entered with the current [backoff] and
    [attempt]; [n] bounds the number of passes. *)
Fixpoint update_loop (n : nat) (collection document : string) (replace delete : value)
    (callback : option (value -> H unit)) (backoff : num) (attempt : Z) {struct n}
  : W result :=
  match n with
  | O => stuck
  | S n' =>
      let! _ := sleep backoff in
      let attempt := (attempt + 1)%Z in
      let backoff :=
        if (attempt =? 5)%Z then NInt 1
        else if (attempt >? 5)%Z then num_mul backoff (NFloat float_1_5)
        else backoff in
      if num_ge backoff (NInt 60) then ret (timed_out collection document)
      else
        let! s := attempt_body collection document replace delete callback in
        match s with
        | Continue => update_loop n' collection document replace delete callback backoff attempt
        | Return r => ret r
        end
  end.

Definition update (collection document : string) (replace delete : value)
    (callback : option (value -> H unit)) : W result :=
  let collection := or_local_id collection in
  let document := or_local_id document in
  update_loop fuel collection document replace delete callback (NInt 0) 0.

End Operations.

(* ===================================================================== *)
(** ** Native values, as the specification's data model has them *)
(* ===================================================================== *)

(** A field of a [GeoPoint] as its constructor leaves it: neither
    comparison of the clamp applies to it. *)
Definition settled (bound : Z) (x : num) : bool :=
  negb (num_lt x (NInt (- bound))) && negb (num_gt x (NInt bound)).

(** The scalars the encoder accepts: byte sequences hold UTF-8, a
    [GeoPoint] is one its constructor built. *)
Definition native_scalar (s : scalar) : bool :=
  match s with
  | SBytes b => valid_utf8 b
  | SGeoPoint latitude longitude => settled 90 latitude && settled 180 longitude
  | SOther _ => false
  | _ => true
  end.

Fixpoint unique_keys {V : Type} (items : list (string * V)) : bool :=
  match items with
  | [] => true
  | (k, _) :: rest => negb (dict_has rest k) && unique_keys rest
  end.

(** A native value with every sequence directly inside a sequence ruled
    out; [in_list] tells whether the value is an element of a sequence.
    Dicts have no duplicate key, as every Python dict. *)
Fixpoint native (in_list : bool) (v : pyval) {struct v} : bool :=
  match v with
  | PScalar s => native_scalar s
  | PTuple _ => false
  | PList items => negb in_list && forallb (native true) items
  | PDict items =>
      unique_keys items && forallb (fun kv => native false (snd kv)) items
  end.

(** A value of the native types only, nested sequences allowed. *)
Fixpoint supported (v : pyval) {struct v} : bool :=
  match v with
  | PScalar s => native_scalar s
  | PTuple _ => false
  | PList items => forallb supported items
  | PDict items => forallb (fun kv => supported (snd kv)) items
  end.

(** Some sequence has a sequence among its elements. *)
Fixpoint nested_list (in_list : bool) (v : pyval) {struct v} : bool :=
  match v with
  | PList items => in_list || existsb (nested_list true) items
  | PDict items => existsb (fun kv => nested_list false (snd kv)) items
  | _ => false
  end.

(** A wire node: one tag, which is no field name of a sub-schema. *)
Definition wire_node (n : pyval) : bool :=
  match n with
  | PDict [(tag, _)] => negb (String.eqb tag "fields") && negb (String.eqb tag "values")
  | _ => false
  end.

(** The node of a native value, written without the error cases. *)
Fixpoint wire (v : pyval) {struct v} : pyval :=
  match v with
  | PScalar s => match map_scalar "" s with Val n => n | _ => PNone end
  | PTuple _ => PNone
  | PList items =>
      PDict [("arrayValue", PDict [("values", PList (List.map wire items))])]
  | PDict items =>
      PDict [("mapValue",
              PDict [("fields", PDict (List.map (fun kv => (fst kv, wire (snd kv))) items))])]
  end.

(** What [dict_replace] returns, read off its arguments: the flag is set only
    by the loop over two lists, and by every tuple it meets. *)
Definition replace_flag (σ : store) (existing replace : value) : bool :=
  match replace, existing with
  | VRef lr, VRef le =>
      match σ !! lr, σ !! le with
      | Some (OList ritems), Some (OList _) => existsb is_tuple ritems
      | _, _ => false
      end
  | _, _ => false
  end.

(** A computation that only appends requests to the trace, no sleep. *)
Definition quiet {A : Type} (m : W A) : Prop :=
  forall w,
    match m w with
    | Ok _ w' | Raise _ w' =>
        exists evs, trace w' = trace w ++ evs /\ sleeps_of evs = []
    | Stuck => True
    end.

(** The variable [backoff] once pass number [attempt] of the loop in
    [update] has set it, and the sleep that opens pass number [attempt]. *)
Fixpoint backoff_after (attempt : nat) : num :=
  match attempt with
  | O => NInt 0
  | S k =>
      if (S k =? 5)%nat then NInt 1
      else if (5 <? S k)%nat then num_mul (backoff_after k) (NFloat float_1_5)
      else backoff_after k
  end.

Definition sleep_before (attempt : nat) : num := backoff_after (attempt - 1).

(** A run of [update] that has made [a] passes and goes on from world [w]
    follows the schedule: it starts [k - a] more passes, each opened by its
    sleep; a pass number 16 only sleeps and gives up. *)
Definition follows_schedule (collection document : string) (a : nat) (w : world)
    (o : outcome world result) : Prop :=
  match o with
  | Ok res w' =>
      exists k, (a < k <= 16)%nat
        /\ sleeps_of (trace w')
           = sleeps_of (trace w) ++ List.map sleep_before (seq (S a) (k - a))
        /\ (k = 16%nat ->
            res = timed_out collection document
            /\ exists evs, trace w' = trace w ++ evs ++ [ESleep (sleep_before 16)])
  | Raise _ w' =>
      exists k, (a < k < 16)%nat
        /\ sleeps_of (trace w')
           = sleeps_of (trace w) ++ List.map sleep_before (seq (S a) (k - a))
  | Stuck => True
  end.

(** A computation that lets no exception out. *)
Definition never_raises {A : Type} (m : W A) : Prop :=
  forall w e w', m w <> Raise e w'.

(* ===================================================================== *)
(** ** Sample data *)
(* ===================================================================== *)

(** An overlay entry [(index, value)] *)
Definition entry (index : Z) (v : pyval) : pyval := PTuple [PInt index; v].

(** A native document, with fields named like wire tags. *)
Definition sample_native : list (string * pyval) :=
  [("count", PInt (-7));
   ("mapValue", PDict [("fields", PStr "named like a tag")]);
   ("geoPointValue", PDict [("latitude", PInt 1); ("longitude", PInt 2)]);
   ("nullValue", PNone);
   ("items", PList [PInt 1; PDict [("inner", PList [])];
                    PScalar (GeoPoint (PInt 200) (PInt (-300)))]);
   ("blob", PScalar (SBytes [Byte.x41; Byte.xc3; Byte.xa9]));
   ("when", PScalar (TimeStamp (PStr "2024-05-01T00:00:00Z")));
   ("ratio", PScalar (SFloat float_1_5))].

(** A document with a list inside a list. *)
Definition sample_nested : list (string * pyval) :=
  [("ok", PInt 1); ("grid", PList [PInt 1; PList [PInt 2]])].

Definition sample_fs : Firestore :=
  {| project_id := "demo"; local_id := "user-1"; id_token := "token" |}.

(** Replies of the service: a document, a refused commit, an accepted one. *)
Definition document_reply (fields : pyval) (update_time : string) : reply :=
  Reply (Response 200 (Val (PDict [("name", PStr "doc"); ("fields", fields);
                                   ("updateTime", PStr update_time)]))).

Definition refused_reply : reply :=
  Reply (Response 400
           (Val (PDict [("error",
                         PDict [("code", PInt 400);
                                ("message", PStr "the stored document has changed");
                                ("status", PStr "FAILED_PRECONDITION")])]))).

Definition accepted_reply (update_time : string) : reply :=
  Reply (Response 200
           (Val (PDict [("writeResults", PList [PDict [("updateTime", PStr update_time)]])]))).

Definition wire_int (n : Z) : pyval := PDict [("integerValue", PStr (str_of_int n))].
Definition wire_array (nodes : list pyval) : pyval :=
  PDict [("arrayValue", PDict [("values", PList nodes)])].

(** A store made of the given trees, with the values that refer to them. *)
Definition build (trees : list pyval) : list value * store :=
  fold_left
    (fun acc t =>
       match alloc_tree t (snd acc) with
       | Ok v σ => (fst acc ++ [v], σ)
       | _ => acc
       end)
    trees ([], []).

Definition nth_value (vs : list value) (i : nat) : value := nth i vs (VScalar SNone).

(** Every commit is refused: the service holds [{a: 1}] and another writer
    always comes first. *)
Definition busy_net (n : nat) : reply :=
  if Nat.even n then document_reply (PDict [("a", wire_int 1)]) "t0" else refused_reply.

Definition busy_run : outcome world result :=
  let '(vs, σ) := build [PDict [("b", PInt 2)]; PDict []] in
  update sample_fs busy_net 20 "users" "u1" (nth_value vs 0) (nth_value vs 1) None (World σ []).

(** The first commit is refused, the second accepted; the document has
    changed in between. *)
Definition retry_net (n : nat) : reply :=
  match n with
  | 0%nat => document_reply (PDict [("a", wire_int 1)]) "t1"
  | 1%nat => refused_reply
  | 2%nat => document_reply (PDict [("z", PDict [("stringValue", PStr "new")])]) "t2"
  | _ => accepted_reply "t3"
  end.

(** The service holds [{a: [1, 2]}]. *)
Definition list_net (n : nat) : reply :=
  match n with
  | 0%nat => document_reply (PDict [("a", wire_array [wire_int 1; wire_int 2])]) "t1"
  | _ => accepted_reply "t2"
  end.

(** The service holds an empty document. *)
Definition empty_net (n : nat) : reply := document_reply (PDict []) "t1".

(** A document with 19,991 scalar leaves: 100 rows of 199, and 91 more. *)
Definition big_document : pyval :=
  PDict [("rows", PList (repeat (PDict [("row", PList (repeat (PInt 0) 199))]) 100));
         ("rest", PList (repeat (PInt 0) 91))].

(** The state a computation leaves, when it returns. *)
Definition state_of {S A : Type} (o : outcome S A) (otherwise : S) : S :=
  match o with
  | Ok _ s => s
  | _ => otherwise
  end.

(** The overlays [{b: 2}] and [{}] in a store. *)
Definition plain_start : list value * store := build [PDict [("b", PInt 2)]; PDict []].
Definition plain_replace : value := nth_value (fst plain_start) 0.
Definition plain_delete : value := nth_value (fst plain_start) 1.
Definition plain_store : store := snd plain_start.

(** The bodies of the replies of [retry_net] *)
Definition first_body : pyval :=
  PDict [("name", PStr "doc"); ("fields", PDict [("a", wire_int 1)]); ("updateTime", PStr "t1")].
Definition second_body : pyval :=
  PDict [("name", PStr "doc"); ("fields", PDict [("z", PDict [("stringValue", PStr "new")])]);
         ("updateTime", PStr "t2")].
Definition refused_body : pyval :=
  PDict [("error", PDict [("code", PInt 400);
                          ("message", PStr "the stored document has changed");
                          ("status", PStr "FAILED_PRECONDITION")])].
Definition accepted_body : pyval :=
  PDict [("writeResults", PList [PDict [("updateTime", PStr "t3")]])].

(** The replace overlay [{tags: [x, y, z]}] and the delete overlay
    [{tags: [(0, None)]}]: set a list and drop its first element. *)
Definition tags_start : list value * store :=
  build [PDict [("tags", PList [PStr "x"; PStr "y"; PStr "z"])];
         PDict [("tags", PList [entry 0 PNone])]].
Definition tags_replace : value := nth_value (fst tags_start) 0.
Definition tags_delete : value := nth_value (fst tags_start) 1.

Definition tags_run : outcome world result :=
  update sample_fs retry_net 5 "users" "u1" tags_replace tags_delete None
    (World (snd tags_start) []).

(** The delete overlay [{a: [(5, [(0, None)])]}]: a partial delete below
    index 5 of the list under [a]. *)
Definition escape_start : list value * store :=
  build [PDict []; PDict [("a", PList [entry 5 (PList [entry 0 PNone])])]].

Definition escape_run : outcome world result :=
  update sample_fs list_net 5 "users" "u1"
    (nth_value (fst escape_start) 0) (nth_value (fst escape_start) 1) None
    (World (snd escape_start) []).

(** The existing mapping [{a: [1]}] and the replace mapping
    [{a: [(0, 9)]}]: a positional edit of the list under [a]. *)
Definition edit_start : list value * store :=
  build [PDict [("a", PList [PInt 1])]; PDict [("a", PList [entry 0 (PInt 9)])]].
Definition edit_existing : value := nth_value (fst edit_start) 0.
Definition edit_replace : value := nth_value (fst edit_start) 1.

(** The list [a, b, c, d] with two delete-specs, and one with a bare index. *)
Definition letters_start : list value * store :=
  build [PList [PStr "a"; PStr "b"; PStr "c"; PStr "d"];
         PList [entry 0 PNone; entry 2 PNone];
         PList [entry 2 PNone; PInt 0]].

(** The big document as a replace overlay, with an empty delete overlay. *)
Definition big_start : list value * store := build [big_document; PDict []].
Definition big_replace : value := nth_value (fst big_start) 0.
Definition big_delete : value := nth_value (fst big_start) 1.
Definition big_store : store := snd big_start.
Definition empty_body : pyval :=
  PDict [("name", PStr "doc"); ("fields", PDict []); ("updateTime", PStr "t1")].

(* ===================================================================== *)
(** ** Notions used by the proofs *)
(* ===================================================================== *)

(** Induction on trees, with the hypothesis for every element of a
    container. *)
Section PyvalInduction.
Variable P : pyval -> Prop.
Hypothesis Hscalar : forall s, P (PScalar s).
Hypothesis Htuple : forall items, Forall P items -> P (PTuple items).
Hypothesis Hlist : forall items, Forall P items -> P (PList items).
Hypothesis Hdict : forall items, Forall (fun kv => P (snd kv)) items -> P (PDict items).

Fixpoint pyval_nested_ind (v : pyval) : P v :=
  match v with
  | PScalar s => Hscalar s
  | PTuple items =>
      Htuple items
        ((fix all (l : list pyval) : Forall P l :=
            match l with
            | [] => List.Forall_nil _
            | x :: r => List.Forall_cons _ x r (pyval_nested_ind x) (all r)
            end) items)
  | PList items =>
      Hlist items
        ((fix all (l : list pyval) : Forall P l :=
            match l with
            | [] => List.Forall_nil _
            | x :: r => List.Forall_cons _ x r (pyval_nested_ind x) (all r)
            end) items)
  | PDict items =>
      Hdict items
        ((fix all (l : list (string * pyval)) : Forall (fun kv => P (snd kv)) l :=
            match l with
            | [] => List.Forall_nil _
            | x :: r => List.Forall_cons _ x r (pyval_nested_ind (snd x)) (all r)
            end) items)
  end.
End PyvalInduction.

(** What the round trip asks of one value: the encoder gives its node, and
    the node decodes back to it. *)
Definition round_trips (v : pyval) : Prop :=
  forall flag ref, native flag v = true ->
    map_value dict_to_firestore flag ref v = Val (wire v)
    /\ wire_node (wire v) = true
    /\ dict_from_firestore (wire v) = Val v.

(** The keys of [items] are not yet in [acc]. *)
Definition fresh_for {V : Type} (acc : list (string * V)) (items : list (string * pyval)) : Prop :=
  forall k v, In (k, v) items -> dict_has acc k = false.

Definition wire_fields (items : list (string * pyval)) : list (string * pyval) :=
  List.map (fun kv => (fst kv, wire (snd kv))) items.

(** The encoder never returns for a value with a nested sequence, and
    never leaves the model. *)
Definition rejects_nesting (v : pyval) : Prop :=
  forall flag ref,
    match map_value dict_to_firestore flag ref v with
    | Val _ => nested_list flag v = false
    | Exn _ => True
    | Undef => False
    end.

(** On the native types, the only error is the one for nested sequences. *)
Definition fails_only_on_nesting (v : pyval) : Prop :=
  forall flag ref, supported v = true ->
    match map_value dict_to_firestore flag ref v with
    | Val _ => True
    | Exn e => e = AssertionError nested_list_msg
    | Undef => False
    end.

(** [value and ...] for an object of the store *)
Definition object_nonempty (o : object) : bool :=
  match o with
  | OList [] | ODict [] => false
  | _ => true
  end.
(* ===================================================================== *)
(** ** The class Authorize, and enable_database *)
(* ===================================================================== *)

(** [json.dumps(v)] with the default encoder: the payload is kept as the
    tree it serialises.  A tuple is written as an array; [bytes] and
    instances of classes are a [TypeError]. *)
Fixpoint json_serializable (v : pyval) {struct v} : bool :=
  match v with
  | PScalar (SNone | SBool _ | SInt _ | SFloat _ | SStr _) => true
  | PScalar _ => false
  | PTuple items | PList items => forallb json_serializable items
  | PDict items => forallb (fun kv => json_serializable (snd kv)) items
  end.

Definition json_dumps (v : pyval) : res pyval :=
  if json_serializable v then Val v else Exn TypeError.

(** An [Authorize] object: [self.apikey], a [str]. *)
Record Authorize : Type := { apikey : string }.

Definition V1 : string := "https://securetoken.googleapis.com/v1/".
Definition V3 : string := "https://www.googleapis.com/identitytoolkit/v3/relyingparty/".

(** The methods of [Authorize] return [(success, response)]; [response] is
    the dict of the answer, or an error text: [Failure s] is the text [s],
    [FailureOf e] is ['ERROR: ' + str(e)], [FailureStr d] is
    ['ERROR: ' + str(d)]. *)
Inductive auth_data : Type :=
  | Account (d : pyval)
  | Failure (text : string)
  | FailureOf (e : exn)
  | FailureStr (d : pyval).

Definition auth_result : Type := bool * auth_data.

(** ['ERROR: ' + msg]: a [TypeError] unless [msg] is a [str]. *)
Definition error_message (msg : pyval) : res string :=
  match msg with
  | PScalar (SStr m) => Val ("ERROR: " +:+ m)
  | PScalar (SOther _) => Undef
  | _ => Exn TypeError
  end.

(** [Authorize.parse_result(r)] *)
Definition Authorize_parse_result (r : response) : res auth_result :=
  let* d := json r in
  if (status_code r =? 200)%Z then Val (true, Account d)
  else
    let* has_error := py_in "error" d in
    let* has_message :=
      if has_error then
        let* err := subscript d "error" in
        py_in "message" err
      else Val false in
    if has_message then
      let* err := subscript d "error" in
      let* msg := subscript err "message" in
      let* text := error_message msg in
      Val (false, Failure text)
    else Val (false, FailureStr d).

(** [{'email': email, 'password': password, 'returnSecureToken': 'true'}] *)
Definition credentials (email password : pyval) : pyval :=
  PDict [("email", email); ("password", password); ("returnSecureToken", PStr "true")].

Definition signup_url (a : Authorize) : string := V3 +:+ "signupNewUser?key=" +:+ apikey a.
Definition verify_url (a : Authorize) : string := V3 +:+ "verifyPassword?key=" +:+ apikey a.
Definition token_url (a : Authorize) : string := V1 +:+ "token?key=" +:+ apikey a.
Definition delete_account_url (a : Authorize) : string :=
  V3 +:+ "deleteAccount?key=" +:+ apikey a.

Section Authorization.

Variable auth : Authorize.
Variable net : nat -> reply.

Definition create_user_with_email (email password : pyval) : W auth_result :=
  let! payload := of_res (json_dumps (credentials email password)) in
  let url := signup_url auth in
  try_except
    (let! r := request net (EPost url payload) in
     of_res (Authorize_parse_result r))
    (fun e => ret (false, FailureOf e)).

Definition sign_in_with_email (email password : pyval) : W auth_result :=
  let! payload := of_res (json_dumps (credentials email password)) in
  let url := verify_url auth in
  try_except
    (let! r := request net (EPost url payload) in
     of_res (Authorize_parse_result r))
    (fun e => ret (false, FailureOf e)).

Definition sign_in_with_token (refresh_token : pyval) : W auth_result :=
  let! payload :=
    of_res (json_dumps (PDict [("grantType", PStr "refresh_token");
                               ("refreshToken", refresh_token)])) in
  let url := token_url auth in
  try_except
    (let! r := request net (EPost url payload) in
     let! '(success, response) := of_res (Authorize_parse_result r) in
     if (success : bool) then
       match response with
       | Account response =>
           (* convert from v1 to v3 *)
           let! user_id := of_res (subscript response "user_id") in
           let! id_token := of_res (subscript response "id_token") in
           let! refresh_token := of_res (subscript response "refresh_token") in
           ret (true, Account (PDict [("localId", user_id); ("idToken", id_token);
                                      ("refreshToken", refresh_token)]))
       | _ => stuck
       end
     else ret (false, response))
    (fun e => ret (false, FailureOf e)).

(** [response and isinstance(response, dict) and 'idToken' in response] *)
Definition has_id_token (response : pyval) : bool :=
  py_bool response
  && match response with
     | PDict items => dict_has items "idToken"
     | _ => false
     end.

(** [delete_user(response)].  An instance of another class decides on its
    own truth value, which the model does not know. *)
Definition delete_user (response : pyval) : W auth_result :=
  match response with
  | PScalar (SOther _) => stuck
  | _ =>
      if has_id_token response then
        let! id_token := of_res (subscript response "idToken") in
        let! payload := of_res (json_dumps (PDict [("idToken", id_token)])) in
        let url := delete_account_url auth in
        try_except
          (let! r := request net (EPost url payload) in
           of_res (Authorize_parse_result r))
          (fun e => ret (false, FailureOf e))
      else ret (false, Failure "ERROR: delete_user(), incorrect argument.")
  end.

End Authorization.

(** [auth and isinstance(auth, dict) and 'localId' in auth and 'idToken' in auth] *)
Definition has_ids (auth : pyval) : bool :=
  py_bool auth
  && match auth with
     | PDict items => dict_has items "localId" && dict_has items "idToken"
     | _ => false
     end.

(** [enable_database(auth)]: the object with its two ids set.  The model
    keeps the ids as [str]; ids of another type are outside it. *)
Definition enable_database (fs : Firestore) (auth : pyval) : res Firestore :=
  match auth with
  | PScalar (SOther _) => Undef
  | _ =>
      if has_ids auth then
        let* local := subscript auth "localId" in
        let* token := subscript auth "idToken" in
        match local, token with
        | PScalar (SStr l), PScalar (SStr t) =>
            Val {| project_id := project_id fs; local_id := l; id_token := t |}
        | _, _ => Undef
        end
      else Val {| project_id := project_id fs; local_id := ""; id_token := "" |}
  end.

(* ===================================================================== *)
(** ** Notions for the properties of the merge engine *)
(* ===================================================================== *)

(** A value held in place: a scalar or a tuple, no list or dict object. *)
Definition plain (v : value) : bool :=
  match v with
  | VRef _ => false
  | _ => true
  end.

(** [d.update(overlay)]: the entries of the overlay assigned in order. *)
Definition dict_update (d overlay : list (string * value)) : list (string * value) :=
  fold_left (fun d kv => dict_set d (fst kv) (snd kv)) overlay d.

(** The dict without the keys of the overlay. *)
Definition dict_without (d overlay : list (string * value)) : list (string * value) :=
  fold_left (fun d kv => dict_del d (fst kv)) overlay d.

(** An entry the loop over a replace list takes: anything that is no tuple
    (skipped), or a pair [(index, value)] with an index from 0 up. *)
Definition positional (ele : value) : bool :=
  match ele with
  | VTuple [VScalar (SInt i); _] => (0 <=? i)%Z
  | VTuple _ => false
  | _ => true
  end.

(** What a pair [(index, value)] does to a list: assign within the list,
    append right at its end, nothing beyond. *)
Definition place (items : list value) (ele : value) : list value :=
  match ele with
  | VTuple [VScalar (SInt i); v] =>
      if (i <? Z.of_nat (length items))%Z then <[Z.to_nat i := v]> items
      else if (i =? Z.of_nat (length items))%Z then items ++ [v]
      else items
  | _ => items
  end.

(** A value that is no dict in the store: held in place, or a list. *)
Definition not_a_dict (σ : store) (v : value) : bool :=
  match v with
  | VRef l =>
      match σ !! l with
      | Some (OList _) => true
      | _ => false
      end
  | _ => true
  end.

(* ===================================================================== *)
(** ** Notions for the properties of the update protocol *)
(* ===================================================================== *)

(** The requests of a pass of [update] that reads and commits: the GET of
    the document, then the POST of the commit with its [fields] and the
    [updateTime] it expects. *)
Definition read_and_commit (fs : Firestore) (collection document : string)
    (x : pyval * pyval) : list event :=
  [EGet (document_url fs collection document);
   EPost (commit_url fs) (commit_document fs collection document (fst x) (snd x))].

(** The requests of the pass that ends a call: none, the GET alone, or the
    GET and the commit. *)
Definition last_pass (fs : Firestore) (collection document : string)
    (evs : list event) : Prop :=
  evs = []
  \/ evs = [EGet (document_url fs collection document)]
  \/ exists x, evs = read_and_commit fs collection document x.

(** A run of [update] that has made [a] passes and goes on from world [w]
    sends the requests of its refused passes, then those of its last pass;
    it makes 15 passes with requests at most. *)
Definition reads_then_commits (fs : Firestore) (collection document : string) (a : nat)
    (w : world) (o : outcome world result) : Prop :=
  match o with
  | Ok _ w' | Raise _ w' =>
      exists refused last,
        requests_of (trace w')
        = requests_of (trace w)
          ++ flat_map (read_and_commit fs collection document) refused ++ last
        /\ last_pass fs collection document last
        /\ (a + length refused + (match last with [] => 0 | _ => 1 end) <= 15)%nat
  | Stuck => True
  end.

(** What an operation returns when [build_headers] finds no token. *)
Definition not_enabled : result :=
  (false, ErrorOf (AssertionError "Database not enabled."), PStr "").

(* ===================================================================== *)
(** ** Notions for the properties of Authorize *)
(* ===================================================================== *)

(** A method of [Authorize] that sends its one POST from world [w] and
    returns: it never raises, and it reports success exactly when the
    answer has status 200 and a JSON body, which it hands on. *)
Definition answered (net : nat -> reply) (url : string) (payload : pyval) (w : world)
    (o : outcome world auth_result) : Prop :=
  match o with
  | Ok (success, response) w' =>
      w' = World (heap w) (trace w ++ [EPost url payload])
      /\ (success = true
          <-> exists r d,
                net (length (requests_of (trace w))) = Reply r
                /\ status_code r = 200%Z
                /\ json r = Val d
                /\ response = Account d)
  | Raise _ _ => False
  | Stuck =>
      exists r, net (length (requests_of (trace w))) = Reply r
                /\ Authorize_parse_result r = Undef
  end.

(** The first key [sign_in_with_token] looks up that the answer lacks. *)
Definition missing_key (items : list (string * pyval)) : option string :=
  find (fun k => negb (dict_has items k)) ["user_id"; "id_token"; "refresh_token"].

(* ===================================================================== *)
(** ** Notions for the properties of the codec *)
(* ===================================================================== *)

(** The values [dict_to_firestore] has a wire form for: the scalars of the
    nine classes [map] names before its assertions ([bytes] that hold
    UTF-8), dicts, and lists that are no element of a list. *)
Definition encodable_scalar (s : scalar) : bool :=
  match s with
  | SBytes b => valid_utf8 b
  | SOther _ => false
  | _ => true
  end.

Fixpoint encodable (in_list : bool) (v : pyval) {struct v} : bool :=
  match v with
  | PScalar s => encodable_scalar s
  | PTuple _ => false
  | PList items => negb in_list && forallb (encodable true) items
  | PDict items => forallb (fun kv => encodable false (snd kv)) items
  end.

(** [map] returns exactly on the encodable values, and raises on the
    others. *)
Definition encodes_exactly (v : pyval) : Prop :=
  forall flag ref,
    match map_value dict_to_firestore flag ref v with
    | Val _ => encodable flag v = true
    | Exn _ => encodable flag v = false
    | Undef => False
    end.

(* ===================================================================== *)
(** ** Trees in the store *)
(* ===================================================================== *)

(** The nesting depth of a tree. *)
Fixpoint height (t : pyval) {struct t} : nat :=
  match t with
  | PScalar _ => 0
  | PTuple items | PList items => S (list_max (List.map height items))
  | PDict items => S (list_max (List.map (fun kv => height (snd kv)) items))
  end.

(** The loops inside [alloc_tree] and [snapshot], by name. *)
Definition alloc_each : list pyval -> H (list value) :=
  fix each (items : list pyval) : H (list value) :=
    match items with
    | [] => ret []
    | x :: rest =>
        let! v := alloc_tree x in
        let! vs := each rest in
        ret (v :: vs)
    end.

Definition alloc_each_item : list (string * pyval) -> H (list (string * value)) :=
  fix each (items : list (string * pyval)) : H (list (string * value)) :=
    match items with
    | [] => ret []
    | (k, x) :: rest =>
        let! v := alloc_tree x in
        let! vs := each rest in
        ret ((k, v) :: vs)
    end.

Definition snapshot_each (fuel : nat) (σ : store) : list value -> option (list pyval) :=
  fix each (items : list value) : option (list pyval) :=
    match items with
    | [] => Some []
    | x :: rest =>
        match snapshot fuel σ x, each rest with
        | Some t, Some ts => Some (t :: ts)
        | _, _ => None
        end
    end.

Definition snapshot_each_item (fuel : nat) (σ : store)
  : list (string * value) -> option (list (string * pyval)) :=
  fix each_item (items : list (string * value)) : option (list (string * pyval)) :=
    match items with
    | [] => Some []
    | (k, x) :: rest =>
        match snapshot fuel σ x, each_item rest with
        | Some t, Some ts => Some ((k, t) :: ts)
        | _, _ => None
        end
    end.

(** A tree built in the store reads back as itself, from any store that
    holds the objects it was built of. *)
Definition holds_new (σ new σ' : store) : Prop :=
  forall l, (length σ <= l < length σ + length new)%nat -> σ' !! l = (σ ++ new) !! l.

Definition reads_back (t : pyval) : Prop :=
  forall σ, exists v new,
    alloc_tree t σ = Ok v (σ ++ new)
    /\ forall σ' n, (height t < n)%nat -> holds_new σ new σ' -> snapshot n σ' v = Some t.

(** The [updateTime] that [parse_result] returns with a document. *)
Definition time_of (body : pyval) : pyval :=
  match subscript body "updateTime" with
  | Val t => t
  | _ => PStr ""
  end.

(* ===================================================================== *)
(** ** More sample data *)
(* ===================================================================== *)

(** [{a: 1, b: 2}] and the replace overlay [{b: 3, c: [4]}]: the overlay
    is at location 2, its list at location 1. *)
Definition flat_start : list value * store :=
  build [PDict [("a", PInt 1); ("b", PInt 2)]; PDict [("b", PInt 3); ("c", PList [PInt 4])]].

(** [{a: 1, b: 2, c: 3}] and the delete overlay [{b: None, z: None}] *)
Definition drop_start : list value * store :=
  build [PDict [("a", PInt 1); ("b", PInt 2); ("c", PInt 3)];
         PDict [("b", PNone); ("z", PNone)]].

(** [[1, 2, 3]] and the replace list [[(0, 9), 7, (3, 4), (9, 5)]] *)
Definition places_start : list value * store :=
  build [PList [PInt 1; PInt 2; PInt 3];
         PList [entry 0 (PInt 9); PInt 7; entry 3 (PInt 4); entry 9 (PInt 5)]].

(** [{a: 5}] and the replace overlay [{a: {b: 1}}]: the overlay is at
    location 2, its inner dict at location 1. *)
Definition scalar_start : list value * store :=
  build [PDict [("a", PInt 5)]; PDict [("a", PDict [("b", PInt 1)])]].

(** [[1, 2]] and the delete list [[(5, [(0, None)])]]: the delete list is
    at location 2, the list inside its pair at location 1. *)
Definition beyond_start : list value * store :=
  build [PList [PInt 1; PInt 2]; PList [entry 5 (PList [entry 0 PNone])]].

(** [{a: {x: 1, y: 2}}] and the replace overlay [{a: {y: 3}}]: the inner
    dicts are at the locations 0 and 2, the outer ones at 1 and 3. *)
Definition nested_start : list value * store :=
  build [PDict [("a", PDict [("x", PInt 1); ("y", PInt 2)])];
         PDict [("a", PDict [("y", PInt 3)])]].

(** [{a: [1, 2]}] and the replace overlay [{a: [7, 8]}]: the lists are at
    the locations 0 and 2, the dicts at 1 and 3. *)
Definition lists_start : list value * store :=
  build [PDict [("a", PList [PInt 1; PInt 2])]; PDict [("a", PList [PInt 7; PInt 8])]].

(** [{a: {x: 1}}] and the delete overlay [{a: {x: None}}] *)
Definition inner_start : list value * store :=
  build [PDict [("a", PDict [("x", PInt 1)])]; PDict [("a", PDict [("x", PNone)])]].

(** The service has no such document. *)
Definition missing_net (n : nat) : reply :=
  Reply (Response 404
           (Val (PDict [("error",
                         PDict [("code", PInt 404);
                                ("message", PStr "Document not found.");
                                ("status", PStr "NOT_FOUND")])]))).

(** The service answers with status 200 and a body that is no JSON. *)
Definition bare_net (n : nat) : reply := Reply (Response 200 (Exn ValueError)).

(** The service echoes the native sample document. *)
Definition echo_net (n : nat) : reply :=
  document_reply (PDict (wire_fields sample_native)) "t1".

Definition native_start : list value * store := build [PDict sample_native].

Definition sample_auth : Authorize := {| apikey := "key" |}.

(** Answers of the identity service: a sign-in, a refreshed token, and a
    refreshed token without its [id_token]. *)
Definition signed_in_net (n : nat) : reply :=
  Reply (Response 200
           (Val (PDict [("localId", PStr "user-1"); ("idToken", PStr "token");
                        ("refreshToken", PStr "refresh")]))).

Definition token_net (n : nat) : reply :=
  Reply (Response 200
           (Val (PDict [("user_id", PStr "user-1"); ("id_token", PStr "token-2");
                        ("refresh_token", PStr "refresh-2")]))).

Definition short_token_net (n : nat) : reply :=
  Reply (Response 200
           (Val (PDict [("user_id", PStr "user-1"); ("refresh_token", PStr "refresh-2")]))).

(* ===================================================================== *)
(** ** Flat overlays, as trees *)
(* ===================================================================== *)

(** A replace overlay of scalars and a delete overlay of keys with the
    value [None], as the objects the caller holds. *)
Definition overlay_object (overlay : list (string * scalar)) : object :=
  ODict (List.map (fun kv => (fst kv, VScalar (snd kv))) overlay).

Definition keys_object (keys : list string) : object :=
  ODict (List.map (fun k => (k, VScalar SNone)) keys).

(** The document with the entries of the overlay assigned, and with the
    keys removed. *)
Definition assigned (items : list (string * pyval)) (overlay : list (string * scalar))
  : list (string * pyval) :=
  fold_left (fun d kv => dict_set d (fst kv) (PScalar (snd kv))) overlay items.

Definition removed (items : list (string * pyval)) (keys : list string)
  : list (string * pyval) :=
  fold_left dict_del keys items.

(** A stored document [{a: 1, b: 2, tags: [x]}], the replace overlay
    [{b: 3, c: 'new'}] and the delete overlay [{a: None, missing: None}];
    the service answers the read with the stored document and accepts the
    commit. *)
Definition merge_stored : list (string * pyval) :=
  [("a", PInt 1); ("b", PInt 2); ("tags", PList [PStr "x"])].
Definition merge_overlay : list (string * scalar) := [("b", SInt 3); ("c", SStr "new")].
Definition merge_keys : list string := ["a"; "missing"].
Definition merge_store : store := [overlay_object merge_overlay; keys_object merge_keys].
Definition merge_net (n : nat) : reply :=
  match n with
  | 0%nat => document_reply (PDict (wire_fields merge_stored)) "t1"
  | _ => accepted_reply "t2"
  end.
Definition merge_result : list (string * pyval) :=
  [("b", PInt 3); ("tags", PList [PStr "x"]); ("c", PStr "new")].

(** The identity service refuses a sign-in. *)
Definition denied_net (n : nat) : reply :=
  Reply (Response 400
           (Val (PDict [("error",
                         PDict [("code", PInt 400); ("message", PStr "EMAIL_NOT_FOUND")])]))).

(** The state a computation leaves, when it raises. *)
Definition raised_state {S A : Type} (o : outcome S A) (otherwise : S) : S :=
  match o with
  | Raise _ s => s
  | _ => otherwise
  end.

(** [{a: {x: 1}, b: 2}] and the delete overlay [{a: {}}]: the existing
    dict is at location 1, the overlay at 3, its empty dict at 2. *)
Definition hollow_start : list value * store :=
  build [PDict [("a", PDict [("x", PInt 1)]); ("b", PInt 2)]; PDict [("a", PDict [])]].

(* ===================================================================== *)
(** ** Notions for positional deletes *)
(* ===================================================================== *)

(** A pair [(index, value)] of a delete list. *)
Definition pair_entry (p : Z * value) : value := VTuple [VScalar (SInt (fst p)); snd p].

(** The list without the elements at the given positions; [from] is the
    position of the head of [items]. *)
Fixpoint keep_from (items : list value) (from : nat) (indices : list Z) : list value :=
  match items with
  | [] => []
  | x :: rest =>
      if existsb (Z.eqb (Z.of_nat from)) indices then keep_from rest (S from) indices
      else x :: keep_from rest (S from) indices
  end.

Definition without_positions (items : list value) (indices : list Z) : list value :=
  keep_from items 0 indices.

Fixpoint distinct (l : list Z) : bool :=
  match l with
  | [] => true
  | x :: rest => negb (existsb (Z.eqb x) rest) && distinct rest
  end.

(** The pairs sorted as [sorted] with [reverse = True] sorts them by index:
    insertion from the right, a pair going in front of the first pair
    whose index is not greater than its own. *)
Fixpoint insert_pair (p : Z * value) (sorted : list (Z * value)) : list (Z * value) :=
  match sorted with
  | [] => [p]
  | q :: rest =>
      if (fst p <? fst q)%Z then q :: insert_pair p rest else p :: sorted
  end.

Definition sort_pairs (pairs : list (Z * value)) : list (Z * value) :=
  fold_right insert_pair [] pairs.

(** Indices in strictly descending order. *)
Fixpoint descending (l : list Z) : Prop :=
  match l with
  | [] => True
  | i :: rest => Forall (fun j => (j < i)%Z) rest /\ descending rest
  end.

(** [[a, b, c, d, e]] and the delete list [[(1, None), (4, None), (0, None)]] *)
Definition shuffle_start : list value * store :=
  build [PList [PStr "a"; PStr "b"; PStr "c"; PStr "d"; PStr "e"];
         PList [entry 1 PNone; entry 4 PNone; entry 0 PNone]].

(* ===================================================================== *)
(** ** Notions for the deep merge *)
(* ===================================================================== *)

(** What [dict_replace] computes on trees, for an overlay without
    positional pairs: a dict of the overlay is merged into a dict, key by
    key; any other value of the overlay is assigned; an overlay that meets
    no dict changes nothing. *)
Fixpoint replace_tree (replace existing : pyval) {struct replace} : pyval :=
  match replace, existing with
  | PDict ritems, PDict eitems =>
      PDict
        (fold_left
           (fun d kv =>
              match dict_get d (fst kv) with
              | Some old =>
                  match snd kv with
                  | PDict _ => dict_set d (fst kv) (replace_tree (snd kv) old)
                  | _ => dict_set d (fst kv) (snd kv)
                  end
              | None => dict_set d (fst kv) (snd kv)
              end)
           ritems eitems)
  | _, _ => existing
  end.

(** One step of that merge. *)
Definition replace_step (d : list (string * pyval)) (kv : string * pyval)
  : list (string * pyval) :=
  match dict_get d (fst kv) with
  | Some old =>
      match snd kv with
      | PDict _ => dict_set d (fst kv) (replace_tree (snd kv) old)
      | _ => dict_set d (fst kv) (snd kv)
      end
  | None => dict_set d (fst kv) (snd kv)
  end.

Definition is_ptuple (v : pyval) : bool :=
  match v with PTuple _ => true | _ => false end.

(** An overlay without positional pairs: no list the merge walks (the
    overlay itself, or a list under a key of its dicts) has a tuple among
    its elements; its dicts have no duplicate key, as every Python dict. *)
Fixpoint overlay_ok (r : pyval) {struct r} : bool :=
  match r with
  | PDict items => unique_keys items && forallb (fun kv => overlay_ok (snd kv)) items
  | PList items => negb (existsb is_ptuple items)
  | _ => true
  end.

(** A bound for the recursion and the loops of [dict_replace] on an
    overlay. *)
Fixpoint weight (r : pyval) {struct r} : nat :=
  match r with
  | PDict items => S (list_sum (List.map (fun kv => weight (snd kv)) items))
  | PList items | PTuple items => S (length items)
  | PScalar _ => 0
  end.

Section Ownership.

(** The store as it was before the document was built: the objects of the
    caller, the overlays among them. *)
Variable σ0 : store.

(** [tree_in mixed σ t v lo hi]: in [σ] the value [v] unfolds to the tree
    [t], through objects at locations from [lo] up to [hi], the children
    of a container one after the other below it.  With [mixed], a part of
    the tree may instead be a value of the old store. *)
Inductive tree_in (mixed : bool) (σ : store) : pyval -> value -> nat -> nat -> Prop :=
  | tree_old t v lo hi n :
      mixed = true -> (lo <= hi)%nat -> snapshot n σ0 v = Some t ->
      tree_in mixed σ t v lo hi
  | tree_scalar s lo hi :
      (lo <= hi)%nat -> tree_in mixed σ (PScalar s) (VScalar s) lo hi
  | tree_tuple items vs lo hi :
      trees_in mixed σ items vs lo hi -> tree_in mixed σ (PTuple items) (VTuple vs) lo hi
  | tree_list items vs l lo hi :
      (l < hi)%nat -> σ !! l = Some (OList vs) -> trees_in mixed σ items vs lo l ->
      tree_in mixed σ (PList items) (VRef l) lo hi
  | tree_dict items vs l lo hi :
      (l < hi)%nat -> σ !! l = Some (ODict vs) -> fields_in mixed σ items vs lo l ->
      tree_in mixed σ (PDict items) (VRef l) lo hi
with trees_in (mixed : bool) (σ : store) : list pyval -> list value -> nat -> nat -> Prop :=
  | trees_nil lo hi : (lo <= hi)%nat -> trees_in mixed σ [] [] lo hi
  | trees_cons t v ts vs lo mid hi :
      tree_in mixed σ t v lo mid -> trees_in mixed σ ts vs mid hi ->
      trees_in mixed σ (t :: ts) (v :: vs) lo hi
with fields_in (mixed : bool) (σ : store)
  : list (string * pyval) -> list (string * value) -> nat -> nat -> Prop :=
  | fields_nil lo hi : (lo <= hi)%nat -> fields_in mixed σ [] [] lo hi
  | fields_cons k t v ts vs lo mid hi :
      tree_in mixed σ t v lo mid -> fields_in mixed σ ts vs mid hi ->
      fields_in mixed σ ((k, t) :: ts) ((k, v) :: vs) lo hi.

Scheme tree_in_mut := Minimality for tree_in Sort Prop
  with trees_in_mut := Minimality for trees_in Sort Prop
  with fields_in_mut := Minimality for fields_in Sort Prop.
Combined Scheme tree_in_mutind from tree_in_mut, trees_in_mut, fields_in_mut.

(** The entries of a dict while the loop of [dict_replace] runs over it:
    an entry whose key the loop has not met is as it was built. *)
Inductive entries_in (met : string -> bool) (σ : store)
  : list (string * pyval) -> list (string * value) -> nat -> nat -> Prop :=
  | entries_nil lo hi : (lo <= hi)%nat -> entries_in met σ [] [] lo hi
  | entries_cons k t v ts vs lo mid hi :
      tree_in (met k) σ t v lo mid -> entries_in met σ ts vs mid hi ->
      entries_in met σ ((k, t) :: ts) ((k, v) :: vs) lo hi.

(** The old objects are where they were. *)
Definition keeps_old (σ : store) : Prop :=
  forall l, (l < length σ0)%nat -> σ !! l = σ0 !! l.

(** Building a tree puts it into the store, in new objects. *)
Definition builds (t : pyval) : Prop :=
  forall σ, exists v new,
    alloc_tree t σ = Ok v (σ ++ new)
    /\ forall σ', holds_new σ new σ' ->
                  tree_in false σ' t v (length σ) (length σ + length new).

(** [dict_replace] on a document built above the old store, with an
    overlay of the old store. *)
Definition merges (r : pyval) : Prop :=
  forall fuel σ e ve lo hi vr n,
    (weight r < fuel)%nat ->
    overlay_ok r = true ->
    (length σ0 <= lo)%nat ->
    keeps_old σ ->
    snapshot n σ0 vr = Some r ->
    tree_in false σ e ve lo hi ->
    exists σ',
      dict_replace fuel ve vr σ = Ok false σ'
      /\ (forall l, ~ (lo <= l < hi)%nat -> σ' !! l = σ !! l)
      /\ tree_in true σ' (replace_tree r e) ve lo hi
      /\ match r with PDict _ => True | _ => σ' = σ end.

End Ownership.

(** The replace overlay [{a: {x: 1, z: [5]}, c: 4}], at location 2 of its
    store, and the document [{a: {x: 0, y: 2}, b: 3}] built after it, at
    location 4. *)
Definition deep_overlay : pyval :=
  PDict [("a", PDict [("x", PInt 1); ("z", PList [PInt 5])]); ("c", PInt 4)].

Definition deep_document : pyval :=
  PDict [("a", PDict [("x", PInt 0); ("y", PInt 2)]); ("b", PInt 3)].

Definition deep_start : store := snd (build [deep_overlay]).

Definition deep_built : store := snd (build [deep_overlay; deep_document]).

(* ===================================================================== *)
(** ** Sample data for the size limit and the retry *)
(* ===================================================================== *)

(** A document with 19,990 scalar leaves, which the service holds, and the
    same with one more leaf under [extra]. *)
Definition full_document : pyval :=
  PDict [("rows", PList (repeat (PDict [("row", PList (repeat (PInt 0) 199))]) 100));
         ("rest", PList (repeat (PInt 0) 90))].

Definition overfull_document : pyval :=
  PDict [("rows", PList (repeat (PDict [("row", PList (repeat (PInt 0) 199))]) 100));
         ("rest", PList (repeat (PInt 0) 90));
         ("extra", PInt 1)].

Definition full_body : pyval :=
  PDict [("name", PStr "doc");
         ("fields", match dict_to_firestore full_document false with
                    | Val fields => fields
                    | _ => PDict []
                    end);
         ("updateTime", PStr "t1")].

Definition full_net (n : nat) : reply :=
  match n with
  | 0%nat => Reply (Response 200 (Val full_body))
  | _ => accepted_reply "t2"
  end.

(** The replace overlay [{extra: 1}] and an empty delete overlay. *)
Definition extra_start : list value * store := build [PDict [("extra", PInt 1)]; PDict []].
Definition extra_replace : value := nth_value (fst extra_start) 0.
Definition extra_delete : value := nth_value (fst extra_start) 1.
Definition extra_store : store := snd extra_start.

(** The service holds [{z: 'new'}] and accepts the first commit: what
    [retry_net] serves from its second read on. *)
Definition fresh_net (n : nat) : reply :=
  match n with
  | 0%nat => document_reply (PDict [("z", PDict [("stringValue", PStr "new")])]) "t2"
  | _ => accepted_reply "t3"
  end.

(** The call of [tags_run] without the conflict. *)
Definition tags_direct_run : outcome world result :=
  update sample_fs fresh_net 5 "users" "u1" tags_replace tags_delete None
    (World (snd tags_start) []).

(* ===================================================================== *)
(** * Properties *)
(* ===================================================================== *)

(** ** GeoPoint *)

Lemma py_clamp_piecewise (bound : Z) (x : num) :
  0 <= bound ->
  py_min (py_max x (NInt (- bound))) (NInt bound) = clamp bound x.
Proof.
  intros Hb. unfold py_min, py_max, clamp, num_gt.
  destruct (num_lt x (NInt (- bound))) eqn:E1; [|reflexivity].
  assert (num_lt (NInt bound) (NInt (- bound)) = false) as ->; [|reflexivity].
  unfold num_lt, num_cmp. simpl. destruct (Z.compare_spec bound (- bound)); auto; lia.
Qed.

Lemma num_cmp_int_l (n : Z) (x : num) :
  num_cmp (NInt n) x = option_map CompOpp (num_cmp x (NInt n)).
Proof.
  destruct x; cbv [num_cmp option_map]; try reflexivity; f_equal; apply Z.compare_antisym.
Qed.

Lemma num_cmp_int_some (n : Z) (x : num) :
  is_nan x = false -> exists c, num_cmp x (NInt n) = Some c.
Proof.
  destruct x as [b|m|f]; cbv [num_cmp is_nan]; eauto.
  destruct f; simpl; eauto; discriminate.
Qed.

Lemma in_range_bound (bound : Z) :
  0 <= bound ->
  in_range bound (NInt (- bound)) = true /\ in_range bound (NInt bound) = true.
Proof.
  intros Hb. cbv [in_range num_le num_cmp].
  rewrite !Z.compare_refl.
  destruct (Z.compare_spec (- bound) bound); simpl; auto; lia.
Qed.

Lemma clamp_in_range (bound : Z) (x : num) :
  0 <= bound ->
  in_range bound (clamp bound x) = negb (is_nan x).
Proof.
  intros Hb. destruct (is_nan x) eqn:Hnan.
  - destruct x as [| |[]]; try discriminate. reflexivity.
  - destruct (num_cmp_int_some (- bound) x Hnan) as [c1 E1].
    destruct (num_cmp_int_some bound x Hnan) as [c2 E2].
    destruct (in_range_bound bound Hb) as [Hlo Hhi].
    unfold clamp, num_gt, num_lt.
    rewrite (num_cmp_int_l bound x), E1, E2.
    destruct c1; simpl; auto;
      destruct c2; simpl; auto; 
      unfold in_range, num_le; rewrite (num_cmp_int_l (- bound) x), E1, E2; reflexivity.
Qed.

(** C9 fails on the code for a NaN.  [GeoPoint(200, -300)] is the point
    (90, -180), [GeoPoint("x", "y")] is (0, 0), an argument that is no
    number counts as 0 on its own, and every field is
    [min(max(x, -bound), bound)]: that lies within the bounds for every
    input but a float NaN, which no comparison moves.  [GeoPoint(nan, nan)]
    keeps the NaN in both fields, outside the ranges the class promises. *)
Theorem GeoPoint_keeps_nan :
  GeoPoint (PInt 200) (PInt (-300)) = SGeoPoint (NInt 90) (NInt (-180))
  /\ GeoPoint (PStr "x") (PStr "y") = SGeoPoint (NInt 0) (NInt 0)
  /\ (forall latitude longitude : pyval,
        let la := numeric_or_zero latitude in
        let lo := numeric_or_zero longitude in
        GeoPoint latitude longitude = SGeoPoint (clamp 90 la) (clamp 180 lo)
        /\ in_range 90 (clamp 90 la) = negb (is_nan la)
        /\ in_range 180 (clamp 180 lo) = negb (is_nan lo))
  /\ (let nan := PScalar (SFloat S754_nan) in
      GeoPoint nan nan = SGeoPoint (NFloat S754_nan) (NFloat S754_nan)
      /\ in_range 90 (NFloat S754_nan) = false
      /\ in_range 180 (NFloat S754_nan) = false).
Proof.
  split; [reflexivity|]. split; [reflexivity|]. split.
  - intros latitude longitude la lo. split; [|split].
    + unfold GeoPoint. fold (numeric_or_zero latitude) (numeric_or_zero longitude).
      rewrite (py_clamp_piecewise 90), (py_clamp_piecewise 180) by lia. reflexivity.
    + apply clamp_in_range; lia.
    + apply clamp_in_range; lia.
  - repeat split; reflexivity.
Qed.

(* ===================================================================== *)
(** ** The codec *)
(* ===================================================================== *)



Lemma dict_has_app {V : Type} (a b : list (string * V)) (k : string) :
  dict_has (a ++ b) k = dict_has a k || dict_has b k.
Proof.
  unfold dict_has. induction a as [|[k' v] a IH]; simpl.
  - reflexivity.
  - destruct (String.eqb k' k); [reflexivity | exact IH].
Qed.

Lemma dict_set_fresh {V : Type} (d : list (string * V)) (k : string) (v : V) :
  dict_has d k = false -> dict_set d k v = d ++ [(k, v)].
Proof.
  unfold dict_has. induction d as [|[k' w] d IH]; simpl; intros Hk.
  - reflexivity.
  - destruct (String.eqb k' k); [discriminate|]. rewrite IH by exact Hk. reflexivity.
Qed.

Lemma int_of_str_of_int (n : Z) : int_of_str (str_of_int n) = Val n.
Proof.
  unfold int_of_str, str_of_int.
  rewrite NilZero.isi.
  - rewrite DecimalZ.of_to. reflexivity.
  - destruct n; cbn; try discriminate.
    intros [= E]. exact (DecimalPos.Unsigned.to_uint_nonnil _ E).
  - destruct n; cbn; try discriminate.
    intros [= E]. exact (DecimalPos.Unsigned.to_uint_nonnil _ E).
Qed.



Lemma settled_fixed (bound : Z) (x : num) :
  settled bound x = true -> py_min (py_max x (NInt (- bound))) (NInt bound) = x.
Proof.
  unfold settled, py_min, py_max, num_gt. intros H.
  apply andb_true_iff in H as [H1 H2].
  apply negb_true_iff in H1, H2. rewrite H1.
  unfold num_gt in H2. rewrite H2. reflexivity.
Qed.

Lemma as_num_val (x : num) : as_num (PScalar (num_val x)) = Some x.
Proof. destruct x; reflexivity. Qed.

Lemma scalar_round_trips (s : scalar) : round_trips (PScalar s).
Proof.
  intros flag ref Hn.
  destruct s; simpl in Hn; try discriminate; cbn [map_value map_scalar wire].
  - repeat split.
  - repeat split.
  - split; [reflexivity|split; [reflexivity|]].
    cbn. rewrite int_of_str_of_int. reflexivity.
  - repeat split.
  - repeat split.
  - unfold bytes_decode. rewrite Hn. cbn [res_bind].
    split; [reflexivity|split; [reflexivity|]].
    cbn. rewrite list_byte_of_string_of_list_byte. reflexivity.
  - split; [reflexivity|split; [reflexivity|]].
    apply andb_true_iff in Hn as [Hla Hlo].
    cbn. unfold GeoPoint. rewrite !as_num_val.
    rewrite (settled_fixed 90), (settled_fixed 180) by assumption. reflexivity.
  - repeat split.
  - repeat split.
Qed.

Lemma wire_node_not_scalar (n : pyval) : wire_node n = true -> is_scalar_value n = false.
Proof. destruct n; simpl; [discriminate.. | reflexivity]. Qed.

Lemma wire_node_no_sub_schema (n : pyval) :
  wire_node n = true ->
  is_dict_value n ["fields"] = false
  /\ is_dict_value n ["values"] = false
  /\ is_dict_value n ["latitude"; "longitude"] = false.
Proof.
  destruct n as [| | |items]; simpl; try discriminate.
  destruct items as [|[tag p] [|]]; try discriminate.
  intros H. apply andb_true_iff in H as [H1 H2].
  apply negb_true_iff in H1, H2.
  unfold dict_has; simpl. rewrite H1, H2. auto.
Qed.

(** A wire node under a user key is decoded on its own and stored under
    that key. *)
Lemma decode_fields_node (key : string) (n v : pyval)
    (rest new_dict : list (string * pyval)) :
  wire_node n = true ->
  dict_from_firestore n = Val v ->
  decode_fields dict_from_firestore ((key, n) :: rest) new_dict
  = decode_fields dict_from_firestore rest (dict_set new_dict key v).
Proof.
  intros Hw Hd. cbn [decode_fields].
  rewrite (wire_node_not_scalar n Hw).
  destruct (wire_node_no_sub_schema n Hw) as (-> & -> & ->).
  rewrite !andb_false_r, Hd. reflexivity.
Qed.



Lemma unique_keys_head {V : Type} (k : string) (v : V) (rest : list (string * V)) (k' : string) (v' : V) :
  unique_keys ((k, v) :: rest) = true -> In (k', v') rest -> String.eqb k k' = false.
Proof.
  simpl. intros H Hin. apply andb_true_iff in H as [H _]. apply negb_true_iff in H.
  destruct (String.eqb_spec k k') as [->|]; [|reflexivity].
  exfalso. revert H. unfold dict_has. clear -Hin.
  induction rest as [|[k0 v0] rest IH]; [destruct Hin|].
  simpl. destruct Hin as [[= -> ->]|Hin].
  - rewrite String.eqb_refl. discriminate.
  - destruct (String.eqb k0 k'); [discriminate | auto].
Qed.

Lemma fresh_for_step {V : Type} (acc : list (string * V)) (k : string) (v : pyval) (x : V)
    (rest : list (string * pyval)) :
  unique_keys ((k, v) :: rest) = true ->
  fresh_for acc ((k, v) :: rest) ->
  fresh_for (acc ++ [(k, x)]) rest.
Proof.
  intros Hu Hf k' v' Hin. rewrite dict_has_app.
  rewrite (Hf k' v') by (right; exact Hin).
  unfold dict_has; simpl.
  rewrite (unique_keys_head k v rest k' v' Hu Hin). reflexivity.
Qed.



Lemma fields_round_trip (items : list (string * pyval)) :
  Forall (fun kv => round_trips (snd kv)) items ->
  unique_keys items = true ->
  forallb (fun kv => native false (snd kv)) items = true ->
  (forall acc, fresh_for acc items ->
     encode_fields (map_value dict_to_firestore false) items acc
     = Val (PDict (acc ++ wire_fields items)))
  /\ (forall acc, fresh_for acc items ->
        decode_fields dict_from_firestore (wire_fields items) acc = Val (PDict (acc ++ items))).
Proof.
  induction 1 as [|[k v] rest Hv _ IH]; intros Hu Hn.
  - split; intros; simpl; rewrite app_nil_r; reflexivity.
  - simpl in Hn. apply andb_true_iff in Hn as [Hnv Hnrest].
    assert (Hu' : unique_keys rest = true)
      by (simpl in Hu; apply andb_true_iff in Hu as [_ Hu]; exact Hu).
    destruct (IH Hu' Hnrest) as (Henc & Hdec).
    simpl in Hv.
    split; intros acc Hf.
    + cbn [encode_fields].
      destruct (Hv false ("Key " +:+ dquote +:+ k +:+ dquote +:+ " ") Hnv) as (-> & _ & _).
      cbn [res_bind].
      rewrite dict_set_fresh by (apply (Hf k v); left; reflexivity).
      rewrite Henc by (eapply fresh_for_step; eassumption).
      rewrite <- app_assoc. reflexivity.
    + destruct (Hv false "" Hnv) as (_ & Hw & Hd).
      cbn [wire_fields List.map fst snd].
      rewrite (decode_fields_node k (wire v) v) by assumption.
      rewrite dict_set_fresh by (apply (Hf k v); left; reflexivity).
      fold (wire_fields rest).
      rewrite Hdec by (eapply fresh_for_step; eassumption).
      rewrite <- app_assoc. reflexivity.
Qed.

Lemma array_round_trip (items : list pyval) :
  Forall round_trips items ->
  forallb (native true) items = true ->
  (forall i acc,
     encode_array (map_value dict_to_firestore true) items i acc
     = Val (PList (acc ++ List.map wire items)))
  /\ (forall acc,
        decode_array dict_from_firestore (List.map wire items) acc = Val (PList (acc ++ items))).
Proof.
  induction 1 as [|v rest Hv _ IH]; intros Hn.
  - split; intros; simpl; rewrite app_nil_r; reflexivity.
  - simpl in Hn. apply andb_true_iff in Hn as [Hnv Hnrest].
    destruct (IH Hnrest) as (Henc & Hdec).
    split.
    + intros i acc. cbn [encode_array].
      destruct (Hv true ("List Index [" +:+ str_of_int i +:+ "] ") Hnv) as (-> & _ & _).
      cbn [res_bind]. rewrite Henc, <- app_assoc. reflexivity.
    + intros acc. cbn [List.map decode_array].
      destruct (Hv true "" Hnv) as (_ & _ & ->).
      cbn [res_bind]. rewrite Hdec, <- app_assoc. reflexivity.
Qed.

Lemma native_round_trips (v : pyval) : round_trips v.
Proof.
  induction v as [s|items _|items IH|items IH] using pyval_nested_ind.
  - apply scalar_round_trips.
  - intros flag ref Hn. discriminate.
  - intros flag ref Hn. simpl in Hn. apply andb_true_iff in Hn as [Hflag Hn].
    apply negb_true_iff in Hflag. subst flag.
    destruct (array_round_trip items IH Hn) as (Henc & Hdec).
    cbn [map_value wire dict_to_firestore].
    rewrite (Henc 0 []). cbn [res_bind app].
    split; [reflexivity|split; [reflexivity|]].
    cbn. exact (Hdec []).
  - intros flag ref Hn. simpl in Hn. apply andb_true_iff in Hn as [Hu Hn].
    destruct (fields_round_trip items IH Hu Hn) as (Henc & Hdec).
    cbn [map_value wire dict_to_firestore].
    rewrite (Henc []) by (intros ? ? _; reflexivity). cbn [res_bind app].
    split; [reflexivity|split; [reflexivity|]].
    cbn. exact (Hdec [] ltac:(intros ? ? _; reflexivity)).
Qed.

(** C1: for a native value that is a mapping, with UTF-8 byte sequences
    and no sequence directly inside a sequence, the encoder returns a
    document and the decoder returns the value from it.  No field name is
    excluded: a field named like a wire tag round-trips as well. *)
Theorem codec_round_trip (items : list (string * pyval)) :
  native false (PDict items) = true ->
  exists w,
    dict_to_firestore (PDict items) false = Val w
    /\ dict_from_firestore w = Val (PDict items).
Proof.
  intros Hn. pose proof Hn as Hn'. simpl in Hn'.
  apply andb_true_iff in Hn' as [Hu Hv].
  assert (IH : Forall (fun kv => round_trips (snd kv)) items)
    by (apply Forall_forall; intros; apply native_round_trips).
  destruct (fields_round_trip items IH Hu Hv) as (Henc & Hdec).
  exists (PDict (wire_fields items)). split.
  - cbn [dict_to_firestore]. apply (Henc []). intros ? ? _; reflexivity.
  - cbn [dict_from_firestore]. apply (Hdec []). intros ? ? _; reflexivity.
Qed.

(** *** Nested sequences *)





Lemma encode_array_rejects (items : list pyval) :
  Forall rejects_nesting items ->
  forall i acc,
    match encode_array (map_value dict_to_firestore true) items i acc with
    | Val _ => existsb (nested_list true) items = false
    | Exn _ => True
    | Undef => False
    end.
Proof.
  induction 1 as [|v rest Hv _ IH]; intros i acc; cbn [encode_array existsb].
  - reflexivity.
  - specialize (Hv true ("List Index [" +:+ str_of_int i +:+ "] ")).
    destruct (map_value _ _ _ v) as [n| |]; cbn [res_bind]; try exact Hv.
    specialize (IH (i + 1) (acc ++ [n])).
    destruct (encode_array _ rest _ _); try exact IH.
    rewrite Hv, IH. reflexivity.
Qed.

Lemma encode_fields_rejects (items : list (string * pyval)) :
  Forall (fun kv => rejects_nesting (snd kv)) items ->
  forall acc,
    match encode_fields (map_value dict_to_firestore false) items acc with
    | Val _ => existsb (fun kv => nested_list false (snd kv)) items = false
    | Exn _ => True
    | Undef => False
    end.
Proof.
  induction 1 as [|[k v] rest Hv _ IH]; intros acc; cbn [encode_fields existsb snd].
  - reflexivity.
  - specialize (Hv false ("Key " +:+ dquote +:+ k +:+ dquote +:+ " ")). cbn [snd] in Hv.
    destruct (map_value _ _ _ v) as [n| |]; cbn [res_bind]; try exact Hv.
    specialize (IH (dict_set acc k n)).
    destruct (encode_fields _ rest _); try exact IH.
    rewrite Hv, IH. reflexivity.
Qed.

Lemma map_value_rejects_nesting (v : pyval) : rejects_nesting v.
Proof.
  induction v as [s|items _|items IH|items IH] using pyval_nested_ind;
    intros flag ref; cbn [map_value nested_list].
  - destruct s; cbn [map_scalar]; try reflexivity.
    + unfold bytes_decode. destruct (valid_utf8 b); reflexivity.
    + destruct (listed_builtin _); exact I.
  - exact I.
  - destruct flag; [exact I|]. cbn [dict_to_firestore orb].
    pose proof (encode_array_rejects items IH 0 []) as Hloop.
    destruct (encode_array _ items 0 []); cbn [res_bind]; exact Hloop.
  - cbn [dict_to_firestore].
    pose proof (encode_fields_rejects items IH []) as Hloop.
    destruct (encode_fields _ items []); cbn [res_bind]; exact Hloop.
Qed.

Lemma encode_array_fails_only (items : list pyval) :
  Forall fails_only_on_nesting items ->
  forallb supported items = true ->
  forall i acc,
    match encode_array (map_value dict_to_firestore true) items i acc with
    | Val _ => True
    | Exn e => e = AssertionError nested_list_msg
    | Undef => False
    end.
Proof.
  induction 1 as [|v rest Hv _ IH]; intros Hs i acc; cbn [encode_array].
  - exact I.
  - simpl in Hs. apply andb_true_iff in Hs as [Hsv Hsrest].
    specialize (Hv true ("List Index [" +:+ str_of_int i +:+ "] ") Hsv).
    destruct (map_value _ _ _ v) as [n| |]; cbn [res_bind]; try exact Hv.
    apply IH. exact Hsrest.
Qed.

Lemma encode_fields_fails_only (items : list (string * pyval)) :
  Forall (fun kv => fails_only_on_nesting (snd kv)) items ->
  forallb (fun kv => supported (snd kv)) items = true ->
  forall acc,
    match encode_fields (map_value dict_to_firestore false) items acc with
    | Val _ => True
    | Exn e => e = AssertionError nested_list_msg
    | Undef => False
    end.
Proof.
  induction 1 as [|[k v] rest Hv _ IH]; intros Hs acc; cbn [encode_fields].
  - exact I.
  - simpl in Hs. apply andb_true_iff in Hs as [Hsv Hsrest].
    specialize (Hv false ("Key " +:+ dquote +:+ k +:+ dquote +:+ " ") Hsv). cbn [snd] in Hv.
    destruct (map_value _ _ _ v) as [n| |]; cbn [res_bind]; try exact Hv.
    apply IH. exact Hsrest.
Qed.

Lemma map_value_fails_only_on_nesting (v : pyval) : fails_only_on_nesting v.
Proof.
  induction v as [s|items _|items IH|items IH] using pyval_nested_ind;
    intros flag ref Hs; cbn [map_value]; simpl in Hs.
  - destruct s; cbn [map_scalar]; try exact I; try discriminate.
    unfold bytes_decode. simpl in Hs. rewrite Hs. exact I.
  - discriminate.
  - destruct flag; [reflexivity|]. cbn [dict_to_firestore].
    pose proof (encode_array_fails_only items IH Hs 0 []) as Hloop.
    destruct (encode_array _ items 0 []); cbn [res_bind]; exact Hloop.
  - cbn [dict_to_firestore].
    pose proof (encode_fields_fails_only items IH Hs []) as Hloop.
    destruct (encode_fields _ items []); cbn [res_bind]; exact Hloop.
Qed.

(** C5: encoding a value that holds a sequence with a sequence among its
    elements fails.  [map], the encoder of one value, raises; for a mapping
    so does [dict_to_firestore], the encoder of its entries; on a value of
    the native types the exception is the one for nested lists.
    Equivalently, [map] applied to a sequence while [parent_is_list] is
    already true raises it. *)
Theorem nested_list_rejected (v : pyval) (ref : string) :
  nested_list false v = true ->
  (exists e, map_value dict_to_firestore false ref v = Exn e)
  /\ (supported v = true ->
      map_value dict_to_firestore false ref v = Exn (AssertionError nested_list_msg))
  /\ match v with
     | PDict _ =>
         (exists e, dict_to_firestore v false = Exn e)
         /\ (supported v = true ->
             dict_to_firestore v false = Exn (AssertionError nested_list_msg))
     | _ => True
     end
  /\ (forall elems,
        map_value dict_to_firestore true ref (PList elems)
        = Exn (AssertionError nested_list_msg)).
Proof.
  intros Hnested.
  pose proof (map_value_rejects_nesting v false ref) as H1.
  pose proof (map_value_fails_only_on_nesting v false ref) as H2.
  split; [|split; [|split]].
  - destruct (map_value _ _ _ v) as [w|e|]; [congruence | eauto | destruct H1].
  - intros Hs. specialize (H2 Hs).
    destruct (map_value _ _ _ v) as [w|e|]; [congruence | congruence | destruct H2].
  - destruct v as [s|items|items|items]; try exact I.
    cbn [map_value] in H1, H2.
    destruct (dict_to_firestore (PDict items) false) as [w|e|]; cbn [res_bind] in H1, H2.
    + congruence.
    + split; [eauto|]. intros Hs. specialize (H2 Hs). congruence.
    + destruct H1.
  - reflexivity.
Qed.

(* ===================================================================== *)
(** ** The merge engine *)
(* ===================================================================== *)

Lemma bind_ok {S A B : Type} (m : M S A) (k : A -> M S B) (s s' : S) (a : A) :
  m s = Ok a s' -> bind m k s = k a s'.
Proof. unfold bind. intros ->. reflexivity. Qed.

Lemma bind_raise {S A B : Type} (m : M S A) (k : A -> M S B) (s s' : S) (e : exn) :
  m s = Raise e s' -> bind m k s = Raise e s'.
Proof. unfold bind. intros ->. reflexivity. Qed.

Lemma bind_assoc {S A B C : Type} (m : M S A) (k1 : A -> M S B) (k2 : B -> M S C) (s : S) :
  bind (bind m k1) k2 s = bind m (fun x => bind (k1 x) k2) s.
Proof. unfold bind. destruct (m s); reflexivity. Qed.

Lemma view_of_list (σ : store) (l : loc) (items : list value) :
  σ !! l = Some (OList items) -> view_of (VRef l) σ = Ok (IsList l items) σ.
Proof. intros Hl. unfold view_of, bind, load. rewrite Hl. reflexivity. Qed.

Lemma view_of_dict (σ : store) (l : loc) (items : list (string * value)) :
  σ !! l = Some (ODict items) -> view_of (VRef l) σ = Ok (IsDict l items) σ.
Proof. intros Hl. unfold view_of, bind, load. rewrite Hl. reflexivity. Qed.

Lemma load_list_ok (σ : store) (l : loc) (items : list value) :
  σ !! l = Some (OList items) -> load_list l σ = Ok items σ.
Proof. intros Hl. unfold load_list, bind, load. rewrite Hl. reflexivity. Qed.

Lemma load_dict_ok (σ : store) (l : loc) (items : list (string * value)) :
  σ !! l = Some (ODict items) -> load_dict l σ = Ok items σ.
Proof. intros Hl. unfold load_dict, bind, load. rewrite Hl. reflexivity. Qed.

(** C10: when the delete-spec of a list holds an entry that is no tuple,
    [dict_pop] removes nothing: it returns a new empty list, and every
    object of the store, the existing list among them, is as before. *)
Theorem dict_pop_malformed_spec_removes_nothing
    (fuel : nat) (σ : store) (le lr : loc) (eitems ritems : list value) (ele : value) :
  σ !! le = Some (OList eitems) ->
  σ !! lr = Some (OList ritems) ->
  In ele ritems ->
  is_tuple ele = false ->
  dict_pop (S fuel) (VRef le) (VRef lr) σ = Ok (VRef (length σ)) (σ ++ [OList []])
  /\ (σ ++ [OList []]) !! le = Some (OList eitems)
  /\ (forall l o, σ !! l = Some o -> (σ ++ [OList []]) !! l = Some o).
Proof.
  intros He Hr Hin Hele.
  assert (Hall : forallb is_tuple ritems = false).
  { apply not_true_is_false. intros Hall.
    rewrite forallb_forall in Hall. specialize (Hall ele Hin). congruence. }
  assert (Hkeep : forall l o, σ !! l = Some o -> (σ ++ [OList []]) !! l = Some o).
  { intros l o Hl. apply lookup_app_l_Some. exact Hl. }
  split; [|split; [apply Hkeep; exact He | exact Hkeep]].
  cbn [dict_pop].
  rewrite (bind_ok _ _ σ σ _ (view_of_list σ lr ritems Hr)).
  rewrite (bind_ok _ _ σ σ _ (view_of_list σ le eitems He)).
  rewrite Hall. reflexivity.
Qed.



Lemma nonempty_container_value (σ : store) (v : value) :
  nonempty_container v σ
  = match v with
    | VRef l =>
        match σ !! l with
        | Some o => Ok (object_nonempty o) σ
        | None => Stuck
        end
    | _ => Ok false σ
    end.
Proof.
  destruct v as [s|vs|l]; cbv beta iota delta [nonempty_container bind truthy view_of load ret].
  - destruct (scalar_truthy s); reflexivity.
  - destruct vs; reflexivity.
  - destruct (σ !! l) as [[[|]|[|]]|] eqn:E; try reflexivity; rewrite E; reflexivity.
Qed.

(** A leaf of a delete-spec stays one when a non-empty list elsewhere in the
    store is rewritten. *)
Lemma leaf_after_put (σ : store) (v : value) (l : loc) (items : list value) (o : object) :
  nonempty_container v σ = Ok false σ ->
  σ !! l = Some (OList items) ->
  items <> [] ->
  nonempty_container v (<[l := o]> σ) = Ok false (<[l := o]> σ).
Proof.
  rewrite !nonempty_container_value. intros Hleaf Hl Hne.
  destruct v as [s|vs|l0]; try reflexivity.
  destruct (decide (l0 = l)) as [->|Hneq].
  - rewrite Hl in Hleaf. destruct items; [congruence | discriminate].
  - rewrite list_lookup_insert_ne by congruence.
    destruct (σ !! l0); [|discriminate].
    inversion Hleaf as [Hb]. reflexivity.
Qed.

Lemma put_list_pop (σ : store) (l : loc) (items : list value) (i : Z) (n : nat) :
  σ !! l = Some (OList items) ->
  list_position (length items) (VScalar (SInt i)) = Val n ->
  list_pop l (VScalar (SInt i)) σ = Ok tt (<[l := OList (base.delete n items)]> σ).
Proof.
  intros Hl Hpos. unfold list_pop.
  rewrite (bind_ok _ _ σ σ _ (load_list_ok σ l items Hl)).
  rewrite Hpos. reflexivity.
Qed.

(** One pass of the loop over the sorted delete-spec, for a leaf entry
    whose index is within the list. *)
Lemma pop_leaf_entry (rec : value -> value -> H value) (σ : store) (le : loc)
    (items : list value) (i : Z) (n : nat) (v : value) :
  σ !! le = Some (OList items) ->
  nonempty_container v σ = Ok false σ ->
  (i <? Z.of_nat (length items))%Z = true ->
  list_position (length items) (VScalar (SInt i)) = Val n ->
  pop_entry rec le (VTuple [VScalar (SInt i); v]) σ
  = Ok tt (<[le := OList (base.delete n items)]> σ).
Proof.
  intros Hl Hleaf Hlt Hpos. unfold pop_entry.
  cbn [tuple_item lookup list_lookup of_res].
  rewrite (bind_ok _ _ σ σ (VScalar (SInt i)) eq_refl).
  rewrite (bind_ok _ _ σ σ v eq_refl).
  rewrite (bind_ok _ _ σ σ false Hleaf).
  rewrite (bind_ok _ _ σ σ _ (load_list_ok σ le items Hl)).
  assert (Hbelow : py_lt_int (VScalar (SInt i)) (Z.of_nat (length items)) = Val true).
  { cbv [py_lt_int value_num res_bind num_lt num_cmp].
    rewrite Z.ltb_lt in Hlt. apply Z.compare_lt_iff in Hlt. rewrite Hlt. reflexivity. }
  rewrite Hbelow. cbn [of_res].
  rewrite (bind_ok _ _ σ σ true eq_refl).
  apply put_list_pop; assumption.
Qed.

(** C6: the delete-spec with the pairs for the indices 0 and 2, in either
    order and with leaf values, turns the list [a, b, c, d] into [b, d]:
    the removals run from the highest index down. *)
Theorem dict_pop_positions_any_order
    (fuel : nat) (σ : store) (le lr : loc) (a b c d v0 v2 : value) (removes : list value) :
  σ !! le = Some (OList [a; b; c; d]) ->
  σ !! lr = Some (OList removes) ->
  Permutation removes [VTuple [VScalar (SInt 0); v0]; VTuple [VScalar (SInt 2); v2]] ->
  nonempty_container v0 σ = Ok false σ ->
  nonempty_container v2 σ = Ok false σ ->
  dict_pop (S fuel) (VRef le) (VRef lr) σ = Ok (VRef le) (<[le := OList [b; d]]> σ).
Proof.
  intros He Hr Hperm Hv0 Hv2.
  assert (Hsorted : forallb is_tuple removes = true
                    /\ sorted_descending removes
                       = Val [VTuple [VScalar (SInt 2); v2]; VTuple [VScalar (SInt 0); v0]]).
  { apply Permutation_sym, Permutation_length_2_inv in Hperm.
    destruct Hperm as [-> | ->]; split; reflexivity. }
  destruct Hsorted as [Htuples Hsorted].
  cbn [dict_pop].
  rewrite (bind_ok _ _ σ σ _ (view_of_list σ lr removes Hr)).
  rewrite (bind_ok _ _ σ σ _ (view_of_list σ le _ He)).
  rewrite Htuples, Hsorted. cbn [of_res].
  rewrite (bind_ok _ _ σ σ _ eq_refl).
  set (σ1 := <[le := OList [a; b; d]]> σ).
  assert (Hlen : (le < length σ)%nat) by (eapply lookup_lt_Some; exact He).
  assert (He1 : σ1 !! le = Some (OList [a; b; d]))
    by (apply list_lookup_insert_eq; exact Hlen).
  assert (Hv0' : nonempty_container v0 σ1 = Ok false σ1)
    by (eapply leaf_after_put; [exact Hv0 | exact He | discriminate]).
  cbn [for_own]. rewrite !bind_assoc.
  rewrite (bind_ok _ _ σ σ1 tt
             (pop_leaf_entry _ σ le [a; b; c; d] 2 2%nat v2 He Hv2 eq_refl eq_refl)).
  rewrite !bind_assoc.
  rewrite (bind_ok _ _ σ1 (<[le := OList [b; d]]> σ1) tt
             (pop_leaf_entry _ σ1 le [a; b; d] 0 0%nat v0 He1 Hv0' eq_refl eq_refl)).
  unfold σ1. rewrite list_insert_insert_eq. reflexivity.
Qed.

(** *** The flag of dict_replace *)

Lemma replace_entry_keeps_true (le : loc) (ele : value) (σ σ' : store) (b : bool) :
  replace_entry le ele true σ = Ok b σ' -> b = true.
Proof.
  unfold replace_entry. destruct (is_tuple ele); [|unfold ret; congruence].
  unfold bind.
  destruct (of_res (tuple_item ele 0) σ) as [index σ1| |]; try discriminate.
  destruct (of_res (tuple_item ele 1) σ1) as [v σ2| |]; try discriminate.
  destruct (load_list le σ2) as [eitems σ3| |]; try discriminate.
  destruct (of_res (py_lt_int index _) σ3) as [[] σ4| |]; try discriminate.
  - destruct (list_setitem le index v σ4); unfold ret; congruence.
  - destruct (of_res (py_eq_int index _) σ4) as [[] σ5| |]; try discriminate.
    + destruct (list_append le v σ5); unfold ret; congruence.
    + unfold ret; congruence.
Qed.

Lemma replace_entry_tuple (le : loc) (ele : value) (t : bool) (σ σ' : store) (b : bool) :
  is_tuple ele = true -> replace_entry le ele t σ = Ok b σ' -> b = true.
Proof.
  intros Ht. unfold replace_entry. rewrite Ht.
  pose proof (replace_entry_keeps_true le ele σ σ' b) as H.
  unfold replace_entry in H. rewrite Ht in H. exact H.
Qed.

Lemma for_each_keeps_true (fuel : nat) (lr le : loc) (i : nat) (σ σ' : store) (b : bool) :
  for_each fuel lr i true (replace_entry le) σ = Ok b σ' -> b = true.
Proof.
  revert i σ. induction fuel as [|fuel IH]; intros i σ; cbn [for_each]; [discriminate|].
  unfold bind at 1. destruct (load_list lr σ) as [items σ1| |]; try discriminate.
  destruct (items !! i) as [ele|]; [|unfold ret; congruence].
  unfold bind at 1.
  destruct (replace_entry le ele true σ1) as [t σ2| |] eqn:E; try discriminate.
  apply replace_entry_keeps_true in E. subst t. apply IH.
Qed.

Lemma for_each_flag (fuel : nat) (lr le : loc) (ritems : list value) (i : nat)
    (σ σ' : store) (b : bool) :
  σ !! lr = Some (OList ritems) ->
  for_each fuel lr i false (replace_entry le) σ = Ok b σ' ->
  b = existsb is_tuple (drop i ritems).
Proof.
  revert i σ. induction fuel as [|fuel IH]; intros i σ Hr; cbn [for_each]; [discriminate|].
  rewrite (bind_ok _ _ σ σ _ (load_list_ok σ lr ritems Hr)).
  destruct (ritems !! i) as [ele|] eqn:Ei.
  - rewrite (drop_S _ _ _ Ei). cbn [existsb].
    destruct (is_tuple ele) eqn:Ht.
    + unfold bind at 1.
      destruct (replace_entry le ele false σ) as [t σ2| |] eqn:E; try discriminate.
      apply replace_entry_tuple in E; [|exact Ht]. subst t.
      intros H. apply for_each_keeps_true in H. subst b. reflexivity.
    + unfold replace_entry at 1. rewrite Ht.
      rewrite (bind_ok _ _ σ σ false eq_refl).
      apply IH. exact Hr.
  - rewrite drop_ge by (apply lookup_ge_None; exact Ei).
    unfold ret. intros [= <- _]. reflexivity.
Qed.

(** C8, as the code has it: whenever [dict_replace] returns, its flag is
    [replace_flag]: false for an existing mapping and a replace mapping,
    whatever edits were made below them, and true exactly when both
    arguments are sequences and the replace sequence holds a tuple. *)
Theorem dict_replace_flag
    (fuel : nat) (σ σ' : store) (existing replace : value) (b : bool) :
  dict_replace fuel existing replace σ = Ok b σ' ->
  b = replace_flag σ existing replace.
Proof.
  destruct fuel as [|fuel]; [discriminate|]. cbn [dict_replace].
  unfold bind at 1.
  destruct replace as [s|vs|lr]; cbn [view_of replace_flag].
  - unfold ret at 1. unfold bind at 1.
    destruct (view_of existing σ) as [[]| |]; unfold ret; congruence.
  - unfold ret at 1. unfold bind at 1.
    destruct (view_of existing σ) as [[]| |]; unfold ret; congruence.
  - unfold bind at 1, load.
    destruct (σ !! lr) as [[ritems|ritems]|] eqn:Er; try discriminate.
    + unfold ret at 1.
      destruct existing as [s|vs|le]; cbn [view_of].
      * unfold bind, ret. congruence.
      * unfold bind, ret. congruence.
      * unfold bind at 1. unfold bind at 1, load.
        destruct (σ !! le) as [[eitems|eitems]|] eqn:Ee; try discriminate.
        -- unfold ret at 1. intros H.
           rewrite (for_each_flag _ _ _ ritems 0 σ σ' b Er H). reflexivity.
        -- unfold ret. congruence.
    + unfold ret at 1.
      destruct existing as [s|vs|le]; cbn [view_of].
      * unfold bind, ret. congruence.
      * unfold bind, ret. congruence.
      * unfold bind at 1. unfold bind at 1, load.
        destruct (σ !! le) as [[eitems|eitems]|] eqn:Ee; try discriminate.
        -- unfold ret. congruence.
        -- unfold ret at 1. unfold bind at 1.
           destruct (for_items _ _ _ _ σ); unfold ret; congruence.
Qed.

(* ===================================================================== *)
(** ** The update protocol *)
(* ===================================================================== *)

Lemma sleeps_of_app (a b : list event) : sleeps_of (a ++ b) = sleeps_of a ++ sleeps_of b.
Proof. unfold sleeps_of. apply flat_map_app. Qed.

Lemma quiet_here (t : list event) :
  exists evs, t = t ++ evs /\ sleeps_of evs = [].
Proof. exists []. rewrite app_nil_r. auto. Qed.

Lemma quiet_ret {A : Type} (a : A) : quiet (ret a).
Proof. intros w. apply quiet_here. Qed.

Lemma quiet_raise {A : Type} (e : exn) : quiet (@raise world A e).
Proof. intros w. apply quiet_here. Qed.

Lemma quiet_stuck {A : Type} : quiet (@stuck world A).
Proof. intros w. exact I. Qed.

Lemma quiet_of_res {A : Type} (r : res A) : quiet (of_res r).
Proof. destruct r; [apply quiet_ret | apply quiet_raise | apply quiet_stuck]. Qed.

Lemma quiet_lift {A : Type} (m : H A) : quiet (lift m).
Proof.
  intros w. unfold lift. destruct (m (heap w)); try exact I; apply quiet_here.
Qed.

Lemma quiet_bind {A B : Type} (m : W A) (k : A -> W B) :
  quiet m -> (forall a, quiet (k a)) -> quiet (bind m k).
Proof.
  intros Hm Hk w. unfold bind. specialize (Hm w).
  destruct (m w) as [a w1|e w1|]; try exact Hm.
  specialize (Hk a w1). destruct Hm as (evs & Ht & Hs).
  destruct (k a w1) as [b w2|e w2|]; try exact I;
    destruct Hk as (evs' & Ht' & Hs'); exists (evs ++ evs');
    rewrite Ht', Ht, sleeps_of_app, Hs, Hs', app_assoc; auto.
Qed.

Lemma quiet_try {A : Type} (m : W A) (handler : exn -> W A) :
  quiet m -> (forall e, quiet (handler e)) -> quiet (try_except m handler).
Proof.
  intros Hm Hh w. unfold try_except. specialize (Hm w).
  destruct (m w) as [a w1|e w1|]; try exact Hm.
  specialize (Hh e w1). destruct Hm as (evs & Ht & Hs).
  destruct (handler e w1) as [b w2|e' w2|]; try exact I;
    destruct Hh as (evs' & Ht' & Hs'); exists (evs ++ evs');
    rewrite Ht', Ht, sleeps_of_app, Hs, Hs', app_assoc; auto.
Qed.

Lemma quiet_request (net : nat -> reply) (ev : event) :
  is_request ev = true -> quiet (request net ev).
Proof.
  intros Hev w. unfold request.
  assert (Hs : sleeps_of [ev] = []) by (destruct ev; [discriminate | reflexivity..]).
  destruct (net _); cbn [trace]; exists [ev]; auto.
Qed.

Lemma quiet_build_headers (fs : Firestore) : quiet (build_headers fs).
Proof. unfold build_headers. destruct (String.eqb _ _); [apply quiet_raise | apply quiet_ret]. Qed.

Ltac quiet_step :=
  first
    [ apply quiet_ret | apply quiet_raise | apply quiet_stuck | apply quiet_of_res
    | apply quiet_lift | apply quiet_build_headers
    | apply quiet_request; reflexivity
    | apply quiet_try; [|intros ?]
    | apply quiet_bind; [|intros ?] ].

Lemma quiet_read (fs : Firestore) (net : nat -> reply) (collection document : string) :
  quiet (read fs net collection document).
Proof. unfold read. repeat quiet_step. Qed.

Lemma quiet_commit (fs : Firestore) (net : nat -> reply) (collection document : string)
    (existing : value) (snap update_time : pyval) :
  quiet (commit fs net collection document existing snap update_time).
Proof.
  unfold commit. repeat quiet_step.
  match goal with |- quiet (if ?b then _ else _) => destruct b end; repeat quiet_step.
Qed.

Lemma quiet_attempt_body (fs : Firestore) (net : nat -> reply) (fuel : nat)
    (collection document : string) (replace delete : value)
    (callback : option (value -> H unit)) :
  quiet (attempt_body fs net fuel collection document replace delete callback).
Proof.
  unfold attempt_body. apply quiet_bind; [apply quiet_read|].
  intros [[success existing] update_time].
  destruct success; [|apply quiet_ret].
  destruct existing; try apply quiet_stuck.
  repeat quiet_step.
  match goal with |- quiet (if ?b then _ else _) => destruct b end;
    [apply quiet_ret | apply quiet_commit].
Qed.

Lemma try_except_returns {A : Type} (m : W A) (f : exn -> A) :
  never_raises (try_except m (fun e => ret (f e))).
Proof.
  intros w e w'. unfold try_except, ret. destruct (m w); discriminate.
Qed.

(** *** The backoff schedule *)

Lemma backoff_step (a : nat) :
  (if (Z.of_nat a + 1 =? 5)%Z then NInt 1
   else if (Z.of_nat a + 1 >? 5)%Z then num_mul (backoff_after a) (NFloat float_1_5)
   else backoff_after a)
  = backoff_after (S a).
Proof.
  cbn [backoff_after].
  destruct (Z.eqb_spec (Z.of_nat a + 1) 5) as [E|E];
    destruct (Nat.eqb_spec (S a) 5) as [E'|E']; try lia; try reflexivity.
  rewrite Z.gtb_ltb.
  destruct (Z.ltb_spec 5 (Z.of_nat a + 1)) as [L|L];
    destruct (Nat.ltb_spec 5 (S a)) as [L'|L']; try lia; reflexivity.
Qed.

Lemma backoff_reaches_60 (a : nat) :
  (a <= 16)%nat -> num_ge (backoff_after a) (NInt 60) = (16 <=? a)%nat.
Proof.
  intros Ha.
  assert (Hall : forallb (fun a => Bool.eqb (num_ge (backoff_after a) (NInt 60)) (16 <=? a)%nat)
                   (seq 0 17) = true) by (vm_compute; reflexivity).
  rewrite forallb_forall in Hall.
  apply Bool.eqb_prop, Hall, in_seq. lia.
Qed.

Lemma seq_more (a n : nat) : seq a (S n) = a :: seq (S a) n.
Proof. reflexivity. Qed.

Lemma update_loop_follows_schedule (fs : Firestore) (net : nat -> reply) (fuel : nat)
    (collection document : string) (replace delete : value)
    (callback : option (value -> H unit)) (n a : nat) (w : world) :
  (a <= 15)%nat ->
  follows_schedule collection document a w
    (update_loop fs net fuel n collection document replace delete callback
       (backoff_after a) (Z.of_nat a) w).
Proof.
  revert a w. induction n as [|n IH]; intros a w Ha; cbn [update_loop]; [exact I|].
  unfold bind at 1, sleep at 1. cbv zeta.
  rewrite backoff_step, backoff_reaches_60 by lia.
  set (w1 := World (heap w) (trace w ++ [ESleep (backoff_after a)])).
  assert (Hsleep : sleep_before (S a) = backoff_after a)
    by (unfold sleep_before; f_equal; lia).
  destruct (Nat.leb_spec 16 (S a)) as [Hlast|Hmore].
  - assert (a = 15%nat) as -> by lia.
    exists 16%nat. split; [lia|]. split.
    + cbn [trace w1]. rewrite sleeps_of_app. reflexivity.
    + intros _. split; [reflexivity|]. exists []. reflexivity.
  - pose proof (quiet_attempt_body fs net fuel collection document replace delete callback w1)
      as Hq.
    unfold bind.
    destruct (attempt_body _ _ _ _ _ _ _ _ w1) as [[|res] w2|e w2|]; try exact I.
    + destruct Hq as (evs & Ht & Hs).
      replace (Z.of_nat a + 1)%Z with (Z.of_nat (S a)) by lia.
      specialize (IH (S a) w2 ltac:(lia)).
      destruct (update_loop _ _ _ n _ _ _ _ _ _ _ w2) as [res w3|e w3|]; try exact I.
      * destruct IH as (k & Hk & Hsl & Hend). exists k. split; [lia|]. split.
        -- rewrite Hsl, Ht. cbn [trace w1]. rewrite !sleeps_of_app, Hs, app_nil_r.
           replace (k - a)%nat with (S (k - S a)) by lia.
           rewrite seq_more. cbn [List.map]. rewrite Hsleep, <- app_assoc. reflexivity.
        -- intros Hk16. destruct (Hend Hk16) as (Hres & evs' & Ht').
           split; [exact Hres|]. exists ([ESleep (backoff_after a)] ++ evs ++ evs').
           rewrite Ht', Ht. cbn [trace w1]. rewrite <- !app_assoc. reflexivity.
      * destruct IH as (k & Hk & Hsl). exists k. split; [lia|].
        rewrite Hsl, Ht. cbn [trace w1]. rewrite !sleeps_of_app, Hs, app_nil_r.
        replace (k - a)%nat with (S (k - S a)) by lia.
        rewrite seq_more. cbn [List.map]. rewrite Hsleep, <- app_assoc. reflexivity.
    + destruct Hq as (evs & Ht & Hs). exists (S a). split; [lia|]. split.
      * rewrite Ht. cbn [trace w1]. rewrite !sleeps_of_app, Hs, app_nil_r.
        replace (S a - a)%nat with 1%nat by lia. cbn [seq List.map]. rewrite Hsleep.
        reflexivity.
      * intros ?. lia.
    + destruct Hq as (evs & Ht & Hs). exists (S a). split; [lia|].
      rewrite Ht. cbn [trace w1]. rewrite !sleeps_of_app, Hs, app_nil_r.
      replace (S a - a)%nat with 1%nat by lia. cbn [seq List.map]. rewrite Hsleep.
      reflexivity.
Qed.

(** C2, as the code has it: every run of [update] follows the schedule
    whose sleeps are 0 seconds before the passes 1 to 5, 1 second before
    pass 6, 1.5 seconds before pass 7 and 1.5 times the previous sleep
    from then on.  The backoff computed in a pass reaches 60 in pass 16,
    which ends the call with the timed-out error right after its sleep,
    with no further request. *)
Theorem update_backoff_schedule (fs : Firestore) (net : nat -> reply) (fuel : nat)
    (collection document : string) (replace delete : value)
    (callback : option (value -> H unit)) (w : world) :
  follows_schedule (or_local_id fs collection) (or_local_id fs document) 0 w
    (update fs net fuel collection document replace delete callback w)
  /\ List.map sleep_before (seq 1 7)
     = [NInt 0; NInt 0; NInt 0; NInt 0; NInt 0; NInt 1; NFloat float_1_5]
  /\ (forall n, sleep_before (8 + n) = num_mul (sleep_before (7 + n)) (NFloat float_1_5))
  /\ List.map (fun a => num_ge (backoff_after a) (NInt 60)) (seq 0 17)
     = repeat false 16 ++ [true].
Proof.
  split; [|split; [|split]].
  - unfold update. apply (update_loop_follows_schedule fs net fuel _ _ _ _ _ fuel 0%nat w). lia.
  - reflexivity.
  - intros n. unfold sleep_before.
    replace (8 + n - 1)%nat with (S (6 + n)) by lia.
    replace (7 + n - 1)%nat with (6 + n)%nat by lia.
    cbn [backoff_after].
    destruct (Nat.eqb_spec (S (6 + n)) 5); [lia|].
    destruct (Nat.ltb_spec 5 (S (6 + n))); [reflexivity | lia].
  - vm_compute. reflexivity.
Qed.

(** *** Single passes *)

Lemma or_local_id_twice (fs : Firestore) (name : string) :
  or_local_id fs (or_local_id fs name) = or_local_id fs name.
Proof.
  unfold or_local_id. destruct (String.eqb name "") eqn:E; [|rewrite E; reflexivity].
  destruct (String.eqb (local_id fs) ""); reflexivity.
Qed.

Lemma requests_of_app (a b : list event) :
  requests_of (a ++ b) = requests_of a ++ requests_of b.
Proof. unfold requests_of. apply List.filter_app. Qed.

Lemma read_returns (fs : Firestore) (net : nat -> reply) (collection document : string)
    (σ σ1 : store) (t : list event) (r : response) (body : pyval) (res : result) :
  String.eqb (id_token fs) "" = false ->
  net (length (requests_of t)) = Reply r ->
  json r = Val body ->
  parse_result body σ = Ok res σ1 ->
  read fs net collection document (World σ t)
  = Ok res (World σ1 (t ++ [EGet (document_url fs (or_local_id fs collection)
                                              (or_local_id fs document))])).
Proof.
  intros Htok Hnet Hjson Hparse.
  unfold read, try_except, bind, build_headers, request, lift, document_url.
  rewrite Htok. cbn [ret heap trace]. rewrite Hnet, Hjson. cbn [of_res ret heap trace].
  rewrite Hparse. reflexivity.
Qed.

Lemma commit_runs (fs : Firestore) (net : nat -> reply) (collection document : string)
    (existing : value) (snap update_time fields : pyval) (σ : store) (t : list event)
    (r : response) (answer : pyval) (again : bool) :
  String.eqb (id_token fs) "" = false ->
  dict_to_firestore snap false = Val fields ->
  net (length (requests_of t)) = Reply r ->
  json r = Val answer ->
  failed_precondition (status_code r) answer = Val again ->
  commit fs net collection document existing snap update_time (World σ t)
  = let w' := World σ (t ++ [EPost (commit_url fs)
                               (commit_document fs collection document fields update_time)]) in
    if again then Ok Continue w'
    else match parse_result_update answer existing with
         | Val res => Ok (Return res) w'
         | Exn e => Ok (Return (false, ErrorOf e, PStr "")) w'
         | Undef => Stuck
         end.
Proof.
  intros Htok Henc Hnet Hjson Hagain.
  unfold commit, try_except, bind, build_headers, request.
  rewrite Henc, Htok. cbn [of_res ret heap trace]. rewrite Hnet, Hjson.
  cbn [of_res ret]. rewrite Hagain. cbn [of_res ret].
  destruct again; [reflexivity|].
  destruct (parse_result_update answer existing); reflexivity.
Qed.

(** A pass whose read succeeds and whose merge returns: the size check,
    then the commit. *)
Lemma attempt_body_merged (fs : Firestore) (net : nat -> reply) (fuel : nat)
    (collection document : string) (replace delete : value)
    (callback : option (value -> H unit))
    (σ σa σ1 : store) (t : list event) (r : response) (body : pyval)
    (existing : value) (update_time snap : pyval) :
  String.eqb (id_token fs) "" = false ->
  net (length (requests_of t)) = Reply r ->
  json r = Val body ->
  parse_result body σ = Ok (true, Doc existing, update_time) σa ->
  merge fuel existing replace delete callback σa = Ok tt σ1 ->
  snapshot fuel σ1 existing = Some snap ->
  attempt_body fs net fuel collection document replace delete callback (World σ t)
  = let w1 := World σ1 (t ++ [EGet (document_url fs (or_local_id fs collection)
                                                 (or_local_id fs document))]) in
    if (dict_size snap >? size_limit)%Z then Ok (Return (size_error (dict_size snap))) w1
    else commit fs net collection document existing snap update_time w1.
Proof.
  intros Htok Hnet Hjson Hparse Hmerge Hsnap.
  unfold attempt_body.
  rewrite (bind_ok _ _ _ _ _ (read_returns fs net collection document σ σa t r body _
                                Htok Hnet Hjson Hparse)).
  unfold bind, lift, read_tree. cbn [heap trace].
  rewrite Hmerge. cbn [heap trace]. rewrite Hsnap.
  destruct (dict_size snap >? size_limit)%Z; reflexivity.
Qed.

Lemma update_loop_early (fs : Firestore) (net : nat -> reply) (fuel n : nat)
    (collection document : string) (replace delete : value)
    (callback : option (value -> H unit)) (attempt : Z) (w : world) :
  (0 <= attempt < 4)%Z ->
  update_loop fs net fuel (S n) collection document replace delete callback (NInt 0) attempt w
  = match attempt_body fs net fuel collection document replace delete callback
            (World (heap w) (trace w ++ [ESleep (NInt 0)])) with
    | Ok Continue w2 =>
        update_loop fs net fuel n collection document replace delete callback
          (NInt 0) (attempt + 1) w2
    | Ok (Return res) w2 => Ok res w2
    | Raise e w2 => Raise e w2
    | Stuck => Stuck
    end.
Proof.
  intros Ha. cbn [update_loop]. unfold bind, sleep. cbv zeta.
  destruct (Z.eqb_spec (attempt + 1) 5) as [E|_]; [lia|].
  rewrite Z.gtb_ltb. destruct (Z.ltb_spec 5 (attempt + 1)) as [L|_]; [lia|].
  change (num_ge (NInt 0) (NInt 60)) with false. cbv beta iota.
  destruct (attempt_body _ _ _ _ _ _ _ _ _) as [[|res] w2|e w2|]; reflexivity.
Qed.

(** C4: a document with 19,991 scalar leaves or more is refused, by
    [create] and by [update], each on its own.  [create], for every such
    document, returns the size error and leaves the world as it was: no
    request.  [update], whatever is stored and whatever the overlays are,
    when the document its merge leaves has that many leaves, returns the
    size error after the read alone: no commit, no second pass. *)
Theorem size_limit_enforced :
  (forall (fs : Firestore) (net : nat -> reply) (fuel : nat)
          (collection document : string) (data : value)
          (σ : store) (t : list event) (snap : pyval),
      snapshot (S fuel) σ data = Some snap ->
      (19991 <= dict_size snap)%Z ->
      create fs net (S fuel) collection document data (World σ t)
      = Ok (size_error (dict_size snap)) (World σ t))
  /\ (forall (fs : Firestore) (net : nat -> reply) (fuel : nat)
             (collection document : string) (replace delete : value)
             (callback : option (value -> H unit))
             (σ σa σ1 : store) (t : list event) (r : response) (body : pyval)
             (existing : value) (update_time merged : pyval),
         String.eqb (id_token fs) "" = false ->
         net (length (requests_of t)) = Reply r ->
         json r = Val body ->
         parse_result body σ = Ok (true, Doc existing, update_time) σa ->
         merge (S fuel) existing replace delete callback σa = Ok tt σ1 ->
         snapshot (S fuel) σ1 existing = Some merged ->
         (19991 <= dict_size merged)%Z ->
         update fs net (S fuel) collection document replace delete callback (World σ t)
         = Ok (size_error (dict_size merged))
              (World σ1 (t ++ [ESleep (NInt 0);
                               EGet (document_url fs (or_local_id fs collection)
                                                  (or_local_id fs document))]))).
Proof.
  assert (Hover : forall snap, (19991 <= dict_size snap)%Z ->
                               (dict_size snap >? size_limit)%Z = true)
    by (intros snap Hsize; unfold size_limit; apply Z.gtb_lt; lia).
  split.
  - intros fs net fuel collection document data σ t snap Hdata Hsize.
    unfold create, bind, lift, read_tree. cbn [heap trace].
    rewrite Hdata, (Hover snap Hsize). reflexivity.
  - intros fs net fuel collection document replace delete callback σ σa σ1 t r body
      existing update_time merged Htok Hnet Hjson Hparse Hmerge Hsnap Hsize.
    unfold update. rewrite update_loop_early by lia. cbn [heap trace].
    assert (Hnet' : net (length (requests_of (t ++ [ESleep (NInt 0)]))) = Reply r)
      by (rewrite requests_of_app; cbn; rewrite app_nil_r; exact Hnet).
    rewrite (attempt_body_merged fs net (S fuel) _ _ replace delete callback σ σa σ1
               (t ++ [ESleep (NInt 0)]) r body existing update_time merged
               Htok Hnet' Hjson Hparse Hmerge Hsnap).
    cbv zeta. rewrite (Hover merged Hsize), !or_local_id_twice, <- app_assoc. reflexivity.
Qed.

(** Two passes: when the first commit is answered with FAILED_PRECONDITION
    and the second is accepted, [update] returns success with the object
    built from the second read, as the merge of the second pass leaves it,
    in the store the first pass left. *)
Lemma update_two_passes (fs : Firestore) (net : nat -> reply) (fuel : nat)
    (collection document : string) (replace delete : value)
    (callback : option (value -> H unit)) (σ : store) (t : list event)
    (r1 : response) (body1 : pyval) (existing1 : value) (time1 snap1 fields1 : pyval)
    (σa σ1 : store) (c1 : response) (answer1 : pyval)
    (r2 : response) (body2 : pyval) (existing2 : value) (time2 snap2 fields2 : pyval)
    (σb σ2 : store) (c2 : response) (answer2 time3 : pyval) :
  let n0 := length (requests_of t) in
  let budget := S (S fuel) in
  let url := document_url fs (or_local_id fs collection) (or_local_id fs document) in
  let commit_of fields time :=
    EPost (commit_url fs)
      (commit_document fs (or_local_id fs collection) (or_local_id fs document) fields time) in
  String.eqb (id_token fs) "" = false ->
  (* the first pass: read, merge, commit refused *)
  net n0 = Reply r1 -> json r1 = Val body1 ->
  parse_result body1 σ = Ok (true, Doc existing1, time1) σa ->
  merge budget existing1 replace delete callback σa = Ok tt σ1 ->
  snapshot budget σ1 existing1 = Some snap1 ->
  (dict_size snap1 <= size_limit)%Z ->
  dict_to_firestore snap1 false = Val fields1 ->
  net (n0 + 1)%nat = Reply c1 -> json c1 = Val answer1 ->
  failed_precondition (status_code c1) answer1 = Val true ->
  (* the second pass: read again, merge, commit accepted *)
  net (n0 + 2)%nat = Reply r2 -> json r2 = Val body2 ->
  parse_result body2 σ1 = Ok (true, Doc existing2, time2) σb ->
  merge budget existing2 replace delete callback σb = Ok tt σ2 ->
  snapshot budget σ2 existing2 = Some snap2 ->
  (dict_size snap2 <= size_limit)%Z ->
  dict_to_firestore snap2 false = Val fields2 ->
  net (n0 + 3)%nat = Reply c2 -> json c2 = Val answer2 ->
  failed_precondition (status_code c2) answer2 = Val false ->
  parse_result_update answer2 existing2 = Val (true, Doc existing2, time3) ->
  update fs net budget collection document replace delete callback (World σ t)
  = Ok (true, Doc existing2, time3)
       (World σ2 (t ++ [ESleep (NInt 0); EGet url; commit_of fields1 time1;
                        ESleep (NInt 0); EGet url; commit_of fields2 time2])).
Proof.
  intros n0 budget url commit_of Htok
    Hr1 Hj1 Hp1 Hm1 Hs1 Hz1 He1 Hc1 Hjc1 Hf1
    Hr2 Hj2 Hp2 Hm2 Hs2 Hz2 He2 Hc2 Hjc2 Hf2 Hok.
  assert (Hfit : forall snap, (dict_size snap <= size_limit)%Z ->
                              (dict_size snap >? size_limit)%Z = false)
    by (intros snap Hle; rewrite Z.gtb_ltb; apply Z.ltb_ge; exact Hle).
  assert (Hcount : forall evs, requests_of (t ++ evs) = requests_of t ++ requests_of evs)
    by (intros; apply requests_of_app).
  unfold update, budget.
  (* first pass *)
  rewrite update_loop_early by lia. cbn [heap trace].
  set (t1 := t ++ [ESleep (NInt 0)]).
  assert (Hn1 : net (length (requests_of t1)) = Reply r1)
    by (unfold t1; rewrite Hcount; cbn; rewrite app_nil_r; exact Hr1).
  rewrite (attempt_body_merged fs net _ _ _ replace delete callback σ σa σ1 t1 r1 body1
             existing1 time1 snap1 Htok Hn1 Hj1 Hp1 Hm1 Hs1).
  cbv zeta. rewrite (Hfit snap1 Hz1), !or_local_id_twice. fold url.
  set (t2 := t1 ++ [EGet url]).
  assert (Hn2 : net (length (requests_of t2)) = Reply c1).
  { unfold t2, t1. rewrite <- app_assoc, Hcount. cbn. rewrite length_app. exact Hc1. }
  rewrite (commit_runs fs net _ _ existing1 snap1 time1 fields1 σ1 t2 c1 answer1 true
             Htok He1 Hn2 Hjc1 Hf1).
  cbv zeta iota. fold (commit_of fields1 time1).
  (* second pass *)
  rewrite update_loop_early by lia. cbn [heap trace].
  set (t3 := (t2 ++ [commit_of fields1 time1]) ++ [ESleep (NInt 0)]).
  assert (Hn3 : net (length (requests_of t3)) = Reply r2).
  { unfold t3, t2, t1. rewrite <- !app_assoc, Hcount. cbn. rewrite length_app. exact Hr2. }
  rewrite (attempt_body_merged fs net _ _ _ replace delete callback σ1 σb σ2 t3 r2 body2
             existing2 time2 snap2 Htok Hn3 Hj2 Hp2 Hm2 Hs2).
  cbv zeta. rewrite (Hfit snap2 Hz2), !or_local_id_twice. fold url.
  set (t4 := t3 ++ [EGet url]).
  assert (Hn4 : net (length (requests_of t4)) = Reply c2).
  { unfold t4, t3, t2, t1. rewrite <- !app_assoc, Hcount. cbn. rewrite length_app. exact Hc2. }
  rewrite (commit_runs fs net _ _ existing2 snap2 time2 fields2 σ2 t4 c2 answer2 false
             Htok He2 Hn4 Hjc2 Hf2).
  cbv zeta iota. rewrite Hok. fold (commit_of fields2 time2).
  unfold t4, t3, t2, t1. rewrite <- !app_assoc. reflexivity.
Qed.

(* ===================================================================== *)
(** ** The theorems at sample inputs *)
(* ===================================================================== *)

Lemma codec_round_trip_witness :
  native false (PDict sample_native) = true
  /\ exists w,
       dict_to_firestore (PDict sample_native) false = Val w
       /\ dict_from_firestore w = Val (PDict sample_native).
Proof.
  split; [vm_compute; reflexivity|].
  apply (codec_round_trip sample_native). vm_compute; reflexivity.
Defined.

Lemma nested_list_rejected_witness :
  nested_list false (PDict sample_nested) = true
  /\ dict_to_firestore (PDict sample_nested) false = Exn (AssertionError nested_list_msg).
Proof.
  split; [vm_compute; reflexivity|].
  destruct (nested_list_rejected (PDict sample_nested) "" ltac:(vm_compute; reflexivity))
    as (_ & _ & (_ & Hfails) & _).
  apply Hfails. vm_compute; reflexivity.
Defined.

Lemma dict_pop_positions_any_order_witness :
  let σ := snd letters_start in
  dict_pop 1 (VRef 0) (VRef 1) σ
  = Ok (VRef 0) (<[0%nat := OList [VScalar (SStr "b"); VScalar (SStr "d")]]> σ).
Proof.
  apply (dict_pop_positions_any_order 0 (snd letters_start) 0 1
           (VScalar (SStr "a")) (VScalar (SStr "b")) (VScalar (SStr "c")) (VScalar (SStr "d"))
           (VScalar SNone) (VScalar SNone)
           [VTuple [VScalar (SInt 0); VScalar SNone]; VTuple [VScalar (SInt 2); VScalar SNone]]).
  - vm_compute; reflexivity.
  - vm_compute; reflexivity.
  - reflexivity.
  - vm_compute; reflexivity.
  - vm_compute; reflexivity.
Defined.

Lemma dict_pop_malformed_spec_witness :
  let σ := snd letters_start in
  dict_pop 1 (VRef 0) (VRef 2) σ = Ok (VRef (length σ)) (σ ++ [OList []])
  /\ (σ ++ [OList []]) !! 0%nat
     = Some (OList [VScalar (SStr "a"); VScalar (SStr "b"); VScalar (SStr "c");
                    VScalar (SStr "d")])
  /\ (forall l o, σ !! l = Some o -> (σ ++ [OList []]) !! l = Some o).
Proof.
  apply (dict_pop_malformed_spec_removes_nothing 0 (snd letters_start) 0 2
           [VScalar (SStr "a"); VScalar (SStr "b"); VScalar (SStr "c"); VScalar (SStr "d")]
           [VTuple [VScalar (SInt 2); VScalar SNone]; VScalar (SInt 0)]
           (VScalar (SInt 0))).
  - vm_compute; reflexivity.
  - vm_compute; reflexivity.
  - simpl; auto.
  - reflexivity.
Defined.

(** C8 fails as stated: the positional edit of the list under [a] is made,
    and [dict_replace] returns false. *)
Lemma dict_replace_edit_unreported :
  exists σ',
    dict_replace 5 edit_existing edit_replace (snd edit_start) = Ok false σ'
    /\ snapshot 5 (snd edit_start) edit_existing = Some (PDict [("a", PList [PInt 1])])
    /\ snapshot 5 σ' edit_existing = Some (PDict [("a", PList [PInt 9])]).
Proof. eexists. vm_compute. repeat split. Qed.

Lemma dict_replace_flag_witness :
  false = replace_flag (snd edit_start) edit_existing edit_replace.
Proof.
  apply (dict_replace_flag 5 (snd edit_start)
           (state_of (dict_replace 5 edit_existing edit_replace (snd edit_start)) [])
           edit_existing edit_replace false).
  vm_compute; reflexivity.
Defined.

(** C2 fails as stated: in a run whose commits are all refused, the sleep
    that opens pass 5 is 0 seconds, and the sleep of 1 second opens pass 6. *)
Lemma sleep_before_fifth_pass_is_zero :
  exists w',
    busy_run = Ok (timed_out "users" "u1") w'
    /\ firstn 7 (sleeps_of (trace w'))
       = [NInt 0; NInt 0; NInt 0; NInt 0; NInt 0; NInt 1; NFloat float_1_5]
    /\ nth 4 (sleeps_of (trace w')) (NInt 1) = NInt 0
    /\ length (sleeps_of (trace w')) = 16%nat
    /\ length (requests_of (trace w')) = 30%nat.
Proof. eexists. vm_compute. repeat split. Qed.

(** C7 fails on the code.  On the documents of the model (finite trees,
    walked within the budget) [create], [read] and [delete] let no exception
    out; [update] does: the [IndexError] of [existing[index]] in [dict_pop]
    leaves it, after the read and before any commit. *)
Theorem update_lets_index_error_escape :
  (forall fs net fuel collection document data,
     never_raises (create fs net fuel collection document data))
  /\ (forall fs net collection document, never_raises (read fs net collection document))
  /\ (forall fs net collection document, never_raises (delete fs net collection document))
  /\ exists w',
       escape_run = Raise IndexError w'
       /\ requests_of (trace w') = [EGet (document_url sample_fs "users" "u1")].
Proof.
  split; [|split; [|split]].
  - intros. unfold create, bind, lift, read_tree. intros w e w'.
    destruct (snapshot _ _ _); [|discriminate].
    destruct (_ >? _)%Z; [discriminate|]. apply try_except_returns.
  - intros. apply try_except_returns.
  - intros. apply try_except_returns.
  - eexists. vm_compute. split; reflexivity.
Qed.

Lemma size_limit_enforced_witness :
  let σa := state_of (parse_result full_body extra_store) [] in
  let σ1 := state_of (merge 6 (VRef 204) extra_replace extra_delete None σa) [] in
  (dict_size big_document = 19991%Z /\ dict_size full_document = 19990%Z
   /\ dict_size overfull_document = 19991%Z)
  /\ create sample_fs empty_net 6 "users" "u1" big_replace (World big_store [])
     = Ok (size_error (dict_size big_document)) (World big_store [])
  /\ update sample_fs full_net 6 "users" "u1" extra_replace extra_delete None
       (World extra_store [])
     = Ok (size_error (dict_size overfull_document))
          (World σ1 ([] ++ [ESleep (NInt 0);
                            EGet (document_url sample_fs (or_local_id sample_fs "users")
                                               (or_local_id sample_fs "u1"))])).
Proof.
  intros σa σ1.
  split; [repeat split; vm_compute; reflexivity|]. split.
  - apply (proj1 size_limit_enforced sample_fs empty_net 5%nat "users" "u1" big_replace
             big_store [] big_document).
    + vm_compute; reflexivity.
    + apply Z.leb_le. vm_compute; reflexivity.
  - apply (proj2 size_limit_enforced sample_fs full_net 5%nat "users" "u1"
             extra_replace extra_delete None extra_store σa σ1 []
             (Response 200 (Val full_body)) full_body (VRef 204) (PStr "t1")
             overfull_document).
    + reflexivity.
    + reflexivity.
    + reflexivity.
    + vm_compute; reflexivity.
    + vm_compute; reflexivity.
    + vm_compute; reflexivity.
    + apply Z.leb_le. vm_compute; reflexivity.
Defined.



(* ===================================================================== *)
(** * Further properties *)
(* ===================================================================== *)

(** ** The merge engine on flat overlays *)

Lemma dict_has_set_other {V : Type} (d : list (string * V)) (k k' : string) (v : V) :
  String.eqb k k' = false -> dict_has (dict_set d k v) k' = dict_has d k'.
Proof.
  intros Hk. unfold dict_has. induction d as [|[k0 v0] d IH]; cbn [dict_set dict_get].
  - rewrite Hk. reflexivity.
  - destruct (String.eqb k0 k) eqn:E0; cbn [dict_get].
    + apply String.eqb_eq in E0. subst k0. rewrite Hk. reflexivity.
    + destruct (String.eqb k0 k'); [reflexivity | exact IH].
Qed.

Lemma dict_del_absent {V : Type} (d : list (string * V)) (k : string) :
  dict_has d k = false -> dict_del d k = d.
Proof.
  unfold dict_has. induction d as [|[k0 v0] d IH]; cbn [dict_del dict_get]; [reflexivity|].
  destruct (String.eqb k0 k); [discriminate|].
  intros H. rewrite (IH H). reflexivity.
Qed.

Lemma view_of_plain (σ : store) (v : value) :
  plain v = true -> view_of v σ = Ok IsOther σ.
Proof. destruct v; [reflexivity | reflexivity | discriminate]. Qed.

Lemma dict_setitem_ok (σ : store) (l : loc) (items : list (string * value))
    (key : string) (v : value) :
  σ !! l = Some (ODict items) ->
  dict_setitem l key v σ = Ok tt (<[l := ODict (dict_set items key v)]> σ).
Proof.
  intros Hl. unfold dict_setitem.
  rewrite (bind_ok _ _ σ σ _ (load_dict_ok σ l items Hl)). reflexivity.
Qed.

(** One assignment of the loop of [dict_replace] over a mapping: a value
    held in place, or any value under a new key. *)
Lemma replace_key_assigns (rec : value -> value -> H bool) (σ : store) (le : loc)
    (d : list (string * value)) (key : string) (v : value) :
  σ !! le = Some (ODict d) ->
  plain v || negb (dict_has d key) = true ->
  replace_key rec le key v σ = Ok tt (<[le := ODict (dict_set d key v)]> σ).
Proof.
  intros Hl Hv. unfold replace_key.
  rewrite (bind_ok _ _ σ σ _ (load_dict_ok σ le d Hl)).
  destruct (dict_has d key) eqn:Hk; [|apply dict_setitem_ok; exact Hl].
  rewrite orb_false_r in Hv.
  rewrite (bind_ok _ _ σ σ _ (view_of_plain σ v Hv)).
  apply dict_setitem_ok; exact Hl.
Qed.

Lemma for_items_replace (rec : value -> value -> H bool) (le lr : loc)
    (ritems : list (string * value)) (todo : nat) (σ : store) (d : list (string * value)) :
  le <> lr ->
  σ !! lr = Some (ODict ritems) ->
  σ !! le = Some (ODict d) ->
  (todo <= length ritems)%nat ->
  let rest := drop (length ritems - todo) ritems in
  unique_keys rest = true ->
  forallb (fun kv => plain (snd kv) || negb (dict_has d (fst kv))) rest = true ->
  for_items lr (length ritems) todo (replace_key rec le) σ
  = Ok tt (<[le := ODict (dict_update d rest)]> σ).
Proof.
  intros Hne. revert σ d.
  induction todo as [|todo IH]; intros σ d Hr He Hle rest Hu Hok; subst rest; cbn [for_items].
  - rewrite (bind_ok _ _ σ σ _ (load_dict_ok σ lr ritems Hr)).
    rewrite Nat.eqb_refl. cbn [negb].
    rewrite Nat.sub_0_r, drop_all. cbn [dict_update fold_left].
    rewrite list_insert_id by exact He. reflexivity.
  - rewrite (bind_ok _ _ σ σ _ (load_dict_ok σ lr ritems Hr)).
    rewrite Nat.eqb_refl. cbn [negb].
    destruct (ritems !! (length ritems - S todo)%nat) as [[key v]|] eqn:Ei.
    2:{ apply lookup_ge_None in Ei. lia. }
    rewrite (drop_S _ _ _ Ei) in Hu, Hok |- *.
    replace (S (length ritems - S todo)) with (length ritems - todo)%nat in * by lia.
    cbn [unique_keys forallb fst snd] in Hu, Hok.
    apply andb_true_iff in Hu as [Hfresh Hu]. apply andb_true_iff in Hok as [Hv Hok].
    rewrite (bind_ok _ _ σ _ tt (replace_key_assigns rec σ le d key v He Hv)).
    set (σ1 := <[le := ODict (dict_set d key v)]> σ).
    assert (Hlen : (le < length σ)%nat) by (eapply lookup_lt_Some; exact He).
    assert (Hr1 : σ1 !! lr = Some (ODict ritems))
      by (unfold σ1; rewrite list_lookup_insert_ne by exact Hne; exact Hr).
    assert (He1 : σ1 !! le = Some (ODict (dict_set d key v)))
      by (apply list_lookup_insert_eq; exact Hlen).
    rewrite (IH σ1 (dict_set d key v) Hr1 He1 ltac:(lia) Hu).
    + unfold σ1. rewrite list_insert_insert_eq. reflexivity.
    + clear IH Ei. revert Hfresh Hok.
      generalize (drop (length ritems - todo) ritems) as rest.
      induction rest as [|[k' v'] rest IHr]; cbn [forallb fst snd]; [reflexivity|].
      intros Hfresh Hok. apply andb_true_iff in Hok as [Hv' Hok].
      unfold dict_has in Hfresh. cbn [dict_get] in Hfresh.
      destruct (String.eqb k' key) eqn:Ek; [discriminate|].
      apply andb_true_iff. split.
      * rewrite dict_has_set_other; [exact Hv'|].
        rewrite String.eqb_sym. exact Ek.
      * apply IHr; [|exact Hok]. exact Hfresh.
Qed.

Lemma dict_get_set_same {V : Type} (d : list (string * V)) (k : string) (v : V) :
  dict_get (dict_set d k v) k = Some v.
Proof.
  induction d as [|[k0 v0] d IH]; cbn [dict_set dict_get].
  - rewrite String.eqb_refl. reflexivity.
  - destruct (String.eqb k0 k) eqn:E0; cbn [dict_get]; rewrite E0; [reflexivity | exact IH].
Qed.

Lemma dict_get_set_other {V : Type} (d : list (string * V)) (k k' : string) (v : V) :
  String.eqb k k' = false -> dict_get (dict_set d k v) k' = dict_get d k'.
Proof.
  intros Hk. induction d as [|[k0 v0] d IH]; cbn [dict_set dict_get].
  - rewrite Hk. reflexivity.
  - destruct (String.eqb k0 k) eqn:E0; cbn [dict_get].
    + apply String.eqb_eq in E0. subst k0. rewrite Hk. reflexivity.
    + destruct (String.eqb k0 k'); [reflexivity | exact IH].
Qed.

Lemma dict_update_keeps (d overlay : list (string * value)) (k : string) :
  dict_has overlay k = false -> dict_get (dict_update d overlay) k = dict_get d k.
Proof.
  revert d. induction overlay as [|[k0 v0] overlay IH]; intros d; [reflexivity|].
  unfold dict_has. cbn [dict_get]. destruct (String.eqb k0 k) eqn:E0; [discriminate|].
  intros Hk. unfold dict_update. cbn [fold_left fst snd].
  fold (dict_update (dict_set d k0 v0) overlay).
  rewrite IH by exact Hk. apply dict_get_set_other. exact E0.
Qed.

Lemma dict_update_assigns (d overlay : list (string * value)) (k : string) (v : value) :
  unique_keys overlay = true ->
  dict_get overlay k = Some v -> dict_get (dict_update d overlay) k = Some v.
Proof.
  revert d. induction overlay as [|[k0 v0] overlay IH]; intros d; [discriminate|].
  cbn [unique_keys dict_get]. intros Hu. apply andb_true_iff in Hu as [Hfresh Hu].
  unfold dict_update. cbn [fold_left fst snd]. fold (dict_update (dict_set d k0 v0) overlay).
  destruct (String.eqb k0 k) eqn:E0.
  - intros [= <-]. apply String.eqb_eq in E0. subst k0.
    rewrite dict_update_keeps by (apply negb_true_iff; exact Hfresh).
    apply dict_get_set_same.
  - apply IH. exact Hu.
Qed.

Lemma dict_replace_update_run
    (fuel : nat) (σ : store) (le lr : loc) (eitems ritems : list (string * value)) :
  σ !! le = Some (ODict eitems) ->
  σ !! lr = Some (ODict ritems) ->
  le <> lr ->
  unique_keys ritems = true ->
  forallb (fun kv => plain (snd kv) || negb (dict_has eitems (fst kv))) ritems = true ->
  dict_replace (S fuel) (VRef le) (VRef lr) σ
  = Ok false (<[le := ODict (dict_update eitems ritems)]> σ).
Proof.
  intros He Hr Hne Hu Hok. cbn [dict_replace].
  rewrite (bind_ok _ _ σ σ _ (view_of_dict σ lr ritems Hr)).
  rewrite (bind_ok _ _ σ σ _ (view_of_dict σ le eitems He)).
  pose proof (for_items_replace (dict_replace fuel) le lr ritems (length ritems) σ eitems
                Hne Hr He ltac:(lia)) as Hloop.
  cbv zeta in Hloop. rewrite Nat.sub_diag, drop_0 in Hloop.
  rewrite (bind_ok _ _ σ _ tt (Hloop Hu Hok)). reflexivity.
Qed.

(** X1: on two mappings, when every value of the replace mapping is held
    in place or stands under a key the existing mapping does not have,
    [dict_replace] is [existing.update(replace)]: afterwards a key of the
    replace mapping has the value given there (stored as it is: a list or
    dict of the overlay is shared, not copied), every other key of the
    existing mapping keeps its value, the overlay is untouched, and the
    flag is false. *)
Theorem dict_replace_flat_is_update
    (fuel : nat) (σ : store) (le lr : loc) (eitems ritems : list (string * value)) :
  σ !! le = Some (ODict eitems) ->
  σ !! lr = Some (ODict ritems) ->
  le <> lr ->
  unique_keys ritems = true ->
  forallb (fun kv => plain (snd kv) || negb (dict_has eitems (fst kv))) ritems = true ->
  let σ' := <[le := ODict (dict_update eitems ritems)]> σ in
  dict_replace (S fuel) (VRef le) (VRef lr) σ = Ok false σ'
  /\ σ' !! lr = Some (ODict ritems)
  /\ (forall k v, dict_get ritems k = Some v ->
                  dict_get (dict_update eitems ritems) k = Some v)
  /\ (forall k, dict_has ritems k = false ->
                dict_get (dict_update eitems ritems) k = dict_get eitems k).
Proof.
  intros He Hr Hne Hu Hok σ'. subst σ'. split; [|split; [|split]].
  - apply dict_replace_update_run; assumption.
  - rewrite list_lookup_insert_ne by exact Hne. exact Hr.
  - intros k v. apply dict_update_assigns. exact Hu.
  - intros k. apply dict_update_keeps.
Qed.

Lemma nonempty_container_plain (σ : store) (v : value) :
  plain v = true -> nonempty_container v σ = Ok false σ.
Proof.
  intros Hv. rewrite nonempty_container_value.
  destruct v; [reflexivity | reflexivity | discriminate].
Qed.

(** One removal of the loop of [dict_pop] over a mapping, for a value held
    in place: the key goes if it is there. *)
Lemma pop_key_removes (rec : value -> value -> H value) (σ : store) (le : loc)
    (d : list (string * value)) (key : string) (v : value) :
  σ !! le = Some (ODict d) ->
  plain v = true ->
  pop_key rec le key v σ = Ok tt (<[le := ODict (dict_del d key)]> σ).
Proof.
  intros Hl Hv. unfold pop_key.
  rewrite (bind_ok _ _ σ σ _ (load_dict_ok σ le d Hl)).
  destruct (dict_has d key) eqn:Hk.
  - rewrite (bind_ok _ _ σ σ _ (nonempty_container_plain σ v Hv)).
    unfold dict_popitem.
    rewrite (bind_ok _ _ σ σ _ (load_dict_ok σ le d Hl)).
    rewrite Hk. reflexivity.
  - rewrite dict_del_absent by exact Hk.
    rewrite list_insert_id by exact Hl. reflexivity.
Qed.

Lemma for_items_pop (rec : value -> value -> H value) (le lr : loc)
    (ritems : list (string * value)) (todo : nat) (σ : store) (d : list (string * value)) :
  le <> lr ->
  σ !! lr = Some (ODict ritems) ->
  σ !! le = Some (ODict d) ->
  (todo <= length ritems)%nat ->
  let rest := drop (length ritems - todo) ritems in
  forallb (fun kv => plain (snd kv)) rest = true ->
  for_items lr (length ritems) todo (pop_key rec le) σ
  = Ok tt (<[le := ODict (dict_without d rest)]> σ).
Proof.
  intros Hne. revert σ d.
  induction todo as [|todo IH]; intros σ d Hr He Hle rest Hok; subst rest; cbn [for_items].
  - rewrite (bind_ok _ _ σ σ _ (load_dict_ok σ lr ritems Hr)).
    rewrite Nat.eqb_refl. cbn [negb].
    rewrite Nat.sub_0_r, drop_all. cbn [dict_without fold_left].
    rewrite list_insert_id by exact He. reflexivity.
  - rewrite (bind_ok _ _ σ σ _ (load_dict_ok σ lr ritems Hr)).
    rewrite Nat.eqb_refl. cbn [negb].
    destruct (ritems !! (length ritems - S todo)%nat) as [[key v]|] eqn:Ei.
    2:{ apply lookup_ge_None in Ei. lia. }
    rewrite (drop_S _ _ _ Ei) in Hok |- *.
    replace (S (length ritems - S todo)) with (length ritems - todo)%nat in * by lia.
    cbn [forallb fst snd] in Hok. apply andb_true_iff in Hok as [Hv Hok].
    rewrite (bind_ok _ _ σ _ tt (pop_key_removes rec σ le d key v He Hv)).
    set (σ1 := <[le := ODict (dict_del d key)]> σ).
    assert (Hlen : (le < length σ)%nat) by (eapply lookup_lt_Some; exact He).
    assert (Hr1 : σ1 !! lr = Some (ODict ritems))
      by (unfold σ1; rewrite list_lookup_insert_ne by exact Hne; exact Hr).
    assert (He1 : σ1 !! le = Some (ODict (dict_del d key)))
      by (apply list_lookup_insert_eq; exact Hlen).
    rewrite (IH σ1 (dict_del d key) Hr1 He1 ltac:(lia) Hok).
    unfold σ1. rewrite list_insert_insert_eq. reflexivity.
Qed.

Lemma dict_has_del_other {V : Type} (d : list (string * V)) (k k' : string) :
  String.eqb k k' = false -> dict_has (dict_del d k) k' = dict_has d k'.
Proof.
  intros Hk. unfold dict_has. induction d as [|[k0 v0] d IH]; cbn [dict_del dict_get].
  - reflexivity.
  - destruct (String.eqb k0 k) eqn:E0; cbn [dict_get].
    + apply String.eqb_eq in E0. subst k0. rewrite Hk. reflexivity.
    + destruct (String.eqb k0 k'); [reflexivity | exact IH].
Qed.

Lemma dict_get_del_other {V : Type} (d : list (string * V)) (k k' : string) :
  String.eqb k k' = false -> dict_get (dict_del d k) k' = dict_get d k'.
Proof.
  intros Hk. induction d as [|[k0 v0] d IH]; cbn [dict_del dict_get].
  - reflexivity.
  - destruct (String.eqb k0 k) eqn:E0; cbn [dict_get].
    + apply String.eqb_eq in E0. subst k0. rewrite Hk. reflexivity.
    + destruct (String.eqb k0 k'); [reflexivity | exact IH].
Qed.

Lemma dict_without_keeps (d overlay : list (string * value)) (k : string) :
  dict_has overlay k = false -> dict_get (dict_without d overlay) k = dict_get d k.
Proof.
  revert d. induction overlay as [|[k0 v0] overlay IH]; intros d; [reflexivity|].
  unfold dict_has. cbn [dict_get]. destruct (String.eqb k0 k) eqn:E0; [discriminate|].
  intros Hk. unfold dict_without. cbn [fold_left fst].
  fold (dict_without (dict_del d k0) overlay).
  rewrite IH by exact Hk. apply dict_get_del_other. exact E0.
Qed.

Lemma dict_has_del_same {V : Type} (d : list (string * V)) (k : string) :
  unique_keys d = true -> dict_has (dict_del d k) k = false.
Proof.
  induction d as [|[k0 v0] d IH]; cbn [unique_keys dict_del]; [reflexivity|].
  intros Hu. apply andb_true_iff in Hu as [Hfresh Hu].
  destruct (String.eqb k0 k) eqn:E0.
  - apply String.eqb_eq in E0. subst k0. apply negb_true_iff. exact Hfresh.
  - unfold dict_has. cbn [dict_get]. rewrite E0. apply IH. exact Hu.
Qed.

Lemma unique_keys_del {V : Type} (d : list (string * V)) (k : string) :
  unique_keys d = true -> unique_keys (dict_del d k) = true.
Proof.
  induction d as [|[k0 v0] d IH]; cbn [unique_keys dict_del]; [reflexivity|].
  intros Hu. apply andb_true_iff in Hu as [Hfresh Hu].
  destruct (String.eqb k0 k) eqn:E0; [exact Hu|].
  cbn [unique_keys]. apply andb_true_iff. split; [|apply IH; exact Hu].
  rewrite dict_has_del_other; [exact Hfresh|].
  rewrite String.eqb_sym. exact E0.
Qed.

Lemma dict_without_absent (d overlay : list (string * value)) (k : string) :
  dict_has d k = false -> dict_has (dict_without d overlay) k = false.
Proof.
  revert d. induction overlay as [|[k0 v0] overlay IH]; intros d Hk; [exact Hk|].
  unfold dict_without. cbn [fold_left fst]. fold (dict_without (dict_del d k0) overlay).
  apply IH. destruct (String.eqb k0 k) eqn:E0.
  - apply String.eqb_eq in E0. subst k0. rewrite dict_del_absent by exact Hk. exact Hk.
  - rewrite dict_has_del_other by exact E0. exact Hk.
Qed.

Lemma dict_without_gone (d overlay : list (string * value)) (k : string) :
  unique_keys d = true -> dict_has overlay k = true ->
  dict_has (dict_without d overlay) k = false.
Proof.
  revert d. induction overlay as [|[k0 v0] overlay IH]; intros d Hu; [discriminate|].
  unfold dict_without. cbn [fold_left fst]. fold (dict_without (dict_del d k0) overlay).
  unfold dict_has at 1. cbn [dict_get]. destruct (String.eqb k0 k) eqn:E0.
  - intros _. apply String.eqb_eq in E0. subst k0.
    apply dict_without_absent, dict_has_del_same. exact Hu.
  - intros Hk. apply IH; [apply unique_keys_del; exact Hu | exact Hk].
Qed.

Lemma dict_pop_without_run
    (fuel : nat) (σ : store) (le lr : loc) (eitems ritems : list (string * value)) :
  σ !! le = Some (ODict eitems) ->
  σ !! lr = Some (ODict ritems) ->
  le <> lr ->
  forallb (fun kv => plain (snd kv)) ritems = true ->
  dict_pop (S fuel) (VRef le) (VRef lr) σ
  = Ok (VRef le) (<[le := ODict (dict_without eitems ritems)]> σ).
Proof.
  intros He Hr Hne Hok. cbn [dict_pop].
  rewrite (bind_ok _ _ σ σ _ (view_of_dict σ lr ritems Hr)).
  rewrite (bind_ok _ _ σ σ _ (view_of_dict σ le eitems He)).
  pose proof (for_items_pop (dict_pop fuel) le lr ritems (length ritems) σ eitems
                Hne Hr He ltac:(lia)) as Hloop.
  cbv zeta in Hloop. rewrite Nat.sub_diag, drop_0 in Hloop.
  rewrite (bind_ok _ _ σ _ tt (Hloop Hok)). reflexivity.
Qed.

(** X2: on two mappings, when every value of the delete mapping is held
    in place ([None], a number, a text), [dict_pop] removes the keys of the
    delete mapping from the existing one and returns the existing object:
    a key of the delete mapping is gone afterwards, one that was not there
    is passed over without an error, and every other entry keeps its
    value. *)
Theorem dict_pop_flat_removes_keys
    (fuel : nat) (σ : store) (le lr : loc) (eitems ritems : list (string * value)) :
  σ !! le = Some (ODict eitems) ->
  σ !! lr = Some (ODict ritems) ->
  le <> lr ->
  unique_keys eitems = true ->
  forallb (fun kv => plain (snd kv)) ritems = true ->
  dict_pop (S fuel) (VRef le) (VRef lr) σ
  = Ok (VRef le) (<[le := ODict (dict_without eitems ritems)]> σ)
  /\ (forall k, dict_has ritems k = true ->
                dict_has (dict_without eitems ritems) k = false)
  /\ (forall k, dict_has ritems k = false ->
                dict_get (dict_without eitems ritems) k = dict_get eitems k).
Proof.
  intros He Hr Hne Hu Hok. split; [|split].
  - apply dict_pop_without_run; assumption.
  - intros k. apply dict_without_gone. exact Hu.
  - intros k. apply dict_without_keeps.
Qed.

(** ** Positional edits of a list *)

Lemma num_lt_int (i n : Z) : num_lt (NInt i) (NInt n) = (i <? n)%Z.
Proof. unfold num_lt, num_cmp, Z.ltb. destruct (i ?= n)%Z; reflexivity. Qed.

Lemma num_eq_int (i n : Z) : num_eq (NInt i) (NInt n) = (i =? n)%Z.
Proof.
  unfold num_eq, num_cmp.
  destruct (Z.eqb_spec i n) as [->|Hne].
  - rewrite Z.compare_refl. reflexivity.
  - destruct (Z.compare_spec i n); [contradiction | reflexivity | reflexivity].
Qed.

Lemma list_position_within (n : nat) (i : Z) :
  (0 <= i < Z.of_nat n)%Z -> list_position n (VScalar (SInt i)) = Val (Z.to_nat i).
Proof.
  intros Hi. unfold list_position.
  destruct (Z.leb_spec 0 i); [|lia]. destruct (Z.ltb_spec i (Z.of_nat n)); [|lia].
  reflexivity.
Qed.

Lemma list_position_beyond (n : nat) (i : Z) :
  (Z.of_nat n <= i)%Z -> list_position n (VScalar (SInt i)) = Exn IndexError.
Proof.
  intros Hi. unfold list_position.
  destruct (Z.leb_spec 0 i); [|lia]. destruct (Z.ltb_spec i (Z.of_nat n)); [lia|].
  cbn [andb]. destruct (Z.leb_spec (- Z.of_nat n) i); [|lia].
  destruct (Z.ltb_spec i 0); [lia|]. reflexivity.
Qed.

(** One step of the loop of [dict_replace] over a list. *)
Lemma replace_entry_places (σ : store) (le : loc) (d : list value) (ele : value) (t : bool) :
  σ !! le = Some (OList d) ->
  positional ele = true ->
  replace_entry le ele t σ = Ok (t || is_tuple ele) (<[le := OList (place d ele)]> σ).
Proof.
  intros Hl Hp.
  assert (Hskip : is_tuple ele = false ->
                  replace_entry le ele t σ = Ok (t || is_tuple ele) (<[le := OList (place d ele)]> σ)).
  { intros Ht. unfold replace_entry. rewrite Ht, orb_false_r.
    replace (place d ele) with d by (destruct ele; [reflexivity | discriminate | reflexivity]).
    rewrite list_insert_id by exact Hl. reflexivity. }
  destruct ele as [s|items|l]; [apply Hskip; reflexivity | | apply Hskip; reflexivity].
  destruct items as [|[[| |i| | | | | | |]| |] [|v [|]]]; try discriminate.
  cbn [positional] in Hp. apply Z.leb_le in Hp.
  unfold replace_entry. cbn [is_tuple tuple_item lookup list_lookup of_res].
  rewrite orb_true_r.
  rewrite (bind_ok _ _ σ σ (VScalar (SInt i)) eq_refl).
  rewrite (bind_ok _ _ σ σ v eq_refl).
  rewrite (bind_ok _ _ σ σ _ (load_list_ok σ le d Hl)).
  cbv [py_lt_int py_eq_int value_num res_bind]. rewrite num_lt_int, num_eq_int.
  cbn [place].
  destruct (Z.ltb_spec i (Z.of_nat (length d))) as [Hlt|Hge]; cbn [of_res].
  - rewrite (bind_ok _ _ σ σ true eq_refl).
    unfold list_setitem.
    rewrite bind_assoc.
    rewrite (bind_ok _ _ σ σ _ (load_list_ok σ le d Hl)).
    rewrite list_position_within by lia. reflexivity.
  - rewrite (bind_ok _ _ σ σ false eq_refl).
    destruct (Z.eqb_spec i (Z.of_nat (length d))) as [Heq|Hne].
    + rewrite (bind_ok _ _ σ σ true eq_refl).
      unfold list_append. rewrite bind_assoc.
      rewrite (bind_ok _ _ σ σ _ (load_list_ok σ le d Hl)). reflexivity.
    + rewrite (bind_ok _ _ σ σ false eq_refl).
      rewrite list_insert_id by exact Hl. reflexivity.
Qed.

Lemma for_each_places (fuel : nat) (le lr : loc) (ritems : list value) (i : nat) (t : bool)
    (σ : store) (d : list value) :
  le <> lr ->
  σ !! lr = Some (OList ritems) ->
  σ !! le = Some (OList d) ->
  forallb positional (drop i ritems) = true ->
  (length ritems - i < fuel)%nat ->
  for_each fuel lr i t (replace_entry le) σ
  = Ok (t || existsb is_tuple (drop i ritems))
       (<[le := OList (fold_left place (drop i ritems) d)]> σ).
Proof.
  intros Hne. revert i t σ d.
  induction fuel as [|fuel IH]; intros i t σ d Hr He Hok Hfuel; [lia|].
  cbn [for_each].
  rewrite (bind_ok _ _ σ σ _ (load_list_ok σ lr ritems Hr)).
  destruct (ritems !! i) as [ele|] eqn:Ei.
  - rewrite (drop_S _ _ _ Ei) in Hok |- *. cbn [forallb existsb fold_left] in Hok |- *.
    apply andb_true_iff in Hok as [Hp Hok].
    rewrite (bind_ok _ _ σ _ _ (replace_entry_places σ le d ele t He Hp)).
    set (σ1 := <[le := OList (place d ele)]> σ).
    assert (Hlen : (le < length σ)%nat) by (eapply lookup_lt_Some; exact He).
    assert (Hi : (i < length ritems)%nat) by (eapply lookup_lt_Some; exact Ei).
    assert (Hr1 : σ1 !! lr = Some (OList ritems))
      by (unfold σ1; rewrite list_lookup_insert_ne by exact Hne; exact Hr).
    assert (He1 : σ1 !! le = Some (OList (place d ele)))
      by (apply list_lookup_insert_eq; exact Hlen).
    rewrite (IH (S i) _ σ1 (place d ele) Hr1 He1 Hok ltac:(lia)).
    unfold σ1. rewrite list_insert_insert_eq, orb_assoc. reflexivity.
  - rewrite drop_ge by (apply lookup_ge_None; exact Ei).
    cbn [existsb fold_left]. rewrite orb_false_r.
    rewrite list_insert_id by exact He. reflexivity.
Qed.

Lemma dict_replace_places_run
    (fuel : nat) (σ : store) (le lr : loc) (eitems ritems : list value) :
  σ !! le = Some (OList eitems) ->
  σ !! lr = Some (OList ritems) ->
  le <> lr ->
  forallb positional ritems = true ->
  (length ritems < fuel)%nat ->
  dict_replace (S fuel) (VRef le) (VRef lr) σ
  = Ok (existsb is_tuple ritems) (<[le := OList (fold_left place ritems eitems)]> σ).
Proof.
  intros He Hr Hne Hok Hfuel. cbn [dict_replace].
  rewrite (bind_ok _ _ σ σ _ (view_of_list σ lr ritems Hr)).
  rewrite (bind_ok _ _ σ σ _ (view_of_list σ le eitems He)).
  apply (for_each_places fuel le lr ritems 0 false σ eitems Hne Hr He Hok). lia.
Qed.

Lemma place_skips (ritems d : list value) :
  existsb is_tuple ritems = false -> fold_left place ritems d = d.
Proof.
  induction ritems as [|ele ritems IH]; cbn [existsb fold_left]; [reflexivity|].
  intros H. apply orb_false_iff in H as [Hele H].
  replace (place d ele) with d by (destruct ele; [reflexivity | discriminate | reflexivity]).
  apply IH. exact H.
Qed.

(** X3: on two lists, [dict_replace] takes the entries of the replace list
    in order: a pair [(index, value)] assigns within the existing list,
    appends when the index is its length, and is dropped without an error
    when the index lies beyond; an entry that is no tuple is skipped.  The
    flag tells whether a tuple was met. *)
Theorem dict_replace_positional
    (fuel : nat) (σ : store) (le lr : loc) (eitems ritems : list value) :
  σ !! le = Some (OList eitems) ->
  σ !! lr = Some (OList ritems) ->
  le <> lr ->
  forallb positional ritems = true ->
  (length ritems < fuel)%nat ->
  dict_replace (S fuel) (VRef le) (VRef lr) σ
  = Ok (existsb is_tuple ritems) (<[le := OList (fold_left place ritems eitems)]> σ).
Proof.
  intros. apply dict_replace_places_run; assumption.
Qed.

(** ** One key of a mapping overlay *)

Lemma for_items_single (lr : loc) (key : string) (v : value)
    (body : string -> value -> H unit) (σ σ' : store) :
  σ !! lr = Some (ODict [(key, v)]) ->
  body key v σ = Ok tt σ' ->
  σ' !! lr = Some (ODict [(key, v)]) ->
  for_items lr 1 1 body σ = Ok tt σ'.
Proof.
  intros Hr Hbody Hr'. cbn [for_items].
  rewrite (bind_ok _ _ σ σ _ (load_dict_ok σ lr _ Hr)).
  cbn [length Nat.eqb negb Nat.sub lookup list_lookup].
  rewrite (bind_ok _ _ σ σ' tt Hbody).
  rewrite (bind_ok _ _ σ' σ' _ (load_dict_ok σ' lr _ Hr')).
  reflexivity.
Qed.

Lemma dict_getitem_ok (σ : store) (l : loc) (items : list (string * value))
    (key : string) (v : value) :
  σ !! l = Some (ODict items) ->
  dict_get items key = Some v ->
  dict_getitem l key σ = Ok v σ.
Proof.
  intros Hl Hk. unfold dict_getitem.
  rewrite (bind_ok _ _ σ σ _ (load_dict_ok σ l items Hl)). rewrite Hk. reflexivity.
Qed.

Lemma dict_has_of_get {V : Type} (d : list (string * V)) (k : string) (v : V) :
  dict_get d k = Some v -> dict_has d k = true.
Proof. unfold dict_has. intros ->. reflexivity. Qed.

Lemma view_of_not_a_dict (σ : store) (v : value) :
  not_a_dict σ v = true ->
  exists w, view_of v σ = Ok w σ /\ match w with IsDict _ _ => False | _ => True end.
Proof.
  destruct v as [s|items|l]; cbn [not_a_dict].
  - intros _. exists IsOther. split; [reflexivity | exact I].
  - intros _. exists IsOther. split; [reflexivity | exact I].
  - destruct (σ !! l) as [[items|items]|] eqn:El; try discriminate.
    intros _. exists (IsList l items). split; [apply view_of_list; exact El | exact I].
Qed.

(** X4: a mapping in the replace overlay is merged into a mapping only.
    When the existing value under its key is a scalar, a tuple or a list,
    [dict_replace] leaves that value, and the whole store, as it was: the
    replacement is dropped without an error. *)
Theorem dict_replace_mapping_onto_other_is_dropped
    (fuel : nat) (σ : store) (le lr ld : loc) (eitems ditems : list (string * value))
    (key : string) (old : value) :
  σ !! le = Some (ODict eitems) ->
  dict_get eitems key = Some old ->
  not_a_dict σ old = true ->
  σ !! lr = Some (ODict [(key, VRef ld)]) ->
  σ !! ld = Some (ODict ditems) ->
  dict_replace (S (S fuel)) (VRef le) (VRef lr) σ = Ok false σ.
Proof.
  intros He Hold Hkind Hr Hd.
  cbn [dict_replace].
  rewrite (bind_ok _ _ σ σ _ (view_of_dict σ lr _ Hr)).
  rewrite (bind_ok _ _ σ σ _ (view_of_dict σ le eitems He)).
  cbn [length].
  assert (Hbody : replace_key (dict_replace (S fuel)) le key (VRef ld) σ = Ok tt σ).
  { unfold replace_key.
    rewrite (bind_ok _ _ σ σ _ (load_dict_ok σ le eitems He)).
    rewrite (dict_has_of_get _ _ _ Hold).
    rewrite (bind_ok _ _ σ σ _ (view_of_dict σ ld ditems Hd)).
    rewrite (bind_ok _ _ σ σ _ (dict_getitem_ok σ le eitems key old He Hold)).
    cbn [dict_replace].
    rewrite bind_assoc.
    rewrite (bind_ok _ _ σ σ _ (view_of_dict σ ld ditems Hd)).
    destruct (view_of_not_a_dict σ old Hkind) as (w & Hw & Hnot).
    rewrite bind_assoc.
    rewrite (bind_ok _ _ σ σ _ Hw).
    destruct w; [contradiction | reflexivity | reflexivity]. }
  rewrite (bind_ok _ _ σ σ tt (for_items_single lr key (VRef ld) _ σ σ Hr Hbody Hr)).
  reflexivity.
Qed.

(** X5: an index beyond the end of the list, in the one pair of a delete
    list.  With a leaf value the pair is passed over and the list is as
    before; with a non-empty list or dict as its value (a partial delete)
    [dict_pop] raises [IndexError], the store untouched. *)
Theorem dict_pop_index_beyond_end
    (fuel : nat) (σ : store) (le lr : loc) (eitems : list value) (i : Z) (v : value)
    (partial : bool) :
  σ !! le = Some (OList eitems) ->
  σ !! lr = Some (OList [VTuple [VScalar (SInt i); v]]) ->
  (Z.of_nat (length eitems) <= i)%Z ->
  nonempty_container v σ = Ok partial σ ->
  dict_pop (S fuel) (VRef le) (VRef lr) σ
  = if partial then Raise IndexError σ else Ok (VRef le) σ.
Proof.
  intros He Hr Hi Hv. cbn [dict_pop].
  rewrite (bind_ok _ _ σ σ _ (view_of_list σ lr _ Hr)).
  rewrite (bind_ok _ _ σ σ _ (view_of_list σ le eitems He)).
  cbn [forallb is_tuple andb].
  change (sorted_descending [VTuple [VScalar (SInt i); v]])
    with (Val (A := list value) [VTuple [VScalar (SInt i); v]]).
  cbn [of_res].
  rewrite (bind_ok _ _ σ σ _ eq_refl).
  cbn [for_own]. unfold pop_entry.
  cbn [tuple_item lookup list_lookup of_res].
  rewrite !bind_assoc.
  rewrite (bind_ok _ _ σ σ (VScalar (SInt i)) eq_refl).
  rewrite !bind_assoc.
  rewrite (bind_ok _ _ σ σ v eq_refl).
  rewrite !bind_assoc.
  rewrite (bind_ok _ _ σ σ partial Hv).
  destruct partial.
  - unfold list_getitem. rewrite !bind_assoc.
    rewrite (bind_ok _ _ σ σ _ (load_list_ok σ le eitems He)).
    rewrite !bind_assoc.
    rewrite list_position_beyond by exact Hi. reflexivity.
  - rewrite !bind_assoc.
    rewrite (bind_ok _ _ σ σ _ (load_list_ok σ le eitems He)).
    cbv [py_lt_int value_num res_bind]. rewrite num_lt_int.
    destruct (Z.ltb_spec i (Z.of_nat (length eitems))); [lia|].
    reflexivity.
Qed.

(** X6: a mapping in the replace overlay under a key that holds a mapping
    is merged into that mapping, not assigned: the nested mapping object
    stays under its key and takes the entries of the overlay, and its other
    keys keep their values. *)
Theorem dict_replace_merges_nested_mapping
    (fuel : nat) (σ : store) (le lr lo ld : loc)
    (eitems oitems ditems : list (string * value)) (key : string) :
  σ !! le = Some (ODict eitems) ->
  dict_get eitems key = Some (VRef lo) ->
  σ !! lo = Some (ODict oitems) ->
  σ !! lr = Some (ODict [(key, VRef ld)]) ->
  σ !! ld = Some (ODict ditems) ->
  lo <> ld -> lo <> lr ->
  unique_keys ditems = true ->
  forallb (fun kv => plain (snd kv) || negb (dict_has oitems (fst kv))) ditems = true ->
  dict_replace (S (S fuel)) (VRef le) (VRef lr) σ
  = Ok false (<[lo := ODict (dict_update oitems ditems)]> σ)
  /\ (forall k, dict_has ditems k = false ->
                dict_get (dict_update oitems ditems) k = dict_get oitems k).
Proof.
  intros He Hkey Ho Hr Hd Hod Hor Hu Hok. split; [|intros k; apply dict_update_keeps].
  set (σ' := <[lo := ODict (dict_update oitems ditems)]> σ).
  assert (Hr' : σ' !! lr = Some (ODict [(key, VRef ld)]))
    by (unfold σ'; rewrite list_lookup_insert_ne by exact Hor; exact Hr).
  cbn [dict_replace].
  rewrite (bind_ok _ _ σ σ _ (view_of_dict σ lr _ Hr)).
  rewrite (bind_ok _ _ σ σ _ (view_of_dict σ le eitems He)).
  cbn [length].
  assert (Hbody : replace_key (dict_replace (S fuel)) le key (VRef ld) σ = Ok tt σ').
  { unfold replace_key.
    rewrite (bind_ok _ _ σ σ _ (load_dict_ok σ le eitems He)).
    rewrite (dict_has_of_get _ _ _ Hkey).
    rewrite (bind_ok _ _ σ σ _ (view_of_dict σ ld ditems Hd)).
    rewrite (bind_ok _ _ σ σ _ (dict_getitem_ok σ le eitems key _ He Hkey)).
    rewrite (bind_ok _ _ σ σ' false
               (dict_replace_update_run fuel σ lo ld oitems ditems Ho Hd Hod Hu Hok)).
    reflexivity. }
  rewrite (bind_ok _ _ σ σ' tt (for_items_single lr key (VRef ld) _ σ σ' Hr Hbody Hr')).
  reflexivity.
Qed.

(** X7: a list in the replace overlay under a key that holds a list.  When
    the overlay list has a tuple, its pairs edit the existing list in place
    and the list object stays under the key; when it has none, the overlay
    list itself is stored under the key, and the old list is left as it
    was. *)
Theorem dict_replace_list_under_key
    (fuel : nat) (σ : store) (le lr lo lv : loc) (eitems : list (string * value))
    (oitems vitems : list value) (key : string) :
  σ !! le = Some (ODict eitems) ->
  dict_get eitems key = Some (VRef lo) ->
  σ !! lo = Some (OList oitems) ->
  σ !! lr = Some (ODict [(key, VRef lv)]) ->
  σ !! lv = Some (OList vitems) ->
  lo <> lv ->
  forallb positional vitems = true ->
  (length vitems < fuel)%nat ->
  dict_replace (S (S fuel)) (VRef le) (VRef lr) σ
  = Ok false
       (if existsb is_tuple vitems
        then <[lo := OList (fold_left place vitems oitems)]> σ
        else <[le := ODict (dict_set eitems key (VRef lv))]> σ).
Proof.
  intros He Hkey Ho Hr Hv Hov Hok Hfuel.
  assert (Hler : le <> lr).
  { intros ->. rewrite He in Hr. injection Hr as ->.
    cbn [dict_get] in Hkey. destruct (String.eqb key key); congruence. }
  assert (Hlor : lo <> lr) by (intros ->; congruence).
  set (σ1 := <[lo := OList (fold_left place vitems oitems)]> σ).
  assert (Hrun : dict_replace (S fuel) (VRef lo) (VRef lv) σ
                 = Ok (existsb is_tuple vitems) σ1)
    by (apply dict_replace_places_run; assumption).
  cbn [dict_replace].
  rewrite (bind_ok _ _ σ σ _ (view_of_dict σ lr _ Hr)).
  rewrite (bind_ok _ _ σ σ _ (view_of_dict σ le eitems He)).
  cbn [length].
  assert (Hbody : replace_key (dict_replace (S fuel)) le key (VRef lv) σ
                  = Ok tt (if existsb is_tuple vitems then σ1
                           else <[le := ODict (dict_set eitems key (VRef lv))]> σ)).
  { unfold replace_key.
    rewrite (bind_ok _ _ σ σ _ (load_dict_ok σ le eitems He)).
    rewrite (dict_has_of_get _ _ _ Hkey).
    rewrite (bind_ok _ _ σ σ _ (view_of_list σ lv vitems Hv)).
    rewrite (bind_ok _ _ σ σ _ (dict_getitem_ok σ le eitems key _ He Hkey)).
    rewrite (bind_ok _ _ σ σ1 _ Hrun).
    destruct (existsb is_tuple vitems) eqn:Ht; cbn [negb]; [reflexivity|].
    unfold σ1. rewrite place_skips by exact Ht.
    rewrite list_insert_id by exact Ho.
    apply dict_setitem_ok. exact He. }
  assert (Hr' : (if existsb is_tuple vitems then σ1
                 else <[le := ODict (dict_set eitems key (VRef lv))]> σ) !! lr
                = Some (ODict [(key, VRef lv)])).
  { destruct (existsb is_tuple vitems); [unfold σ1|];
      rewrite list_lookup_insert_ne by assumption; exact Hr. }
  rewrite (bind_ok _ _ σ _ tt (for_items_single lr key (VRef lv) _ σ _ Hr Hbody Hr')).
  reflexivity.
Qed.

(** X8: a non-empty mapping in the delete overlay under a key that holds a
    mapping removes its keys from that nested mapping, and the key itself
    stays, also when nothing is left below it. *)
Theorem dict_pop_descends_into_mapping
    (fuel : nat) (σ : store) (le lr lo ld : loc)
    (eitems oitems ditems : list (string * value)) (key : string) :
  σ !! le = Some (ODict eitems) ->
  dict_get eitems key = Some (VRef lo) ->
  σ !! lo = Some (ODict oitems) ->
  σ !! lr = Some (ODict [(key, VRef ld)]) ->
  σ !! ld = Some (ODict ditems) ->
  ditems <> [] ->
  lo <> ld -> lo <> lr ->
  forallb (fun kv => plain (snd kv)) ditems = true ->
  dict_pop (S (S fuel)) (VRef le) (VRef lr) σ
  = Ok (VRef le) (<[lo := ODict (dict_without oitems ditems)]> σ).
Proof.
  intros He Hkey Ho Hr Hd Hne Hod Hor Hok.
  set (σ' := <[lo := ODict (dict_without oitems ditems)]> σ).
  assert (Hr' : σ' !! lr = Some (ODict [(key, VRef ld)]))
    by (unfold σ'; rewrite list_lookup_insert_ne by exact Hor; exact Hr).
  cbn [dict_pop].
  rewrite (bind_ok _ _ σ σ _ (view_of_dict σ lr _ Hr)).
  rewrite (bind_ok _ _ σ σ _ (view_of_dict σ le eitems He)).
  cbn [length].
  assert (Hpartial : nonempty_container (VRef ld) σ = Ok true σ).
  { rewrite nonempty_container_value, Hd. destruct ditems; [contradiction | reflexivity]. }
  assert (Hbody : pop_key (dict_pop (S fuel)) le key (VRef ld) σ = Ok tt σ').
  { unfold pop_key.
    rewrite (bind_ok _ _ σ σ _ (load_dict_ok σ le eitems He)).
    rewrite (dict_has_of_get _ _ _ Hkey).
    rewrite (bind_ok _ _ σ σ _ Hpartial).
    rewrite (bind_ok _ _ σ σ _ (dict_getitem_ok σ le eitems key _ He Hkey)).
    rewrite (bind_ok _ _ σ σ' _
               (dict_pop_without_run fuel σ lo ld oitems ditems Ho Hd Hod Hok)).
    reflexivity. }
  rewrite (bind_ok _ _ σ σ' tt (for_items_single lr key (VRef ld) _ σ σ' Hr Hbody Hr')).
  reflexivity.
Qed.

(** X9: an empty dict or an empty list as the value of a key in the
    delete overlay counts as a leaf: [dict_pop] removes the key itself from
    the existing mapping, whatever it holds, instead of descending into
    it. *)
Theorem dict_pop_empty_container_removes_key
    (fuel : nat) (σ : store) (le lr lv : loc) (eitems : list (string * value))
    (key : string) (o : object) :
  σ !! le = Some (ODict eitems) ->
  dict_has eitems key = true ->
  σ !! lr = Some (ODict [(key, VRef lv)]) ->
  σ !! lv = Some o ->
  object_nonempty o = false ->
  le <> lr ->
  dict_pop (S fuel) (VRef le) (VRef lr) σ
  = Ok (VRef le) (<[le := ODict (dict_del eitems key)]> σ)
  /\ (unique_keys eitems = true -> dict_has (dict_del eitems key) key = false).
Proof.
  intros He Hkey Hr Hv Hempty Hne. split; [|apply dict_has_del_same].
  set (σ' := <[le := ODict (dict_del eitems key)]> σ).
  assert (Hr' : σ' !! lr = Some (ODict [(key, VRef lv)]))
    by (unfold σ'; rewrite list_lookup_insert_ne by exact Hne; exact Hr).
  cbn [dict_pop].
  rewrite (bind_ok _ _ σ σ _ (view_of_dict σ lr _ Hr)).
  rewrite (bind_ok _ _ σ σ _ (view_of_dict σ le eitems He)).
  cbn [length].
  assert (Hleaf : nonempty_container (VRef lv) σ = Ok false σ)
    by (rewrite nonempty_container_value, Hv, Hempty; reflexivity).
  assert (Hbody : pop_key (dict_pop fuel) le key (VRef lv) σ = Ok tt σ').
  { unfold pop_key.
    rewrite (bind_ok _ _ σ σ _ (load_dict_ok σ le eitems He)).
    rewrite Hkey.
    rewrite (bind_ok _ _ σ σ _ Hleaf).
    unfold dict_popitem.
    rewrite (bind_ok _ _ σ σ _ (load_dict_ok σ le eitems He)).
    rewrite Hkey. reflexivity. }
  rewrite (bind_ok _ _ σ σ' tt (for_items_single lr key (VRef lv) _ σ σ' Hr Hbody Hr')).
  reflexivity.
Qed.

(** ** Positional deletes, in any order *)

Definition keyed_pair (p : Z * value) : sort_key * value :=
  (KNum (NInt (fst p)), pair_entry p).

Lemma keys_of_pairs (pairs : list (Z * value)) :
  keys_of (List.map pair_entry pairs) = Val (List.map keyed_pair pairs).
Proof.
  induction pairs as [|p pairs IH]; [reflexivity|].
  cbn [List.map keys_of]. rewrite IH. reflexivity.
Qed.

Lemma insert_desc_pair (p : Z * value) (s : list (Z * value)) :
  insert_desc (KNum (NInt (fst p))) (pair_entry p) (List.map keyed_pair s)
  = List.map keyed_pair (insert_pair p s).
Proof.
  induction s as [|q s IH]; [reflexivity|].
  cbn [List.map insert_desc insert_pair keyed_pair key_gt].
  unfold num_gt. rewrite num_lt_int.
  destruct (fst p <? fst q)%Z; [|reflexivity].
  cbn [List.map]. rewrite <- IH. reflexivity.
Qed.

Lemma sort_desc_pairs (pairs : list (Z * value)) :
  sort_desc (List.map keyed_pair pairs) = List.map keyed_pair (sort_pairs pairs).
Proof.
  induction pairs as [|p pairs IH]; [reflexivity|].
  unfold sort_desc in *. cbn [List.map fold_right sort_pairs].
  rewrite IH. apply insert_desc_pair.
Qed.

Lemma keyed_pairs_are_numbers (pairs : list (Z * value)) :
  existsb (fun x => match fst x with KUnknown => true | _ => false end)
    (List.map keyed_pair pairs) = false
  /\ existsb (fun x => match fst x with KNoNumber => true | _ => false end)
       (List.map keyed_pair pairs) = false.
Proof. induction pairs as [|p pairs IH]; [split; reflexivity | exact IH]. Qed.

Lemma sorted_descending_pairs (pairs : list (Z * value)) :
  sorted_descending (List.map pair_entry pairs)
  = Val (List.map pair_entry (sort_pairs pairs)).
Proof.
  unfold sorted_descending. rewrite keys_of_pairs. cbn [res_bind].
  destruct pairs as [|p [|q pairs]]; [reflexivity | reflexivity |].
  destruct (keyed_pairs_are_numbers (p :: q :: pairs)) as [Hu Hn].
  cbn [List.map] in Hu, Hn |- *. rewrite Hu, Hn.
  change (keyed_pair p :: keyed_pair q :: List.map keyed_pair pairs)
    with (List.map keyed_pair (p :: q :: pairs)).
  rewrite sort_desc_pairs, List.map_map. reflexivity.
Qed.

Lemma pair_entries_are_tuples (pairs : list (Z * value)) :
  forallb is_tuple (List.map pair_entry pairs) = true.
Proof. induction pairs as [|p pairs IH]; [reflexivity | exact IH]. Qed.

(** The sort keeps the indices, and puts distinct ones in descending
    order. *)
Lemma insert_pair_indices (p : Z * value) (s : list (Z * value)) (x : Z) :
  existsb (Z.eqb x) (List.map fst (insert_pair p s))
  = existsb (Z.eqb x) (fst p :: List.map fst s).
Proof.
  induction s as [|q s IH]; [reflexivity|].
  cbn [insert_pair]. destruct (fst p <? fst q)%Z; [|reflexivity].
  cbn [List.map existsb] in IH |- *. rewrite IH.
  destruct (x =? fst q)%Z; destruct (x =? fst p)%Z; reflexivity.
Qed.

Lemma sort_pairs_indices (pairs : list (Z * value)) (x : Z) :
  existsb (Z.eqb x) (List.map fst (sort_pairs pairs))
  = existsb (Z.eqb x) (List.map fst pairs).
Proof.
  induction pairs as [|p pairs IH]; [reflexivity|].
  cbn [sort_pairs fold_right]. fold (sort_pairs pairs).
  rewrite insert_pair_indices. cbn [List.map existsb]. rewrite IH. reflexivity.
Qed.

Lemma existsb_eqb_false (x : Z) (l : list Z) :
  existsb (Z.eqb x) l = false -> Forall (fun j => j <> x) l.
Proof.
  induction l as [|j l IH]; cbn [existsb]; [constructor|].
  intros H. apply orb_false_iff in H as [Hj H]. constructor; [|apply IH; exact H].
  apply Z.eqb_neq in Hj. congruence.
Qed.

Lemma insert_pair_descending (p : Z * value) (s : list (Z * value)) :
  descending (List.map fst s) ->
  existsb (Z.eqb (fst p)) (List.map fst s) = false ->
  descending (List.map fst (insert_pair p s)).
Proof.
  induction s as [|q s IH]; cbn [insert_pair List.map descending].
  - intros _ _. split; [constructor | exact I].
  - intros [Hq Hs] Hnew. cbn [existsb] in Hnew.
    apply orb_false_iff in Hnew as [Hpq Hnew]. apply Z.eqb_neq in Hpq.
    destruct (Z.ltb_spec (fst p) (fst q)) as [Hlt|Hge]; cbn [List.map descending].
    + split; [|apply IH; assumption].
      apply List.Forall_forall. intros j Hj.
      assert (Hin : existsb (Z.eqb j) (List.map fst (insert_pair p s)) = true).
      { apply existsb_exists. exists j. split; [exact Hj | apply Z.eqb_refl]. }
      rewrite insert_pair_indices in Hin. cbn [existsb] in Hin.
      apply orb_true_iff in Hin as [Hin | Hin].
      * apply Z.eqb_eq in Hin. lia.
      * apply existsb_exists in Hin as (j' & Hj' & Heq). apply Z.eqb_eq in Heq. subst j'.
        rewrite List.Forall_forall in Hq. apply Hq. exact Hj'.
    + split; [|split; assumption].
      constructor; [lia|].
      rewrite List.Forall_forall in Hq |- *. intros j Hj. specialize (Hq j Hj). lia.
Qed.

Lemma sort_pairs_descending (pairs : list (Z * value)) :
  distinct (List.map fst pairs) = true -> descending (List.map fst (sort_pairs pairs)).
Proof.
  induction pairs as [|p pairs IH]; cbn [List.map distinct]; [intros _; exact I|].
  intros H. apply andb_true_iff in H as [Hnew H]. apply negb_true_iff in Hnew.
  cbn [sort_pairs fold_right]. fold (sort_pairs pairs).
  apply insert_pair_descending; [apply IH; exact H|].
  rewrite sort_pairs_indices. exact Hnew.
Qed.

Lemma sort_pairs_forall (P : Z * value -> Prop) (pairs : list (Z * value)) :
  Forall P pairs -> Forall P (sort_pairs pairs).
Proof.
  induction 1 as [|p pairs Hp _ IH]; [constructor|].
  cbn [sort_pairs fold_right]. fold (sort_pairs pairs).
  induction IH as [|q s Hq Hs IHs]; cbn [insert_pair]; [repeat constructor; exact Hp|].
  destruct (fst p <? fst q)%Z; repeat constructor; assumption.
Qed.

(** Removing positions one by one, from the highest down. *)
Lemma keep_from_all (items : list value) (from : nat) (indices : list Z) :
  Forall (fun j => (j < Z.of_nat from)%Z) indices -> keep_from items from indices = items.
Proof.
  revert from. induction items as [|x items IH]; intros from H; [reflexivity|].
  cbn [keep_from].
  assert (Hout : existsb (Z.eqb (Z.of_nat from)) indices = false).
  { apply not_true_is_false. intros Hin.
    apply existsb_exists in Hin as (j & Hj & Heq). apply Z.eqb_eq in Heq.
    rewrite List.Forall_forall in H. specialize (H j Hj). lia. }
  rewrite Hout. f_equal. apply IH.
  eapply List.Forall_impl; [|exact H]. intros j Hj. cbn beta in *. lia.
Qed.

Lemma keep_from_delete (items : list value) (from i : nat) (indices : list Z) :
  Forall (fun j => (j < Z.of_nat (from + i))%Z) indices ->
  keep_from (base.delete i items) from indices
  = keep_from items from (Z.of_nat (from + i) :: indices).
Proof.
  revert from i. induction items as [|x items IH]; intros from i H.
  - destruct i; reflexivity.
  - destruct i as [|i].
    + replace (from + 0)%nat with from in * by lia.
      cbn [keep_from existsb]. rewrite Z.eqb_refl. cbn [orb].
      change (base.delete 0%nat (x :: items)) with items.
      rewrite keep_from_all by exact H.
      symmetry. apply keep_from_all. constructor; [lia|].
      eapply List.Forall_impl; [|exact H]. intros j Hj. cbn beta in *. lia.
    + change (base.delete (S i) (x :: items)) with (x :: base.delete i items).
      cbn [keep_from existsb].
      destruct (Z.eqb_spec (Z.of_nat from) (Z.of_nat (from + S i))) as [Heq|_]; [lia|].
      cbn [orb].
      replace (from + S i)%nat with (S from + i)%nat in * by lia.
      rewrite (IH (S from) i H). reflexivity.
Qed.

Lemma keep_from_same_indices (items : list value) (from : nat) (a b : list Z) :
  (forall x, existsb (Z.eqb x) a = existsb (Z.eqb x) b) ->
  keep_from items from a = keep_from items from b.
Proof.
  intros Hab. revert from. induction items as [|x items IH]; intros from; [reflexivity|].
  cbn [keep_from]. rewrite Hab, !IH. reflexivity.
Qed.

(** The loop of [dict_pop] over the sorted pairs. *)
Lemma for_own_pops (rec : value -> value -> H value) (le : loc) (s : list (Z * value))
    (σ : store) (items : list value) :
  σ !! le = Some (OList items) ->
  descending (List.map fst s) ->
  Forall (fun p => (0 <= fst p < Z.of_nat (length items))%Z /\ plain (snd p) = true) s ->
  for_own (List.map pair_entry s) (pop_entry rec le) σ
  = Ok tt (<[le := OList (keep_from items 0 (List.map fst s))]> σ).
Proof.
  revert σ items. induction s as [|[i v] s IH]; intros σ items He Hd Hs.
  - cbn [List.map for_own]. rewrite keep_from_all by constructor.
    rewrite list_insert_id by exact He. reflexivity.
  - cbn [List.map descending fst] in Hd. destruct Hd as [Hlow Hd].
    apply Forall_cons in Hs as [[Hi Hv] Hs]. cbn [fst snd] in Hi, Hv.
    cbn [List.map for_own].
    assert (Hlen : (le < length σ)%nat) by (eapply lookup_lt_Some; exact He).
    assert (Hpop : pop_entry rec le (pair_entry (i, v)) σ
                   = Ok tt (<[le := OList (base.delete (Z.to_nat i) items)]> σ)).
    { unfold pair_entry. cbn [fst snd]. apply pop_leaf_entry.
      - exact He.
      - apply nonempty_container_plain. exact Hv.
      - apply Z.ltb_lt. lia.
      - apply list_position_within. lia. }
    rewrite (bind_ok _ _ σ _ tt Hpop).
    set (σ1 := <[le := OList (base.delete (Z.to_nat i) items)]> σ).
    assert (He1 : σ1 !! le = Some (OList (base.delete (Z.to_nat i) items)))
      by (apply list_lookup_insert_eq; exact Hlen).
    assert (Hshort : length (base.delete (Z.to_nat i) items) = (length items - 1)%nat).
    { rewrite length_delete; [reflexivity|].
      apply lookup_lt_is_Some. lia. }
    rewrite (IH σ1 (base.delete (Z.to_nat i) items) He1 Hd).
    + unfold σ1. rewrite list_insert_insert_eq.
      rewrite (keep_from_delete items 0 (Z.to_nat i) (List.map fst s)).
      * cbn [fst Nat.add]. rewrite Z2Nat.id by lia. reflexivity.
      * cbn [Nat.add]. rewrite Z2Nat.id by lia. exact Hlow.
    + rewrite List.Forall_forall in Hs, Hlow |- *. intros p Hp.
      destruct (Hs p Hp) as [Hp0 Hpv]. split; [|exact Hpv].
      assert (Hlt : (fst p < i)%Z) by (apply Hlow, in_map; exact Hp).
      rewrite Hshort. lia.
Qed.

(** X10: positional deletes in any order.  For a delete list of pairs
    [(index, value)] with leaf values and distinct indices within the
    existing list, listed in any order, [dict_pop] removes exactly the
    elements at these positions of the list as it was, keeps the others in
    their order, and returns the existing object. *)
Theorem dict_pop_removes_positions
    (fuel : nat) (σ : store) (le lr : loc) (eitems : list value) (pairs : list (Z * value)) :
  σ !! le = Some (OList eitems) ->
  σ !! lr = Some (OList (List.map pair_entry pairs)) ->
  distinct (List.map fst pairs) = true ->
  forallb (fun p => (0 <=? fst p)%Z && (fst p <? Z.of_nat (length eitems))%Z
                    && plain (snd p)) pairs = true ->
  dict_pop (S fuel) (VRef le) (VRef lr) σ
  = Ok (VRef le) (<[le := OList (without_positions eitems (List.map fst pairs))]> σ).
Proof.
  intros He Hr Hdist Hok.
  assert (Hall : Forall (fun p => (0 <= fst p < Z.of_nat (length eitems))%Z
                                  /\ plain (snd p) = true) pairs).
  { apply List.Forall_forall. intros p Hp. rewrite forallb_forall in Hok.
    specialize (Hok p Hp). apply andb_true_iff in Hok as [Hok Hv].
    apply andb_true_iff in Hok as [H0 H1].
    apply Z.leb_le in H0. apply Z.ltb_lt in H1. auto. }
  cbn [dict_pop].
  rewrite (bind_ok _ _ σ σ _ (view_of_list σ lr _ Hr)).
  rewrite (bind_ok _ _ σ σ _ (view_of_list σ le eitems He)).
  rewrite pair_entries_are_tuples, sorted_descending_pairs. cbn [of_res].
  rewrite (bind_ok _ _ σ σ _ eq_refl).
  rewrite (bind_ok _ _ σ _ tt
             (for_own_pops (dict_pop fuel) le (sort_pairs pairs) σ eitems He
                (sort_pairs_descending pairs Hdist) (sort_pairs_forall _ pairs Hall))).
  unfold without_positions.
  rewrite (keep_from_same_indices eitems 0 _ (List.map fst pairs) (sort_pairs_indices pairs)).
  reflexivity.
Qed.

(** ** The operations and the transport *)

(** What [read] does, case by case. *)
Lemma read_outcome (fs : Firestore) (net : nat -> reply) (collection document : string)
    (w : world) :
  read fs net collection document w
  = if String.eqb (id_token fs) "" then
      Ok (false, ErrorOf (AssertionError "Database not enabled."), PStr "") w
    else
      let t1 := trace w ++ [EGet (document_url fs (or_local_id fs collection)
                                               (or_local_id fs document))] in
      match net (length (requests_of (trace w))) with
      | NoReply e => Ok (false, ErrorOf e, PStr "") (World (heap w) t1)
      | Reply r =>
          match json r with
          | Val body =>
              match parse_result body (heap w) with
              | Ok res σ => Ok res (World σ t1)
              | Raise e σ => Ok (false, ErrorOf e, PStr "") (World σ t1)
              | Stuck => Stuck
              end
          | Exn e => Ok (false, ErrorOf e, PStr "") (World (heap w) t1)
          | Undef => Stuck
          end
      end.
Proof.
  unfold read, try_except, bind, build_headers, request, lift, document_url.
  destruct (String.eqb (id_token fs) ""); [reflexivity|].
  cbn [ret heap trace].
  destruct (net _) as [r|e]; [|reflexivity].
  destruct (json r) as [body|e|]; cbn [of_res ret raise stuck heap trace]; try reflexivity.
  destruct (parse_result body (heap w)); reflexivity.
Qed.

Lemma read_or_local_id (fs : Firestore) (net : nat -> reply) (collection document : string) :
  read fs net (or_local_id fs collection) (or_local_id fs document)
  = read fs net collection document.
Proof. unfold read. rewrite !or_local_id_twice. reflexivity. Qed.

Lemma read_trace (fs : Firestore) (net : nat -> reply) (collection document : string)
    (w w1 : world) (res : result) :
  read fs net collection document w = Ok res w1 ->
  trace w1 = trace w
  \/ trace w1 = trace w ++ [EGet (document_url fs (or_local_id fs collection)
                                               (or_local_id fs document))].
Proof.
  rewrite read_outcome.
  destruct (String.eqb (id_token fs) ""); [intros [= _ <-]; left; reflexivity|].
  cbv zeta.
  destruct (net _) as [r|e]; [|intros [= _ <-]; right; reflexivity].
  destruct (json r) as [body|e|]; [| intros [= _ <-]; right; reflexivity | discriminate].
  destruct (parse_result body (heap w)); [| | discriminate];
    intros [= _ <-]; right; reflexivity.
Qed.

(** X11: when the read of a pass fails, [update] returns what the read
    returned, at once: nothing is merged, there is no second pass, and the
    call leaves its opening sleep of 0 seconds and at most the one GET
    behind, no commit. *)
Theorem update_returns_failed_read (fs : Firestore) (net : nat -> reply) (fuel : nat)
    (collection document : string) (replace delete : value)
    (callback : option (value -> H unit)) (w w1 : world) (x : data) (update_time : pyval) :
  read fs net collection document (World (heap w) (trace w ++ [ESleep (NInt 0)]))
  = Ok (false, x, update_time) w1 ->
  update fs net (S fuel) collection document replace delete callback w
  = Ok (false, x, update_time) w1
  /\ (trace w1 = trace w ++ [ESleep (NInt 0)]
      \/ trace w1 = trace w ++ [ESleep (NInt 0);
                                EGet (document_url fs (or_local_id fs collection)
                                                   (or_local_id fs document))]).
Proof.
  intros Hread. split.
  - unfold update. rewrite update_loop_early by lia.
    unfold attempt_body. rewrite read_or_local_id.
    rewrite (bind_ok _ _ _ _ _ Hread). reflexivity.
  - destruct (read_trace _ _ _ _ _ _ _ Hread) as [-> | ->]; cbn [trace].
    + left. reflexivity.
    + right. rewrite <- app_assoc. reflexivity.
Qed.

Lemma subscript_val (t : pyval) (key : string) (v : pyval) :
  subscript t key = Val v <-> exists items, t = PDict items /\ dict_get items key = Some v.
Proof.
  split.
  - destruct t as [s|items|items|items]; cbn [subscript]; try discriminate.
    destruct (dict_get items key) eqn:E; [|discriminate].
    intros [= <-]. eauto.
  - intros (items & -> & E). cbn [subscript]. rewrite E. reflexivity.
Qed.

Lemma py_in_dict (items : list (string * pyval)) (key : string) :
  py_in key (PDict items) = Val (dict_has items key).
Proof. reflexivity. Qed.

(** The test that sends [update] round again. *)
Lemma failed_precondition_true (status : Z) (t : pyval) :
  failed_precondition status t = Val true
  <-> status = 400%Z
      /\ exists err, subscript t "error" = Val err
                     /\ subscript err "status" = Val (PStr "FAILED_PRECONDITION").
Proof.
  unfold failed_precondition. split.
  - destruct (Z.eqb_spec status 400) as [->|]; [|discriminate].
    intros H. split; [reflexivity|].
    destruct (py_in "error" t) as [[]| |] eqn:Hin; cbn [res_bind] in H; try discriminate.
    destruct (subscript t "error") as [err| |] eqn:Herr; cbn [res_bind] in H; try discriminate.
    exists err. split; [reflexivity|].
    destruct (py_in "status" err) as [[]| |] eqn:Hin'; cbn [res_bind] in H; try discriminate.
    destruct (subscript err "status") as [s| |] eqn:Hs; cbn [res_bind] in H; try discriminate.
    destruct s as [[| | | |s| | | | |]| | |]; try discriminate.
    injection H as H. apply String.eqb_eq in H. subst s. reflexivity.
  - intros (-> & err & Herr & Hs). cbn [Z.eqb Pos.eqb].
    apply subscript_val in Herr as (items & -> & Herr).
    apply subscript_val in Hs as (eitems & -> & Hs).
    rewrite !py_in_dict. unfold dict_has. rewrite Herr. cbn [res_bind subscript].
    rewrite Herr. cbn [res_bind]. rewrite py_in_dict. unfold dict_has. rewrite Hs.
    cbn [res_bind subscript]. rewrite Hs. reflexivity.
Qed.

(** What the [try] block of [update] does, case by case. *)
Lemma commit_outcome (fs : Firestore) (net : nat -> reply) (collection document : string)
    (existing : value) (snap update_time : pyval) (w : world) :
  commit fs net collection document existing snap update_time w
  = match dict_to_firestore snap false with
    | Val fields =>
        if String.eqb (id_token fs) "" then
          Ok (Return (false, ErrorOf (AssertionError "Database not enabled."), PStr "")) w
        else
          let w1 := World (heap w)
                      (trace w ++ [EPost (commit_url fs)
                                     (commit_document fs collection document fields
                                        update_time)]) in
          match net (length (requests_of (trace w))) with
          | NoReply e => Ok (Return (false, ErrorOf e, PStr "")) w1
          | Reply r =>
              match json r with
              | Val t =>
                  match failed_precondition (status_code r) t with
                  | Val true => Ok Continue w1
                  | Val false =>
                      match parse_result_update t existing with
                      | Val res => Ok (Return res) w1
                      | Exn e => Ok (Return (false, ErrorOf e, PStr "")) w1
                      | Undef => Stuck
                      end
                  | Exn e => Ok (Return (false, ErrorOf e, PStr "")) w1
                  | Undef => Stuck
                  end
              | Exn e => Ok (Return (false, ErrorOf e, PStr "")) w1
              | Undef => Stuck
              end
          end
    | Exn e => Ok (Return (false, ErrorOf e, PStr "")) w
    | Undef => Stuck
    end.
Proof.
  unfold commit, try_except, bind, build_headers, request.
  destruct (dict_to_firestore snap false) as [fields|e|]; cbn [of_res ret raise stuck];
    try reflexivity.
  destruct (String.eqb (id_token fs) ""); [reflexivity|].
  cbn [ret heap trace].
  destruct (net _) as [r|e]; [|reflexivity].
  destruct (json r) as [t|e|]; cbn [of_res ret raise stuck]; try reflexivity.
  destruct (failed_precondition (status_code r) t) as [[]|e|];
    cbn [of_res ret raise stuck]; try reflexivity.
  destruct (parse_result_update t existing); reflexivity.
Qed.

(** X12: the commit of a pass sends [update] round again in one case only:
    the request was sent and answered with HTTP status 400 and a JSON body
    whose [error.status] is FAILED_PRECONDITION.  Any other answer, and any
    exception, ends the call. *)
Theorem update_retries_only_on_failed_precondition
    (fs : Firestore) (net : nat -> reply) (collection document : string)
    (existing : value) (snap update_time : pyval) (w w' : world) :
  commit fs net collection document existing snap update_time w = Ok Continue w'
  <-> String.eqb (id_token fs) "" = false
      /\ exists fields r t err,
           dict_to_firestore snap false = Val fields
           /\ net (length (requests_of (trace w))) = Reply r
           /\ status_code r = 400%Z
           /\ json r = Val t
           /\ subscript t "error" = Val err
           /\ subscript err "status" = Val (PStr "FAILED_PRECONDITION")
           /\ w' = World (heap w)
                     (trace w ++ [EPost (commit_url fs)
                                    (commit_document fs collection document fields
                                       update_time)]).
Proof.
  rewrite commit_outcome. split.
  - destruct (dict_to_firestore snap false) as [fields|e|]; try discriminate.
    destruct (String.eqb (id_token fs) ""); [discriminate|].
    cbv zeta.
    destruct (net _) as [r|e]; [|discriminate].
    destruct (json r) as [t|e|] eqn:Hj; try discriminate.
    destruct (failed_precondition (status_code r) t) as [[]|e|] eqn:Hf; try discriminate.
    + intros [= <-]. apply failed_precondition_true in Hf as (Hs & err & Herr & Hst).
      split; [reflexivity|]. exists fields, r, t, err. repeat split; assumption.
    + destruct (parse_result_update t existing); discriminate.
  - intros (Htok & fields & r & t & err & Henc & Hnet & Hs & Hj & Herr & Hst & ->).
    rewrite Henc, Htok. cbv zeta. rewrite Hnet, Hj.
    assert (Hf : failed_precondition (status_code r) t = Val true)
      by (apply failed_precondition_true; eauto).
    rewrite Hf. reflexivity.
Qed.

(** *** The requests of a call of update *)

Lemma read_shape (fs : Firestore) (net : nat -> reply) (collection document : string)
    (w w1 : world) (success : bool) (x : data) (update_time : pyval) :
  read fs net collection document w = Ok (success, x, update_time) w1 ->
  trace w1 = trace w ++ [EGet (document_url fs (or_local_id fs collection)
                                            (or_local_id fs document))]
  \/ (success = false /\ trace w1 = trace w).
Proof.
  rewrite read_outcome.
  destruct (String.eqb (id_token fs) "").
  { intros H. inversion H. right. split; reflexivity. }
  cbv zeta.
  destruct (net _) as [r|e]; [|intros H; inversion H; left; reflexivity].
  destruct (json r) as [body|e|]; [| intros H; inversion H; left; reflexivity | discriminate].
  destruct (parse_result body (heap w)); [| | discriminate];
    intros H; inversion H; left; reflexivity.
Qed.

Lemma read_never_raises (fs : Firestore) (net : nat -> reply) (collection document : string) :
  never_raises (read fs net collection document).
Proof. apply try_except_returns. Qed.

Lemma commit_requests (fs : Firestore) (net : nat -> reply) (collection document : string)
    (existing : value) (snap update_time : pyval) (w : world) :
  match commit fs net collection document existing snap update_time w with
  | Ok Continue w' =>
      exists fields,
        trace w' = trace w ++ [EPost (commit_url fs)
                                 (commit_document fs collection document fields update_time)]
  | Ok (Return _) w' =>
      trace w' = trace w
      \/ exists fields,
           trace w' = trace w ++ [EPost (commit_url fs)
                                    (commit_document fs collection document fields
                                       update_time)]
  | Raise _ _ => False
  | Stuck => True
  end.
Proof.
  rewrite commit_outcome.
  destruct (dict_to_firestore snap false) as [fields|e|]; [| left; reflexivity | exact I].
  destruct (String.eqb (id_token fs) ""); [left; reflexivity|].
  cbv zeta.
  destruct (net _) as [r|e]; [|right; exists fields; reflexivity].
  destruct (json r) as [t|e|]; [| right; exists fields; reflexivity | exact I].
  destruct (failed_precondition (status_code r) t) as [[]|e|];
    [exists fields; reflexivity | | right; exists fields; reflexivity | exact I].
  destruct (parse_result_update t existing);
    [right; exists fields; reflexivity | right; exists fields; reflexivity | exact I].
Qed.

(** The requests of one pass. *)
Lemma attempt_body_requests (fs : Firestore) (net : nat -> reply) (fuel : nat)
    (collection document : string) (replace delete : value)
    (callback : option (value -> H unit)) (w : world) :
  let c := or_local_id fs collection in
  let d := or_local_id fs document in
  match attempt_body fs net fuel c d replace delete callback w with
  | Ok Continue w' => exists x, trace w' = trace w ++ read_and_commit fs c d x
  | Ok (Return _) w' => exists evs, trace w' = trace w ++ evs /\ last_pass fs c d evs
  | Raise _ w' => trace w' = trace w ++ [EGet (document_url fs c d)]
  | Stuck => True
  end.
Proof.
  intros c d. unfold attempt_body. unfold bind at 1.
  pose proof (read_never_raises fs net c d w) as Hnr.
  pose proof (read_shape fs net c d w) as Hshape.
  destruct (read fs net c d w) as [[[success x] update_time] w1|e w1|];
    [| exfalso; eapply Hnr; reflexivity | exact I].
  specialize (Hshape w1 success x update_time eq_refl).
  unfold c, d in Hshape. rewrite !or_local_id_twice in Hshape. fold c d in Hshape.
  destruct success.
  2:{ exists (drop (length (trace w)) (trace w1)).
      destruct Hshape as [-> | [_ ->]].
      - rewrite drop_app_length. split; [reflexivity|]. right; left; reflexivity.
      - rewrite drop_all. split; [rewrite app_nil_r; reflexivity|]. left; reflexivity. }
  destruct Hshape as [Ht | [Hs _]]; [|discriminate].
  destruct x as [existing| | |]; try exact I.
  unfold bind at 1, lift at 1.
  destruct (merge fuel existing replace delete callback (heap w1)) as [[] σ1|e σ1|];
    cbn [heap trace]; [| exact Ht | exact I].
  unfold bind at 1, lift at 1, read_tree. cbn [heap trace].
  destruct (snapshot fuel σ1 existing) as [snap|]; [|exact I].
  destruct (dict_size snap >? size_limit)%Z.
  { exists [EGet (document_url fs c d)]. split; [exact Ht|]. right; left; reflexivity. }
  pose proof (commit_requests fs net c d existing snap update_time (World σ1 (trace w1)))
    as Hc.
  destruct (commit _ _ _ _ _ _ _ _) as [[|res] w2|e w2|]; try exact I; try contradiction.
  - destruct Hc as (fields & Hc). exists (fields, update_time).
    rewrite Hc. cbn [trace]. rewrite Ht, <- app_assoc. reflexivity.
  - cbn [trace] in Hc. destruct Hc as [Hc | (fields & Hc)].
    + exists [EGet (document_url fs c d)]. rewrite Hc. split; [exact Ht|].
      right; left; reflexivity.
    + exists (read_and_commit fs c d (fields, update_time)).
      rewrite Hc, Ht, <- app_assoc. split; [reflexivity|].
      right; right. eexists; reflexivity.
Qed.

Lemma requests_of_last_pass (fs : Firestore) (collection document : string)
    (evs : list event) :
  last_pass fs collection document evs -> requests_of evs = evs.
Proof. intros [-> | [-> | (x & ->)]]; reflexivity. Qed.

Lemma update_loop_requests (fs : Firestore) (net : nat -> reply) (fuel : nat)
    (collection document : string) (replace delete : value)
    (callback : option (value -> H unit)) (n a : nat) (w : world) :
  (a <= 15)%nat ->
  let c := or_local_id fs collection in
  let d := or_local_id fs document in
  reads_then_commits fs c d a w
    (update_loop fs net fuel n c d replace delete callback (backoff_after a) (Z.of_nat a) w).
Proof.
  intros Ha c d. revert a w Ha.
  induction n as [|n IH]; intros a w Ha; cbn [update_loop]; [exact I|].
  unfold bind at 1, sleep at 1. cbv zeta.
  rewrite backoff_step, backoff_reaches_60 by lia.
  set (w1 := World (heap w) (trace w ++ [ESleep (backoff_after a)])).
  assert (Hw1 : requests_of (trace w1) = requests_of (trace w))
    by (cbn [trace w1]; rewrite requests_of_app; cbn; apply app_nil_r).
  destruct (Nat.leb_spec 16 (S a)) as [Hlast|Hmore].
  - exists [], []. rewrite Hw1. cbn [flat_map app length]. rewrite app_nil_r.
    split; [reflexivity|]. split; [left; reflexivity | lia].
  - pose proof (attempt_body_requests fs net fuel collection document replace delete
                  callback w1) as Hq.
    cbv zeta in Hq. fold c d in Hq.
    unfold bind.
    destruct (attempt_body _ _ _ _ _ _ _ _ w1) as [[|res] w2|e w2|]; try exact I.
    + destruct Hq as (x & Ht).
      replace (Z.of_nat a + 1)%Z with (Z.of_nat (S a)) by lia.
      specialize (IH (S a) w2 ltac:(lia)).
      assert (Hw2 : requests_of (trace w2)
                    = requests_of (trace w) ++ read_and_commit fs c d x)
        by (rewrite Ht, requests_of_app, Hw1; reflexivity).
      destruct (update_loop _ _ _ n _ _ _ _ _ _ _ w2) as [res w3|e w3|]; try exact I;
        destruct IH as (refused & last & Hreq & Hlast & Hcount);
        exists (x :: refused), last;
        (split; [rewrite Hreq, Hw2; cbn [flat_map]; rewrite <- !app_assoc; reflexivity|]);
        (split; [exact Hlast | cbn [length]; lia]).
    + destruct Hq as (evs & Ht & Hlast). exists [], evs.
      split; [|split; [exact Hlast | cbn [length]; destruct evs; lia]].
      rewrite Ht, requests_of_app, Hw1, (requests_of_last_pass _ _ _ _ Hlast).
      reflexivity.
    + exists [], [EGet (document_url fs c d)].
      split; [|split; [right; left; reflexivity | cbn [length]; lia]].
      rewrite Hq, requests_of_app, Hw1. reflexivity.
Qed.

Lemma flat_map_length_2 {A B : Type} (f : A -> list B) (l : list A) :
  (forall x, length (f x) = 2%nat) -> length (flat_map f l) = (2 * length l)%nat.
Proof.
  intros Hf. induction l as [|x l IH]; [reflexivity|].
  cbn [flat_map length]. rewrite length_app, Hf, IH. lia.
Qed.

(** X13: the requests of a call of [update], whatever the transport
    answers.  Every pass but the last sends the GET of the document and
    then the POST of its commit; the last pass sends nothing, the GET
    alone, or both.  A commit is never sent without the read before it, at
    most 15 passes send requests, and so the call sends at most 30
    requests. *)
Theorem update_reads_then_commits (fs : Firestore) (net : nat -> reply) (fuel : nat)
    (collection document : string) (replace delete : value)
    (callback : option (value -> H unit)) (w : world) :
  let o := update fs net fuel collection document replace delete callback w in
  reads_then_commits fs (or_local_id fs collection) (or_local_id fs document) 0 w o
  /\ match o with
     | Ok _ w' | Raise _ w' =>
         (length (requests_of (trace w')) <= length (requests_of (trace w)) + 30)%nat
     | Stuck => True
     end.
Proof.
  intros o.
  assert (Hrun : reads_then_commits fs (or_local_id fs collection) (or_local_id fs document)
                   0 w o)
    by (apply (update_loop_requests fs net fuel collection document replace delete callback
                 fuel 0 w); lia).
  split; [exact Hrun|].
  assert (Hbound : forall w',
             (exists refused last,
                requests_of (trace w')
                = requests_of (trace w)
                  ++ flat_map (read_and_commit fs (or_local_id fs collection)
                                 (or_local_id fs document)) refused ++ last
                /\ last_pass fs (or_local_id fs collection) (or_local_id fs document) last
                /\ (0 + length refused + (match last with [] => 0 | _ => 1 end) <= 15)%nat) ->
             (length (requests_of (trace w')) <= length (requests_of (trace w)) + 30)%nat).
  { intros w' (refused & last & Hreq & Hlast & Hcount).
    rewrite Hreq, !length_app, (flat_map_length_2 _ refused) by reflexivity.
    destruct Hlast as [-> | [-> | (x & ->)]]; unfold read_and_commit in *;
      cbn [length] in *; lia. }
  unfold reads_then_commits in Hrun.
  destruct o as [res w'|e w'|]; [apply Hbound, Hrun | apply Hbound, Hrun | exact I].
Qed.

(** *** A database that is not enabled *)

Lemma enable_database_without_ids (fs0 fs : Firestore) (auth : pyval) :
  has_ids auth = false ->
  enable_database fs0 auth = Val fs ->
  local_id fs = "" /\ id_token fs = "".
Proof.
  intros Hids. unfold enable_database. rewrite Hids.
  destruct auth as [[]| | |]; try discriminate; intros [= <-]; split; reflexivity.
Qed.

(** X14: after [enable_database] with an argument that is no dict with
    the keys [localId] and [idToken] ([None], an error text, a dict that
    lacks one of them), no operation sends a request.  [read] and [delete]
    return the error of the assertion in [build_headers] and leave the
    world as it was, [update] returns it after its opening sleep, and
    [create] fails without exception. *)
Theorem operations_need_enabled_database
    (fs0 fs : Firestore) (auth : pyval) (net : nat -> reply) (fuel : nat)
    (collection document : string) (data replace remove : value)
    (callback : option (value -> H unit)) (w : world) :
  has_ids auth = false ->
  enable_database fs0 auth = Val fs ->
  read fs net collection document w = Ok not_enabled w
  /\ delete fs net collection document w = Ok not_enabled w
  /\ update fs net (S fuel) collection document replace remove callback w
     = Ok not_enabled (World (heap w) (trace w ++ [ESleep (NInt 0)]))
  /\ match create fs net fuel collection document data w with
     | Ok (success, _, _) w' => success = false /\ w' = w
     | Raise _ _ => False
     | Stuck => True
     end.
Proof.
  intros Hids Hen.
  destruct (enable_database_without_ids fs0 fs auth Hids Hen) as [_ Htok].
  assert (Hread : forall c d w0, read fs net c d w0 = Ok not_enabled w0).
  { intros c d w0. rewrite read_outcome, Htok. reflexivity. }
  split; [apply Hread|]. split; [|split].
  - unfold delete, try_except, bind, build_headers. rewrite Htok. reflexivity.
  - unfold update. rewrite update_loop_early by lia.
    unfold attempt_body. rewrite (bind_ok _ _ _ _ _ (Hread _ _ _)). reflexivity.
  - unfold create, bind, lift, read_tree.
    destruct (snapshot fuel (heap w) data) as [snap|]; [|exact I].
    destruct w as [σ t]. cbn [heap trace].
    destruct (dict_size snap >? size_limit)%Z; [split; reflexivity|].
    unfold try_except, build_headers. rewrite Htok.
    destruct (dict_to_firestore snap false); cbn [of_res ret raise stuck];
      [split; reflexivity | split; reflexivity | exact I].
Qed.

(** X15: [delete] decides by the HTTP status alone: an answer with status
    200 is a success whatever its body is, read or not, and the document
    returned is a new empty dict. *)
Theorem delete_succeeds_on_status_200
    (fs : Firestore) (net : nat -> reply) (collection document : string)
    (w : world) (r : response) :
  String.eqb (id_token fs) "" = false ->
  net (length (requests_of (trace w))) = Reply r ->
  status_code r = 200%Z ->
  delete fs net collection document w
  = Ok (true, Doc (VRef (length (heap w))), PStr "")
       (World (heap w ++ [ODict []])
          (trace w ++ [EDelete (document_url fs (or_local_id fs collection)
                                             (or_local_id fs document))])).
Proof.
  intros Htok Hnet Hs.
  unfold delete, try_except, bind, build_headers, request, lift, alloc, document_url.
  rewrite Htok. cbn [ret heap trace]. rewrite Hnet, Hs. reflexivity.
Qed.

(** *** The answer to a commit *)

(** X16: the success of [update].  [parse_result_update] reports success
    exactly when the answer to the commit is a dict whose [writeResults]
    starts with a dict that has an [updateTime]; it then returns the
    document it was given, the merged one, not a document of the answer,
    and that time. *)
Theorem parse_result_update_success (t : pyval) (existing : value) (x : data)
    (update_time : pyval) :
  parse_result_update t existing = Val (true, x, update_time)
  <-> exists results first,
        subscript t "writeResults" = Val results
        /\ subscript0 results = Val first
        /\ subscript first "updateTime" = Val update_time
        /\ x = Doc existing.
Proof.
  unfold parse_result_update. split.
  - assert (Herr : parse_error t <> Val (true, x, update_time)).
    { unfold parse_error.
      destruct (py_in "error" t) as [[]| |]; cbn [res_bind]; try discriminate.
      destruct (subscript t "error") as [err| |]; cbn [res_bind]; try discriminate.
      destruct (py_in "message" err) as [[]| |]; cbn [res_bind]; try discriminate.
      destruct (subscript err "message") as [msg| |]; cbn [res_bind]; try discriminate.
      destruct (error_text msg); cbn [res_bind]; discriminate. }
    destruct (py_in "writeResults" t) as [[]| |]; cbn [res_bind]; try discriminate;
      [|intros H; contradiction].
    destruct (subscript t "writeResults") as [results| |] eqn:Hr; cbn [res_bind];
      try discriminate.
    destruct (subscript0 results) as [first| |] eqn:Hf; cbn [res_bind]; try discriminate.
    destruct (py_in "updateTime" first) as [[]| |]; cbn [res_bind]; try discriminate;
      [|intros H; contradiction].
    destruct (subscript first "updateTime") as [ut| |] eqn:Ht; cbn [res_bind];
      try discriminate.
    intros [= <- <-]. exists results, first. auto.
  - intros (results & first & Hr & Hf & Ht & ->).
    pose proof Hr as Hr'. apply subscript_val in Hr' as (items & -> & Hget).
    pose proof Ht as Ht'. apply subscript_val in Ht' as (fitems & -> & Hgett).
    rewrite py_in_dict. unfold dict_has at 1. rewrite Hget. cbn [res_bind].
    rewrite Hr. cbn [res_bind]. rewrite Hf. cbn [res_bind].
    rewrite py_in_dict. unfold dict_has at 1. rewrite Hgett. cbn [res_bind].
    rewrite Ht. reflexivity.
Qed.

(** *** Where an exception can leave update *)

Lemma attempt_body_raises (fs : Firestore) (net : nat -> reply) (fuel : nat)
    (collection document : string) (replace remove : value)
    (callback : option (value -> H unit)) (w w' : world) (e : exn) :
  attempt_body fs net fuel collection document replace remove callback w = Raise e w' ->
  exists existing σ,
    merge fuel existing replace remove callback σ = Raise e (heap w')
    /\ trace w' = trace w ++ [EGet (document_url fs (or_local_id fs collection)
                                                 (or_local_id fs document))].
Proof.
  unfold attempt_body. unfold bind at 1.
  pose proof (read_never_raises fs net collection document w) as Hnr.
  pose proof (read_shape fs net collection document w) as Hshape.
  destruct (read fs net collection document w) as [[[success x] update_time] w1|e1 w1|];
    [| intros _; exfalso; eapply Hnr; reflexivity | discriminate].
  specialize (Hshape w1 success x update_time eq_refl).
  destruct success; [|discriminate].
  destruct Hshape as [Ht | [Hs _]]; [|discriminate].
  destruct x as [existing| | |]; try discriminate.
  unfold bind at 1, lift at 1.
  destruct (merge fuel existing replace remove callback (heap w1)) as [[] σ1|e1 σ1|] eqn:Hm;
    cbn [heap trace]; [| | discriminate].
  - unfold bind at 1, lift at 1, read_tree. cbn [heap trace].
    destruct (snapshot fuel σ1 existing) as [snap|]; [|discriminate].
    destruct (dict_size snap >? size_limit)%Z; [discriminate|].
    pose proof (commit_requests fs net collection document existing snap update_time
                  (World σ1 (trace w1))) as Hc.
    destruct (commit _ _ _ _ _ _ _ _) as [[|res] w2|e2 w2|]; try discriminate.
    contradiction.
  - intros [= <- <-]. exists existing, (heap w1). cbn [heap trace]. split; assumption.
Qed.

Lemma update_loop_raises (fs : Firestore) (net : nat -> reply) (fuel : nat)
    (collection document : string) (replace remove : value)
    (callback : option (value -> H unit)) (n : nat) (backoff : num) (attempt : Z)
    (w w' : world) (e : exn) :
  update_loop fs net fuel n collection document replace remove callback backoff attempt w
  = Raise e w' ->
  exists existing σ t,
    merge fuel existing replace remove callback σ = Raise e (heap w')
    /\ trace w' = t ++ [EGet (document_url fs (or_local_id fs collection)
                                           (or_local_id fs document))].
Proof.
  revert backoff attempt w. induction n as [|n IH]; intros backoff attempt w;
    cbn [update_loop]; [discriminate|].
  unfold bind at 1, sleep at 1. cbv zeta.
  destruct (num_ge _ (NInt 60)); [discriminate|].
  unfold bind.
  destruct (attempt_body _ _ _ _ _ _ _ _ _) as [[|res] w2|e2 w2|] eqn:Hpass;
    try discriminate.
  - apply IH.
  - intros [= <- <-].
    apply attempt_body_raises in Hpass as (existing & σ & Hm & Ht).
    exists existing, σ. eexists. split; [exact Hm | exact Ht].
Qed.

(** X17: an exception leaves [update] only out of the merge step.  When a
    call of [update] raises, the exception was raised by [dict_replace],
    [dict_pop] or the callback on the document just read, and the GET of
    that pass is the last thing the call did: a failure of the transport,
    of JSON, of the codec or of an assertion never leaves [update]. *)
Theorem update_raises_only_from_merge (fs : Firestore) (net : nat -> reply) (fuel : nat)
    (collection document : string) (replace remove : value)
    (callback : option (value -> H unit)) (w w' : world) (e : exn) :
  update fs net fuel collection document replace remove callback w = Raise e w' ->
  exists existing σ t,
    merge fuel existing replace remove callback σ = Raise e (heap w')
    /\ trace w' = t ++ [EGet (document_url fs (or_local_id fs collection)
                                           (or_local_id fs document))].
Proof.
  unfold update. intros Hrun.
  apply update_loop_raises in Hrun as (existing & σ & t & Hm & Ht).
  rewrite !or_local_id_twice in Ht.
  exists existing, σ, t. split; assumption.
Qed.

(** *** Error texts *)

Lemma parse_error_message (r err : pyval) (m : string) :
  subscript r "error" = Val err ->
  subscript err "message" = Val (PStr m) ->
  parse_error r = Val (false, Error ("ERROR: " +:+ m), PStr "").
Proof.
  intros Herr Hm.
  pose proof Herr as Herr'. apply subscript_val in Herr' as (items & -> & Hget).
  pose proof Hm as Hm'. apply subscript_val in Hm' as (eitems & -> & Hgetm).
  unfold parse_error.
  rewrite py_in_dict. unfold dict_has at 1. rewrite Hget. cbn [res_bind].
  rewrite Herr. cbn [res_bind].
  rewrite py_in_dict. unfold dict_has at 1. rewrite Hgetm. cbn [res_bind].
  rewrite Hm. reflexivity.
Qed.

(** X18: the error of the service reaches the caller.  When the answer to
    the GET is a JSON object without [fields] whose [error.message] is a
    text, [read] returns [(False, 'ERROR: ' + message, '')], whatever the
    HTTP status is, and builds no object. *)
Theorem read_reports_the_error_message
    (fs : Firestore) (net : nat -> reply) (collection document : string)
    (w : world) (r : response) (items : list (string * pyval)) (err : pyval) (m : string) :
  String.eqb (id_token fs) "" = false ->
  net (length (requests_of (trace w))) = Reply r ->
  json r = Val (PDict items) ->
  dict_has items "fields" = false ->
  dict_get items "error" = Some err ->
  subscript err "message" = Val (PStr m) ->
  read fs net collection document w
  = Ok (false, Error ("ERROR: " +:+ m), PStr "")
       (World (heap w)
          (trace w ++ [EGet (document_url fs (or_local_id fs collection)
                                          (or_local_id fs document))])).
Proof.
  intros Htok Hnet Hjson Hfields Herr Hm.
  rewrite read_outcome, Htok. cbv zeta. rewrite Hnet, Hjson.
  assert (Hparse : parse_result (PDict items) (heap w)
                   = Ok (false, Error ("ERROR: " +:+ m), PStr "") (heap w)).
  { unfold parse_result. rewrite py_in_dict, Hfields. cbn [of_res].
    rewrite (bind_ok _ _ _ _ false eq_refl).
    rewrite (parse_error_message (PDict items) err m); [reflexivity | | exact Hm].
    cbn [subscript]. rewrite Herr. reflexivity. }
  rewrite Hparse. reflexivity.
Qed.

(** ** Authorize *)

Lemma Authorize_parse_result_success (r : response) (x : auth_data) :
  Authorize_parse_result r = Val (true, x)
  <-> status_code r = 200%Z /\ exists d, json r = Val d /\ x = Account d.
Proof.
  unfold Authorize_parse_result. split.
  - destruct (json r) as [d| |]; cbn [res_bind]; try discriminate.
    destruct (Z.eqb_spec (status_code r) 200) as [Hs|Hs].
    + intros [= <-]. eauto.
    + destruct (py_in "error" d) as [[]| |]; cbn [res_bind]; try discriminate.
      * destruct (subscript d "error") as [err| |]; cbn [res_bind]; try discriminate.
        destruct (py_in "message" err) as [[]| |]; cbn [res_bind]; try discriminate.
        destruct (subscript err "message") as [msg| |]; cbn [res_bind]; try discriminate.
        destruct (error_message msg); cbn [res_bind]; discriminate.
  - intros (Hs & d & Hj & ->). rewrite Hj, Hs. reflexivity.
Qed.

(** The [try] block the methods share: one POST, and the answer parsed. *)
Lemma post_and_parse (net : nat -> reply) (url : string) (payload : pyval) (w : world) :
  answered net url payload w
    (try_except
       (let! r := request net (EPost url payload) in
        of_res (Authorize_parse_result r))
       (fun e => ret (false, FailureOf e)) w).
Proof.
  unfold try_except, bind, request.
  destruct (net (length (requests_of (trace w)))) as [r|e] eqn:Hnet.
  - destruct (Authorize_parse_result r) as [[success x]|e|] eqn:Hp;
      cbn [of_res ret raise stuck answered].
    + split; [reflexivity|]. split.
      * intros ->. apply Authorize_parse_result_success in Hp as (Hs & d & Hj & ->).
        exists r, d. auto.
      * intros (r' & d & Hr & Hs & Hj & ->).
        assert (r' = r) as -> by congruence.
        assert (Hp' : Authorize_parse_result r = Val (true, Account d))
          by (apply Authorize_parse_result_success; eauto).
        congruence.
    + split; [reflexivity|]. split; [discriminate|].
      intros (r' & d & Hr & Hs & Hj & _).
      assert (r' = r) as -> by congruence.
      assert (Hp' : Authorize_parse_result r = Val (true, Account d))
        by (apply Authorize_parse_result_success; eauto).
      congruence.
    + exists r. auto.
  - unfold ret. cbn [answered]. split; [reflexivity|]. split; [discriminate|].
    intros (r & d & Hr & _). congruence.
Qed.

(** X19: with an e-mail address and a password that JSON can carry,
    [sign_in_with_email] and [create_user_with_email] send exactly one
    POST, to [verifyPassword] and to [signupNewUser] with the API key, with
    the credentials as its body; they never raise, a failure of the
    transport included, and they report success exactly when the answer
    has status 200, handing on its JSON body. *)
Theorem sign_in_succeeds_on_status_200
    (a : Authorize) (net : nat -> reply) (email password : pyval) (w : world) :
  json_serializable (credentials email password) = true ->
  answered net (verify_url a) (credentials email password) w
    (sign_in_with_email a net email password w)
  /\ answered net (signup_url a) (credentials email password) w
       (create_user_with_email a net email password w).
Proof.
  intros Hjs.
  unfold sign_in_with_email, create_user_with_email, json_dumps. rewrite Hjs.
  split; unfold bind at 1; cbn [of_res ret]; apply post_and_parse.
Qed.

(** X20: [json.dumps] runs before the [try] of each method of [Authorize]:
    an argument JSON cannot carry ([bytes], an instance of a class) makes
    the method raise [TypeError] instead of returning an error, before any
    request. *)
Theorem Authorize_raises_on_unserializable_argument
    (a : Authorize) (net : nat -> reply) (v other : pyval) (w : world) :
  json_serializable v = false ->
  create_user_with_email a net v other w = Raise TypeError w
  /\ create_user_with_email a net other v w = Raise TypeError w
  /\ sign_in_with_email a net v other w = Raise TypeError w
  /\ sign_in_with_email a net other v w = Raise TypeError w
  /\ sign_in_with_token a net v w = Raise TypeError w
  /\ delete_user a net (PDict [("idToken", v)]) w = Raise TypeError w.
Proof.
  intros Hv.
  assert (H1 : json_dumps (credentials v other) = Exn TypeError).
  { unfold json_dumps. cbn [json_serializable credentials forallb snd]. rewrite Hv.
    reflexivity. }
  assert (H2 : json_dumps (credentials other v) = Exn TypeError).
  { unfold json_dumps. cbn [json_serializable credentials forallb snd]. rewrite Hv.
    rewrite andb_false_r. reflexivity. }
  unfold create_user_with_email, sign_in_with_email, sign_in_with_token, delete_user.
  rewrite H1, H2. repeat split; try reflexivity.
  - unfold json_dumps. cbn [json_serializable forallb snd PStr]. rewrite Hv. reflexivity.
  - cbn [has_id_token py_bool andb]. unfold dict_has. cbn [dict_get String.eqb Ascii.eqb Bool.eqb].
    cbn [subscript dict_get String.eqb Ascii.eqb Bool.eqb of_res].
    unfold bind at 1, ret at 1.
    unfold json_dumps. cbn [json_serializable forallb snd]. rewrite Hv. reflexivity.
Qed.

Lemma sign_in_with_token_answer
    (a : Authorize) (net : nat -> reply) (refresh_token : pyval) (w : world)
    (r : response) (d : pyval) :
  json_serializable refresh_token = true ->
  net (length (requests_of (trace w))) = Reply r ->
  status_code r = 200%Z ->
  json r = Val d ->
  sign_in_with_token a net refresh_token w
  = let w1 := World (heap w)
                (trace w ++ [EPost (token_url a)
                               (PDict [("grantType", PStr "refresh_token");
                                       ("refreshToken", refresh_token)])]) in
    match
      (let* user_id := subscript d "user_id" in
       let* id_token := subscript d "id_token" in
       let* refresh_token := subscript d "refresh_token" in
       Val (PDict [("localId", user_id); ("idToken", id_token);
                   ("refreshToken", refresh_token)]))
    with
    | Val auth => Ok (true, Account auth) w1
    | Exn e => Ok (false, FailureOf e) w1
    | Undef => Stuck
    end.
Proof.
  intros Hjs Hnet Hs Hj.
  assert (Hp : Authorize_parse_result r = Val (true, Account d))
    by (unfold Authorize_parse_result; rewrite Hj, Hs; reflexivity).
  unfold sign_in_with_token, json_dumps.
  cbn [json_serializable forallb snd PStr]. rewrite Hjs. cbn [andb of_res].
  unfold bind at 1, ret at 1.
  unfold try_except, bind, request. rewrite Hnet, Hp. cbn [of_res ret].
  destruct (subscript d "user_id"); cbn [of_res ret raise stuck res_bind]; try reflexivity.
  destruct (subscript d "id_token"); cbn [of_res ret raise stuck res_bind]; try reflexivity.
  destruct (subscript d "refresh_token"); cbn [of_res ret raise stuck res_bind]; reflexivity.
Qed.

(** X21: [sign_in_with_token] turns an answer of the token service (status
    200, with [user_id], [id_token] and [refresh_token]) into the shape the
    sign-in by password returns: [localId], [idToken], [refreshToken].
    [enable_database] takes that result: it sets the object's [local_id]
    to the [user_id] and its [id_token] to the [id_token] of the answer. *)
Theorem sign_in_with_token_enables_database
    (a : Authorize) (net : nat -> reply) (fs : Firestore) (refresh_token : pyval) (w : world)
    (r : response) (d new_token : pyval) (user token : string) :
  json_serializable refresh_token = true ->
  net (length (requests_of (trace w))) = Reply r ->
  status_code r = 200%Z ->
  json r = Val d ->
  subscript d "user_id" = Val (PStr user) ->
  subscript d "id_token" = Val (PStr token) ->
  subscript d "refresh_token" = Val new_token ->
  let auth := PDict [("localId", PStr user); ("idToken", PStr token);
                     ("refreshToken", new_token)] in
  sign_in_with_token a net refresh_token w
  = Ok (true, Account auth)
       (World (heap w)
          (trace w ++ [EPost (token_url a)
                         (PDict [("grantType", PStr "refresh_token");
                                 ("refreshToken", refresh_token)])]))
  /\ enable_database fs auth
     = Val {| project_id := project_id fs; local_id := user; id_token := token |}.
Proof.
  intros Hjs Hnet Hs Hj Hu Ht Hr auth. split.
  - rewrite (sign_in_with_token_answer a net refresh_token w r d Hjs Hnet Hs Hj).
    rewrite Hu, Ht, Hr. reflexivity.
  - reflexivity.
Qed.

(** X22: when the token service answers with status 200 but its body is a
    dict that lacks one of [user_id], [id_token] and [refresh_token],
    [sign_in_with_token] does not raise and does not report success: it
    returns the failure with the [KeyError] of the first key that is
    missing. *)
Theorem sign_in_with_token_incomplete_answer
    (a : Authorize) (net : nat -> reply) (refresh_token : pyval) (w : world)
    (r : response) (items : list (string * pyval)) (key : string) :
  json_serializable refresh_token = true ->
  net (length (requests_of (trace w))) = Reply r ->
  status_code r = 200%Z ->
  json r = Val (PDict items) ->
  missing_key items = Some key ->
  sign_in_with_token a net refresh_token w
  = Ok (false, FailureOf (KeyError key))
       (World (heap w)
          (trace w ++ [EPost (token_url a)
                         (PDict [("grantType", PStr "refresh_token");
                                 ("refreshToken", refresh_token)])])).
Proof.
  intros Hjs Hnet Hs Hj Hkey.
  rewrite (sign_in_with_token_answer a net refresh_token w r _ Hjs Hnet Hs Hj).
  unfold missing_key in Hkey. cbn [find] in Hkey. unfold dict_has in Hkey.
  cbn [subscript].
  destruct (dict_get items "user_id"); cbn [negb] in Hkey;
    [|injection Hkey as <-; reflexivity].
  destruct (dict_get items "id_token"); cbn [negb] in Hkey;
    [|injection Hkey as <-; reflexivity].
  destruct (dict_get items "refresh_token"); cbn [negb] in Hkey;
    [discriminate | injection Hkey as <-; reflexivity].
Qed.

(** X23: [delete_user] sends its request only for a non-empty dict with
    the key [idToken]: for any other argument ([None], an error text, a
    dict without the key) it returns the error about its argument and
    sends nothing.  With such a dict and a token JSON can carry, it sends
    one POST with the token alone to [deleteAccount], and succeeds exactly
    on status 200. *)
Theorem delete_user_checks_its_argument
    (a : Authorize) (net : nat -> reply) (response : pyval) (w : world) :
  (forall ty, response <> PScalar (SOther ty)) ->
  if has_id_token response then
    forall token,
      subscript response "idToken" = Val token ->
      json_serializable token = true ->
      answered net (delete_account_url a) (PDict [("idToken", token)]) w
        (delete_user a net response w)
  else
    delete_user a net response w
    = Ok (false, Failure "ERROR: delete_user(), incorrect argument.") w.
Proof.
  intros Hother.
  assert (Hrun : delete_user a net response w
                 = (if has_id_token response then
                      let! id_token := of_res (subscript response "idToken") in
                      let! payload := of_res (json_dumps (PDict [("idToken", id_token)])) in
                      try_except
                        (let! r := request net (EPost (delete_account_url a) payload) in
                         of_res (Authorize_parse_result r))
                        (fun e => ret (false, FailureOf e))
                    else ret (false, Failure "ERROR: delete_user(), incorrect argument.")) w).
  { unfold delete_user. destruct response as [[]| | |]; try reflexivity.
    exfalso. eapply Hother. reflexivity. }
  rewrite Hrun. destruct (has_id_token response); [|reflexivity].
  intros token Ht Hjs. rewrite Ht. cbn [of_res]. unfold bind at 1, ret at 1.
  unfold json_dumps. cbn [json_serializable forallb snd]. rewrite Hjs. cbn [andb of_res].
  unfold bind at 1, ret at 1. apply post_and_parse.
Qed.

(** X24: the error of the identity service reaches the caller.  When the
    answer to a sign-in has another status than 200 and is a JSON object
    whose [error.message] is a text, [sign_in_with_email] and
    [create_user_with_email] return [(False, 'ERROR: ' + message)]. *)
Theorem sign_in_reports_the_error_message
    (a : Authorize) (net : nat -> reply) (email password : pyval) (w : world)
    (r : response) (d err : pyval) (m : string) :
  json_serializable (credentials email password) = true ->
  net (length (requests_of (trace w))) = Reply r ->
  status_code r <> 200%Z ->
  json r = Val d ->
  subscript d "error" = Val err ->
  subscript err "message" = Val (PStr m) ->
  sign_in_with_email a net email password w
  = Ok (false, Failure ("ERROR: " +:+ m))
       (World (heap w) (trace w ++ [EPost (verify_url a) (credentials email password)]))
  /\ create_user_with_email a net email password w
     = Ok (false, Failure ("ERROR: " +:+ m))
          (World (heap w) (trace w ++ [EPost (signup_url a) (credentials email password)])).
Proof.
  intros Hjs Hnet Hs Hj Herr Hm.
  assert (Hp : Authorize_parse_result r = Val (false, Failure ("ERROR: " +:+ m))).
  { unfold Authorize_parse_result. rewrite Hj. cbn [res_bind].
    destruct (Z.eqb_spec (status_code r) 200) as [|_]; [contradiction|].
    pose proof Herr as Herr'. apply subscript_val in Herr' as (items & -> & Hget).
    pose proof Hm as Hm'. apply subscript_val in Hm' as (eitems & -> & Hgetm).
    rewrite py_in_dict. unfold dict_has at 1. rewrite Hget. cbn [res_bind].
    rewrite Herr. cbn [res_bind].
    rewrite py_in_dict. unfold dict_has at 1. rewrite Hgetm. cbn [res_bind].
    rewrite Hm. reflexivity. }
  unfold sign_in_with_email, create_user_with_email, json_dumps. rewrite Hjs.
  split; unfold bind at 1; cbn [of_res ret];
    unfold try_except, bind, request; rewrite Hnet, Hp; reflexivity.
Qed.

(** ** The codec *)

Lemma settled_bound (bound : Z) :
  0 <= bound -> settled bound (NInt (- bound)) = true /\ settled bound (NInt bound) = true.
Proof.
  intros Hb. unfold settled, num_gt. rewrite !num_lt_int.
  rewrite !Z.ltb_irrefl.
  destruct (Z.ltb_spec bound (- bound)); [lia|].
  split; reflexivity.
Qed.

Lemma clamp_settled (bound : Z) (x : num) :
  0 <= bound -> settled bound (clamp bound x) = true.
Proof.
  intros Hb. destruct (settled_bound bound Hb) as [Hlo Hhi].
  unfold clamp.
  destruct (num_lt x (NInt (- bound))) eqn:E1; [exact Hlo|].
  destruct (num_gt x (NInt bound)) eqn:E2; [exact Hhi|].
  unfold settled. rewrite E1, E2. reflexivity.
Qed.

(** X25: clamping is idempotent, and so every [GeoPoint] the constructor
    builds, from any two arguments, survives the codec: building it again
    from its own fields gives the same point, and the decoder, which does
    so, returns the point that was encoded.  This holds for a NaN field as
    well. *)
Theorem GeoPoint_survives_codec (latitude longitude : pyval) (ref : string) :
  let la := clamp 90 (numeric_or_zero latitude) in
  let lo := clamp 180 (numeric_or_zero longitude) in
  GeoPoint latitude longitude = SGeoPoint la lo
  /\ GeoPoint (PScalar (num_val la)) (PScalar (num_val lo)) = SGeoPoint la lo
  /\ map_scalar ref (SGeoPoint la lo)
     = Val (PDict [("geoPointValue",
                    PDict [("latitude", PScalar (num_val la));
                           ("longitude", PScalar (num_val lo))])])
  /\ dict_from_firestore
       (PDict [("geoPointValue",
                PDict [("latitude", PScalar (num_val la));
                       ("longitude", PScalar (num_val lo))])])
     = Val (PScalar (GeoPoint latitude longitude)).
Proof.
  intros la lo.
  assert (Hbuild : GeoPoint latitude longitude = SGeoPoint la lo).
  { unfold GeoPoint. fold (numeric_or_zero latitude) (numeric_or_zero longitude).
    rewrite (py_clamp_piecewise 90), (py_clamp_piecewise 180) by lia. reflexivity. }
  assert (Hagain : GeoPoint (PScalar (num_val la)) (PScalar (num_val lo)) = SGeoPoint la lo).
  { unfold GeoPoint. rewrite !as_num_val.
    rewrite (settled_fixed 90), (settled_fixed 180)
      by (apply clamp_settled; lia).
    reflexivity. }
  split; [exact Hbuild|]. split; [exact Hagain|]. split; [reflexivity|].
  rewrite Hbuild, <- Hagain. reflexivity.
Qed.

(** *** The domain of the encoder *)

Lemma encode_array_exactly (items : list pyval) :
  Forall encodes_exactly items ->
  forall i acc,
    match encode_array (map_value dict_to_firestore true) items i acc with
    | Val _ => forallb (encodable true) items = true
    | Exn _ => forallb (encodable true) items = false
    | Undef => False
    end.
Proof.
  induction 1 as [|v rest Hv _ IH]; intros i acc; cbn [encode_array forallb].
  - reflexivity.
  - specialize (Hv true ("List Index [" +:+ str_of_int i +:+ "] ")).
    destruct (map_value _ _ _ v) as [n| |]; cbn [res_bind].
    + rewrite Hv. specialize (IH (i + 1) (acc ++ [n])).
      destruct (encode_array _ rest _ _); exact IH.
    + rewrite Hv. reflexivity.
    + exact Hv.
Qed.

Lemma encode_fields_exactly (items : list (string * pyval)) :
  Forall (fun kv => encodes_exactly (snd kv)) items ->
  forall acc,
    match encode_fields (map_value dict_to_firestore false) items acc with
    | Val _ => forallb (fun kv => encodable false (snd kv)) items = true
    | Exn _ => forallb (fun kv => encodable false (snd kv)) items = false
    | Undef => False
    end.
Proof.
  induction 1 as [|[k v] rest Hv _ IH]; intros acc; cbn [encode_fields forallb snd].
  - reflexivity.
  - specialize (Hv false ("Key " +:+ dquote +:+ k +:+ dquote +:+ " ")). cbn [snd] in Hv.
    destruct (map_value _ _ _ v) as [n| |]; cbn [res_bind].
    + rewrite Hv. specialize (IH (dict_set acc k n)).
      destruct (encode_fields _ rest _); exact IH.
    + rewrite Hv. reflexivity.
    + exact Hv.
Qed.

Lemma map_value_encodes_exactly (v : pyval) : encodes_exactly v.
Proof.
  induction v as [s|items _|items IH|items IH] using pyval_nested_ind;
    intros flag ref; cbn [map_value encodable].
  - destruct s; cbn [map_scalar encodable_scalar]; try reflexivity.
    + unfold bytes_decode. destruct (valid_utf8 b); reflexivity.
    + destruct (listed_builtin _); reflexivity.
  - reflexivity.
  - destruct flag; [reflexivity|]. cbn [dict_to_firestore negb andb].
    pose proof (encode_array_exactly items IH 0 []) as Hloop.
    destruct (encode_array _ items 0 []); cbn [res_bind]; exact Hloop.
  - cbn [dict_to_firestore].
    pose proof (encode_fields_exactly items IH []) as Hloop.
    destruct (encode_fields _ items []); cbn [res_bind]; exact Hloop.
Qed.

(** X26: the domain of the encoder.  [dict_to_firestore] on a document
    returns its wire form exactly when every value in it is [None], a
    [bool], an [int], a [float], a [str], [bytes] that hold UTF-8, a
    [GeoPoint], [TimeStamp] or [Reference], a dict of such values, or a
    list of them that is no element of a list.  On any other document (a
    tuple, an instance of another class, other bytes, a list in a list) it
    raises: it never returns a part of the document. *)
Theorem dict_to_firestore_domain (items : list (string * pyval)) :
  match dict_to_firestore (PDict items) false with
  | Val _ => encodable false (PDict items) = true
  | Exn _ => encodable false (PDict items) = false
  | Undef => False
  end.
Proof.
  pose proof (map_value_encodes_exactly (PDict items) false "") as H.
  cbn [map_value] in H.
  destruct (dict_to_firestore (PDict items) false); cbn [res_bind] in H; exact H.
Qed.

(** *** Documents read back *)

Lemma alloc_tree_list (items : list pyval) :
  alloc_tree (PList items) = (let! vs := alloc_each items in alloc (OList vs)).
Proof. reflexivity. Qed.

Lemma alloc_tree_tuple (items : list pyval) :
  alloc_tree (PTuple items) = (let! vs := alloc_each items in ret (VTuple vs)).
Proof. reflexivity. Qed.

Lemma alloc_tree_dict (items : list (string * pyval)) :
  alloc_tree (PDict items) = (let! vs := alloc_each_item items in alloc (ODict vs)).
Proof. reflexivity. Qed.

Lemma snapshot_list (n : nat) (σ : store) (l : loc) (items : list value) :
  σ !! l = Some (OList items) ->
  snapshot (S n) σ (VRef l) = option_map PList (snapshot_each n σ items).
Proof. intros Hl. cbn [snapshot]. rewrite Hl. reflexivity. Qed.

Lemma snapshot_dict (n : nat) (σ : store) (l : loc) (items : list (string * value)) :
  σ !! l = Some (ODict items) ->
  snapshot (S n) σ (VRef l) = option_map PDict (snapshot_each_item n σ items).
Proof. intros Hl. cbn [snapshot]. rewrite Hl. reflexivity. Qed.

Lemma snapshot_tuple (n : nat) (σ : store) (items : list value) :
  snapshot (S n) σ (VTuple items) = option_map PTuple (snapshot_each n σ items).
Proof. reflexivity. Qed.

Lemma holds_new_left (σ new1 new2 σ' : store) :
  holds_new σ (new1 ++ new2) σ' -> holds_new σ new1 σ'.
Proof.
  intros H l Hl. rewrite H by (rewrite length_app; lia).
  rewrite app_assoc. apply lookup_app_l. rewrite length_app. lia.
Qed.

Lemma holds_new_right (σ new1 new2 σ' : store) :
  holds_new σ (new1 ++ new2) σ' -> holds_new (σ ++ new1) new2 σ'.
Proof.
  intros H l Hl. rewrite length_app in Hl.
  rewrite H by (rewrite length_app; lia).
  rewrite app_assoc. reflexivity.
Qed.

Lemma holds_new_self (σ new : store) : holds_new σ new (σ ++ new).
Proof. intros l _. reflexivity. Qed.

Lemma alloc_each_reads_back (items : list pyval) :
  Forall reads_back items ->
  forall σ, exists vs new,
    alloc_each items σ = Ok vs (σ ++ new)
    /\ forall σ' n, (list_max (List.map height items) < n)%nat ->
                    holds_new σ new σ' ->
                    snapshot_each n σ' vs = Some items.
Proof.
  induction 1 as [|x rest Hx _ IH]; intros σ.
  - exists [], []. rewrite app_nil_r. split; [reflexivity|]. reflexivity.
  - destruct (Hx σ) as (v & new1 & Hv & Hsnap).
    destruct (IH (σ ++ new1)) as (vs & new2 & Hvs & Hsnaps).
    exists (v :: vs), (new1 ++ new2). split.
    + cbn [alloc_each]. fold alloc_each.
      rewrite (bind_ok _ _ _ _ _ Hv), (bind_ok _ _ _ _ _ Hvs), app_assoc. reflexivity.
    + intros σ' n Hn Hold.
      change (list_max (List.map height (x :: rest)))
        with (Nat.max (height x) (list_max (List.map height rest))) in Hn.
      cbn [snapshot_each]. fold (snapshot_each n).
      rewrite (Hsnap σ' n) by (try lia; eapply holds_new_left; exact Hold).
      rewrite (Hsnaps σ' n) by (try lia; eapply holds_new_right; exact Hold).
      reflexivity.
Qed.

Lemma alloc_each_item_reads_back (items : list (string * pyval)) :
  Forall (fun kv => reads_back (snd kv)) items ->
  forall σ, exists vs new,
    alloc_each_item items σ = Ok vs (σ ++ new)
    /\ forall σ' n, (list_max (List.map (fun kv => height (snd kv)) items) < n)%nat ->
                    holds_new σ new σ' ->
                    snapshot_each_item n σ' vs = Some items.
Proof.
  induction 1 as [|[k x] rest Hx _ IH]; intros σ.
  - exists [], []. rewrite app_nil_r. split; [reflexivity|]. reflexivity.
  - cbn [snd] in Hx. destruct (Hx σ) as (v & new1 & Hv & Hsnap).
    destruct (IH (σ ++ new1)) as (vs & new2 & Hvs & Hsnaps).
    exists ((k, v) :: vs), (new1 ++ new2). split.
    + cbn [alloc_each_item]. fold alloc_each_item.
      rewrite (bind_ok _ _ _ _ _ Hv), (bind_ok _ _ _ _ _ Hvs), app_assoc. reflexivity.
    + intros σ' n Hn Hold.
      change (list_max (List.map (fun kv => height (snd kv)) ((k, x) :: rest)))
        with (Nat.max (height x) (list_max (List.map (fun kv => height (snd kv)) rest)))
        in Hn.
      cbn [snapshot_each_item]. fold (snapshot_each_item n).
      rewrite (Hsnap σ' n) by (try lia; eapply holds_new_left; exact Hold).
      rewrite (Hsnaps σ' n) by (try lia; eapply holds_new_right; exact Hold).
      reflexivity.
Qed.

Lemma holds_new_object (σ new σ' : store) (o : object) :
  holds_new σ (new ++ [o]) σ' -> σ' !! length (σ ++ new) = Some o.
Proof.
  intros H. rewrite H by (rewrite !length_app; cbn; lia).
  rewrite app_assoc. rewrite lookup_app_r by lia.
  rewrite Nat.sub_diag. reflexivity.
Qed.

Lemma alloc_tree_reads_back (t : pyval) : reads_back t.
Proof.
  induction t as [s|items IH|items IH|items IH] using pyval_nested_ind; intros σ.
  - exists (VScalar s), []. rewrite app_nil_r. split; [reflexivity|].
    intros σ' [|n] Hn _; [lia | reflexivity].
  - destruct (alloc_each_reads_back items IH σ) as (vs & new & Hvs & Hsnap).
    exists (VTuple vs), new. split.
    + rewrite alloc_tree_tuple, (bind_ok _ _ _ _ _ Hvs). reflexivity.
    + intros σ' [|n] Hn Hold; [lia|]. cbn [height] in Hn.
      rewrite snapshot_tuple, (Hsnap σ' n) by (try lia; exact Hold). reflexivity.
  - destruct (alloc_each_reads_back items IH σ) as (vs & new & Hvs & Hsnap).
    exists (VRef (length (σ ++ new))), (new ++ [OList vs]). split.
    + rewrite alloc_tree_list, (bind_ok _ _ _ _ _ Hvs), app_assoc. reflexivity.
    + intros σ' [|n] Hn Hold; [lia|]. cbn [height] in Hn.
      rewrite (snapshot_list n _ _ vs) by (eapply holds_new_object; exact Hold).
      rewrite (Hsnap σ' n) by (try lia; eapply holds_new_left; exact Hold). reflexivity.
  - destruct (alloc_each_item_reads_back items IH σ) as (vs & new & Hvs & Hsnap).
    exists (VRef (length (σ ++ new))), (new ++ [ODict vs]). split.
    + rewrite alloc_tree_dict, (bind_ok _ _ _ _ _ Hvs), app_assoc. reflexivity.
    + intros σ' [|n] Hn Hold; [lia|]. cbn [height] in Hn.
      rewrite (snapshot_dict n _ _ vs) by (eapply holds_new_object; exact Hold).
      rewrite (Hsnap σ' n) by (try lia; eapply holds_new_left; exact Hold). reflexivity.
Qed.

Lemma document_round_trip (items : list (string * pyval)) :
  native false (PDict items) = true ->
  dict_to_firestore (PDict items) false = Val (PDict (wire_fields items))
  /\ dict_from_firestore (PDict (wire_fields items)) = Val (PDict items).
Proof.
  intros Hn. pose proof Hn as Hn'. simpl in Hn'.
  apply andb_true_iff in Hn' as [Hu Hv].
  assert (IH : Forall (fun kv => round_trips (snd kv)) items)
    by (apply Forall_forall; intros; apply native_round_trips).
  destruct (fields_round_trip items IH Hu Hv) as (Henc & Hdec).
  split.
  - cbn [dict_to_firestore]. apply (Henc []). intros ? ? _; reflexivity.
  - cbn [dict_from_firestore]. apply (Hdec []). intros ? ? _; reflexivity.
Qed.

Lemma parse_result_encoded (σ : store) (body : pyval) (items : list (string * pyval)) :
  native false (PDict items) = true ->
  subscript body "fields" = dict_to_firestore (PDict items) false ->
  exists v new,
    parse_result body σ = Ok (true, Doc v, time_of body) (σ ++ new)
    /\ (forall n, (height (PDict items) < n)%nat ->
                  snapshot n (σ ++ new) v = Some (PDict items))
    /\ (forall l o, σ !! l = Some o -> (σ ++ new) !! l = Some o).
Proof.
  intros Hn Hfields.
  destruct (document_round_trip items Hn) as [Henc Hdec].
  rewrite Henc in Hfields.
  destruct (alloc_tree_reads_back (PDict items) σ) as (v & new & Halloc & Hsnap).
  exists v, new. split; [|split].
  - apply subscript_val in Hfields as (bitems & -> & Hget).
    unfold parse_result. rewrite py_in_dict. unfold dict_has at 1. rewrite Hget.
    cbn [of_res]. rewrite (bind_ok _ _ σ σ true eq_refl).
    cbn [subscript]. rewrite Hget. cbn [of_res].
    rewrite (bind_ok _ _ σ σ _ eq_refl).
    rewrite Hdec. cbn [of_res].
    rewrite (bind_ok _ _ σ σ _ eq_refl).
    rewrite (bind_ok _ _ σ _ _ Halloc).
    rewrite py_in_dict. cbn [of_res].
    rewrite (bind_ok _ _ _ _ _ eq_refl).
    unfold time_of, dict_has. cbn [subscript].
    destruct (dict_get bitems "updateTime"); reflexivity.
  - intros n Hh. apply Hsnap; [exact Hh | apply holds_new_self].
  - intros l o Hl. apply lookup_app_l_Some. exact Hl.
Qed.

(** X27: [read] gives back what [create] sends.  For a native document,
    when the GET is answered with a body whose [fields] are the wire form
    [dict_to_firestore] gives the document, [read] succeeds and returns a
    new object that unfolds to the document itself, with the [updateTime]
    of the body; the objects the store held before are untouched. *)
Theorem read_returns_the_encoded_document
    (fs : Firestore) (net : nat -> reply) (collection document : string)
    (σ : store) (t : list event) (r : response) (body : pyval)
    (items : list (string * pyval)) :
  native false (PDict items) = true ->
  String.eqb (id_token fs) "" = false ->
  net (length (requests_of t)) = Reply r ->
  json r = Val body ->
  subscript body "fields" = dict_to_firestore (PDict items) false ->
  exists v new,
    read fs net collection document (World σ t)
    = Ok (true, Doc v, time_of body)
         (World (σ ++ new)
            (t ++ [EGet (document_url fs (or_local_id fs collection)
                                      (or_local_id fs document))]))
    /\ (forall n, (height (PDict items) < n)%nat ->
                  snapshot n (σ ++ new) v = Some (PDict items))
    /\ (forall l o, σ !! l = Some o -> (σ ++ new) !! l = Some o).
Proof.
  intros Hn Htok Hnet Hjson Hfields.
  destruct (parse_result_encoded σ body items Hn Hfields) as (v & new & Hparse & Hsnap & Hold).
  exists v, new. split; [|split; assumption].
  apply (read_returns fs net collection document σ (σ ++ new) t r body _ Htok Hnet Hjson).
  exact Hparse.
Qed.

(** X28: [create] on a native document within the size limit sends one
    POST, to the collection with the document id in the query, whose body
    holds the wire form of the document under [fields].  When the answer
    carries these fields back, [create] succeeds and returns a new object
    that unfolds to the document, with the [updateTime] of the answer. *)
Theorem create_posts_the_encoded_document
    (fs : Firestore) (net : nat -> reply) (fuel : nat) (collection document : string)
    (data : value) (σ : store) (t : list event) (r : response) (body : pyval)
    (items : list (string * pyval)) :
  native false (PDict items) = true ->
  snapshot fuel σ data = Some (PDict items) ->
  (dict_size (PDict items) <= size_limit)%Z ->
  String.eqb (id_token fs) "" = false ->
  net (length (requests_of t)) = Reply r ->
  json r = Val body ->
  subscript body "fields" = dict_to_firestore (PDict items) false ->
  exists v new,
    create fs net fuel collection document data (World σ t)
    = Ok (true, Doc v, time_of body)
         (World (σ ++ new)
            (t ++ [EPost (REST fs +:+ or_local_id fs collection +:+ "?documentId="
                          +:+ or_local_id fs document)
                     (PDict [("fields", PDict (wire_fields items))])]))
    /\ (forall n, (height (PDict items) < n)%nat ->
                  snapshot n (σ ++ new) v = Some (PDict items))
    /\ (forall l o, σ !! l = Some o -> (σ ++ new) !! l = Some o).
Proof.
  intros Hn Hdata Hsize Htok Hnet Hjson Hfields.
  destruct (parse_result_encoded σ body items Hn Hfields) as (v & new & Hparse & Hsnap & Hold).
  destruct (document_round_trip items Hn) as [Henc _].
  exists v, new. split; [|split; assumption].
  unfold create, bind at 1, lift at 1, read_tree. cbn [heap trace]. rewrite Hdata.
  destruct (Z.gtb_spec (dict_size (PDict items)) size_limit) as [Hgt|_]; [lia|].
  unfold try_except, bind, build_headers, request, lift.
  rewrite Henc, Htok. cbn [of_res ret heap trace]. rewrite Hnet, Hjson.
  cbn [of_res ret heap trace]. rewrite Hparse. reflexivity.
Qed.

(** *** Read, merge, commit *)

Lemma snapshot_each_item_set (n : nat) (σ : store) (vs : list (string * value))
    (items : list (string * pyval)) (k : string) (s : scalar) :
  snapshot_each_item (S n) σ vs = Some items ->
  snapshot_each_item (S n) σ (dict_set vs k (VScalar s)) = Some (dict_set items k (PScalar s)).
Proof.
  revert items. induction vs as [|[k0 v0] vs IH]; intros items.
  - intros [= <-]. reflexivity.
  - cbn [snapshot_each_item dict_set]. fold (snapshot_each_item (S n) σ).
    destruct (snapshot (S n) σ v0) as [t0|] eqn:E0; [|discriminate].
    destruct (snapshot_each_item (S n) σ vs) as [ts|] eqn:Es; [|discriminate].
    intros [= <-]. cbn [dict_set].
    destruct (String.eqb k0 k).
    + cbn [snapshot_each_item]. fold (snapshot_each_item (S n) σ). rewrite Es. reflexivity.
    + cbn [snapshot_each_item]. fold (snapshot_each_item (S n) σ).
      rewrite E0, (IH ts eq_refl). reflexivity.
Qed.

Lemma snapshot_each_item_del (n : nat) (σ : store) (vs : list (string * value))
    (items : list (string * pyval)) (k : string) :
  snapshot_each_item n σ vs = Some items ->
  snapshot_each_item n σ (dict_del vs k) = Some (dict_del items k).
Proof.
  revert items. induction vs as [|[k0 v0] vs IH]; intros items.
  - intros [= <-]. reflexivity.
  - change (snapshot_each_item n σ ((k0, v0) :: vs))
      with (match snapshot n σ v0, snapshot_each_item n σ vs with
            | Some t, Some ts => Some ((k0, t) :: ts)
            | _, _ => None
            end).
    destruct (snapshot n σ v0) as [t0|] eqn:E0; [|discriminate].
    destruct (snapshot_each_item n σ vs) as [ts|] eqn:Es; [|discriminate].
    specialize (IH ts eq_refl).
    intros [= <-]. cbn [dict_del].
    destruct (String.eqb k0 k); [exact Es|].
    change (snapshot_each_item n σ ((k0, v0) :: dict_del vs k))
      with (match snapshot n σ v0, snapshot_each_item n σ (dict_del vs k) with
            | Some t, Some ts => Some ((k0, t) :: ts)
            | _, _ => None
            end).
    rewrite E0, IH. reflexivity.
Qed.

Lemma snapshot_assigned (n : nat) (σ : store) (overlay : list (string * scalar))
    (vs : list (string * value)) (items : list (string * pyval)) :
  snapshot_each_item (S n) σ vs = Some items ->
  snapshot_each_item (S n) σ
    (dict_update vs (List.map (fun kv => (fst kv, VScalar (snd kv))) overlay))
  = Some (assigned items overlay).
Proof.
  revert vs items. induction overlay as [|[k s] overlay IH]; intros vs items Hs.
  - exact Hs.
  - unfold dict_update, assigned. cbn [List.map fold_left fst snd].
    apply IH. apply snapshot_each_item_set. exact Hs.
Qed.

Lemma snapshot_removed (n : nat) (σ : store) (keys : list string)
    (vs : list (string * value)) (items : list (string * pyval)) :
  snapshot_each_item n σ vs = Some items ->
  snapshot_each_item n σ
    (dict_without vs (List.map (fun k => (k, VScalar SNone)) keys))
  = Some (removed items keys).
Proof.
  revert vs items. induction keys as [|k keys IH]; intros vs items Hs.
  - exact Hs.
  - unfold dict_without, removed. cbn [List.map fold_left fst].
    apply IH. apply snapshot_each_item_del. exact Hs.
Qed.

Lemma overlay_is_flat (overlay : list (string * scalar)) (d : list (string * value)) :
  forallb (fun kv => plain (snd kv) || negb (dict_has d (fst kv)))
    (List.map (fun kv => (fst kv, VScalar (snd kv))) overlay) = true.
Proof. induction overlay as [|[k s] overlay IH]; [reflexivity | exact IH]. Qed.

Lemma keys_are_flat (keys : list string) :
  forallb (fun kv => plain (snd kv)) (List.map (fun k => (k, VScalar SNone)) keys) = true.
Proof. induction keys as [|k keys IH]; [reflexivity | exact IH]. Qed.

Lemma dict_has_map {A B : Type} (f : A -> B) (d : list (string * A)) (k : string) :
  dict_has (List.map (fun kv => (fst kv, f (snd kv))) d) k = dict_has d k.
Proof.
  unfold dict_has. induction d as [|[k0 v0] d IH]; [reflexivity|].
  cbn [List.map dict_get fst snd]. destruct (String.eqb k0 k); [reflexivity | exact IH].
Qed.

Lemma unique_keys_map {A B : Type} (f : A -> B) (d : list (string * A)) :
  unique_keys (List.map (fun kv => (fst kv, f (snd kv))) d) = unique_keys d.
Proof.
  induction d as [|[k0 v0] d IH]; [reflexivity|].
  cbn [List.map unique_keys fst snd]. rewrite dict_has_map, IH. reflexivity.
Qed.

(** The document [parse_result] builds from an answer that carries the
    wire form of [items]: a new dict on top of the store, over entries
    that read back as [items]. *)
Lemma parse_result_builds (σ : store) (body : pyval) (items : list (string * pyval)) :
  native false (PDict items) = true ->
  subscript body "fields" = dict_to_firestore (PDict items) false ->
  exists vs new,
    parse_result body σ
    = Ok (true, Doc (VRef (length (σ ++ new))), time_of body) ((σ ++ new) ++ [ODict vs])
    /\ forall σ' n, (height (PDict items) < S n)%nat -> holds_new σ new σ' ->
                    snapshot_each_item n σ' vs = Some items.
Proof.
  intros Hn Hfields.
  destruct (document_round_trip items Hn) as [Henc Hdec].
  rewrite Henc in Hfields.
  assert (IH : Forall (fun kv => reads_back (snd kv)) items)
    by (apply Forall_forall; intros; apply alloc_tree_reads_back).
  destruct (alloc_each_item_reads_back items IH σ) as (vs & new & Hvs & Hsnap).
  exists vs, new. split.
  - apply subscript_val in Hfields as (bitems & -> & Hget).
    unfold parse_result. rewrite py_in_dict. unfold dict_has at 1. rewrite Hget.
    cbn [of_res]. rewrite (bind_ok _ _ σ σ true eq_refl).
    cbn [subscript]. rewrite Hget. cbn [of_res].
    rewrite (bind_ok _ _ σ σ _ eq_refl).
    rewrite Hdec. cbn [of_res].
    rewrite (bind_ok _ _ σ σ _ eq_refl).
    rewrite alloc_tree_dict.
    rewrite bind_assoc, (bind_ok _ _ _ _ _ Hvs).
    unfold bind at 1, alloc at 1.
    rewrite py_in_dict. cbn [of_res].
    rewrite (bind_ok _ _ _ _ _ eq_refl).
    unfold time_of, dict_has. cbn [subscript].
    destruct (dict_get bitems "updateTime"); reflexivity.
  - intros σ' n Hh Hold. apply Hsnap; [|exact Hold]. cbn [height] in Hh. lia.
Qed.

(** X29: read, merge, commit.  The stored document is native, the replace
    overlay is a dict of scalars and the delete overlay a dict of keys with
    the value [None]; the read is answered with the stored document and the
    commit is accepted.  Then [update] makes one pass: it commits the wire
    form of the stored document with the entries of the replace overlay
    assigned and the keys of the delete overlay then removed, under the
    [updateTime] of the read, and it returns that merged document with the
    [updateTime] of the commit.  The two overlays are as they were. *)
Theorem update_commits_the_merged_document
    (fs : Firestore) (net : nat -> reply) (fuel : nat) (collection document : string)
    (lr ld : loc) (σ : store) (t : list event)
    (stored : list (string * pyval)) (overlay : list (string * scalar)) (keys : list string)
    (r : response) (body fields : pyval)
    (c : response) (answer results first time2 : pyval) :
  let merged := removed (assigned stored overlay) keys in
  let url := document_url fs (or_local_id fs collection) (or_local_id fs document) in
  native false (PDict stored) = true ->
  (height (PDict stored) < S fuel)%nat ->
  unique_keys overlay = true ->
  σ !! lr = Some (overlay_object overlay) ->
  σ !! ld = Some (keys_object keys) ->
  String.eqb (id_token fs) "" = false ->
  net (length (requests_of t)) = Reply r ->
  json r = Val body ->
  subscript body "fields" = dict_to_firestore (PDict stored) false ->
  (dict_size (PDict merged) <= size_limit)%Z ->
  dict_to_firestore (PDict merged) false = Val fields ->
  net (length (requests_of t) + 1)%nat = Reply c ->
  status_code c = 200%Z ->
  json c = Val answer ->
  subscript answer "writeResults" = Val results ->
  subscript0 results = Val first ->
  subscript first "updateTime" = Val time2 ->
  exists v σ',
    update fs net (S fuel) collection document (VRef lr) (VRef ld) None (World σ t)
    = Ok (true, Doc v, time2)
         (World σ'
            (t ++ [ESleep (NInt 0); EGet url;
                   EPost (commit_url fs)
                     (commit_document fs (or_local_id fs collection)
                        (or_local_id fs document) fields (time_of body))]))
    /\ snapshot (S fuel) σ' v = Some (PDict merged)
    /\ σ' !! lr = Some (overlay_object overlay)
    /\ σ' !! ld = Some (keys_object keys).
Proof.
  intros merged url Hn Hh Hu Hr Hd Htok Hnet Hjson Hfields Hsize Henc Hnet2 Hs Hjson2
    Hres Hfirst Htime.
  destruct (parse_result_builds σ body stored Hn Hfields) as (vs & new & Hparse & Hsnap).
  set (L := length (σ ++ new)) in *.
  set (σ1 := (σ ++ new) ++ [ODict vs]) in *.
  set (rvs := List.map (fun kv => (fst kv, VScalar (snd kv))) overlay).
  set (dvs := List.map (fun k => (k, VScalar SNone)) keys).
  set (final := dict_without (dict_update vs rvs) dvs).
  set (σ2 := <[L := ODict final]> σ1).
  assert (Hlr : (lr < length σ)%nat) by (eapply lookup_lt_Some; exact Hr).
  assert (Hld : (ld < length σ)%nat) by (eapply lookup_lt_Some; exact Hd).
  assert (HL : (length σ <= L)%nat) by (unfold L; rewrite length_app; lia).
  assert (Hkeep : forall l o, σ !! l = Some o -> σ1 !! l = Some o).
  { intros l o Hl. unfold σ1. apply lookup_app_l_Some, lookup_app_l_Some. exact Hl. }
  assert (H1L : σ1 !! L = Some (ODict vs)).
  { unfold σ1, L. rewrite lookup_app_r by lia. rewrite Nat.sub_diag. reflexivity. }
  assert (HlenL : (L < length σ1)%nat) by (eapply lookup_lt_Some; exact H1L).
  (* the merge *)
  assert (Hmerge : merge (S fuel) (VRef L) (VRef lr) (VRef ld) None σ1 = Ok tt σ2).
  { unfold merge.
    rewrite (bind_ok _ _ σ1 (<[L := ODict (dict_update vs rvs)]> σ1) false).
    2:{ apply dict_replace_update_run.
        - exact H1L.
        - apply Hkeep. exact Hr.
        - lia.
        - unfold rvs. rewrite unique_keys_map. exact Hu.
        - apply overlay_is_flat. }
    rewrite (bind_ok _ _ _ σ2 (VRef L)); [reflexivity|].
    unfold σ2, final.
    rewrite <- (list_insert_insert_eq σ1 L (ODict (dict_without (dict_update vs rvs) dvs))
                  (ODict (dict_update vs rvs))).
    apply dict_pop_without_run.
    - apply list_lookup_insert_eq. exact HlenL.
    - rewrite list_lookup_insert_ne by lia. apply Hkeep. exact Hd.
    - lia.
    - apply keys_are_flat. }
  (* the merged document *)
  assert (Hold : holds_new σ new σ2).
  { intros l Hl. unfold σ2, L. rewrite list_lookup_insert_ne by (rewrite length_app; lia).
    unfold σ1. apply lookup_app_l. rewrite length_app. lia. }
  assert (Hfuel : exists n, fuel = S n).
  { destruct fuel as [|n]; [cbn [height] in Hh; lia | eauto]. }
  destruct Hfuel as (n & ->).
  assert (Hsnap2 : snapshot (S (S n)) σ2 (VRef L) = Some (PDict merged)).
  { rewrite (snapshot_dict (S n) σ2 L final)
      by (apply list_lookup_insert_eq; exact HlenL).
    unfold final, merged, dvs, rvs.
    rewrite (snapshot_removed (S n) σ2 keys _ (assigned stored overlay)); [reflexivity|].
    apply snapshot_assigned. apply Hsnap; [exact Hh | exact Hold]. }
  exists (VRef L), σ2. split; [|split; [exact Hsnap2|]].
  2:{ unfold σ2. rewrite !list_lookup_insert_ne by lia. split; apply Hkeep; assumption. }
  (* the pass *)
  unfold update. rewrite update_loop_early by lia. cbn [heap trace].
  assert (Hnet' : net (length (requests_of (t ++ [ESleep (NInt 0)]))) = Reply r)
    by (rewrite requests_of_app; cbn; rewrite app_nil_r; exact Hnet).
  rewrite (attempt_body_merged fs net (S (S n)) _ _ (VRef lr) (VRef ld) None σ σ1 σ2
             (t ++ [ESleep (NInt 0)]) r body (VRef L) (time_of body) (PDict merged)
             Htok Hnet' Hjson Hparse Hmerge Hsnap2).
  cbv zeta.
  destruct (Z.gtb_spec (dict_size (PDict merged)) size_limit) as [Hgt|_]; [lia|].
  rewrite !or_local_id_twice. fold url.
  assert (Hnet2' : net (length (requests_of ((t ++ [ESleep (NInt 0)]) ++ [EGet url])))
                   = Reply c).
  { rewrite <- app_assoc, requests_of_app. cbn. rewrite length_app. exact Hnet2. }
  assert (Hnot : failed_precondition (status_code c) answer = Val false)
    by (unfold failed_precondition; rewrite Hs; reflexivity).
  rewrite (commit_runs fs net _ _ (VRef L) (PDict merged) (time_of body) fields σ2 _ c
             answer false Htok Henc Hnet2' Hjson2 Hnot).
  cbv zeta iota.
  assert (Hok : parse_result_update answer (VRef L) = Val (true, Doc (VRef L), time2)).
  { pose proof Hres as Hres'. apply subscript_val in Hres' as (aitems & -> & Hget).
    pose proof Htime as Htime'. apply subscript_val in Htime' as (fitems & -> & Hgett).
    unfold parse_result_update.
    rewrite py_in_dict. unfold dict_has at 1. rewrite Hget. cbn [res_bind].
    rewrite Hres. cbn [res_bind]. rewrite Hfirst. cbn [res_bind].
    rewrite py_in_dict. unfold dict_has at 1. rewrite Hgett. cbn [res_bind].
    rewrite Htime. reflexivity. }
  rewrite Hok. rewrite <- !app_assoc. reflexivity.
Qed.

(** ** The deep merge *)

Section DeepMerge.

Variable σ0 : store.

Lemma tree_in_bounds (mixed : bool) (σ : store) :
  (forall t v lo hi, tree_in σ0 mixed σ t v lo hi -> (lo <= hi)%nat)
  /\ (forall ts vs lo hi, trees_in σ0 mixed σ ts vs lo hi -> (lo <= hi)%nat)
  /\ (forall ts vs lo hi, fields_in σ0 mixed σ ts vs lo hi -> (lo <= hi)%nat).
Proof. apply tree_in_mutind; intros; lia. Qed.

Lemma tree_in_le (mixed : bool) (σ : store) (t : pyval) (v : value) (lo hi : nat) :
  tree_in σ0 mixed σ t v lo hi -> (lo <= hi)%nat.
Proof. apply tree_in_bounds. Qed.

Lemma fields_in_le (mixed : bool) (σ : store) ts vs (lo hi : nat) :
  fields_in σ0 mixed σ ts vs lo hi -> (lo <= hi)%nat.
Proof. apply tree_in_bounds. Qed.

Lemma trees_in_le (mixed : bool) (σ : store) ts vs (lo hi : nat) :
  trees_in σ0 mixed σ ts vs lo hi -> (lo <= hi)%nat.
Proof. apply tree_in_bounds. Qed.

(** A tree stays one when the store changes elsewhere, and when more of
    it may be old. *)
Lemma tree_in_moves (mixed mixed' : bool) (σ : store) :
  (mixed = true -> mixed' = true) ->
  (forall t v lo hi, tree_in σ0 mixed σ t v lo hi ->
     forall σ', (forall l, (lo <= l < hi)%nat -> σ' !! l = σ !! l) ->
     tree_in σ0 mixed' σ' t v lo hi)
  /\ (forall ts vs lo hi, trees_in σ0 mixed σ ts vs lo hi ->
        forall σ', (forall l, (lo <= l < hi)%nat -> σ' !! l = σ !! l) ->
        trees_in σ0 mixed' σ' ts vs lo hi)
  /\ (forall ts vs lo hi, fields_in σ0 mixed σ ts vs lo hi ->
        forall σ', (forall l, (lo <= l < hi)%nat -> σ' !! l = σ !! l) ->
        fields_in σ0 mixed' σ' ts vs lo hi).
Proof.
  intros Hm. apply tree_in_mutind.
  - intros t v lo hi n Hmixed Hle Hsnap σ' _. eapply tree_old; eauto.
  - intros s lo hi Hle σ' _. apply tree_scalar. exact Hle.
  - intros items vs lo hi _ IH σ' Hagree. apply tree_tuple. apply IH. exact Hagree.
  - intros items vs l lo hi Hl Hobj Hch IH σ' Hagree.
    pose proof (trees_in_le _ _ _ _ _ _ Hch) as Hlo.
    apply tree_list with vs; [exact Hl | rewrite Hagree by lia; exact Hobj |].
    apply IH. intros l' Hl'. apply Hagree. lia.
  - intros items vs l lo hi Hl Hobj Hch IH σ' Hagree.
    pose proof (fields_in_le _ _ _ _ _ _ Hch) as Hlo.
    apply tree_dict with vs; [exact Hl | rewrite Hagree by lia; exact Hobj |].
    apply IH. intros l' Hl'. apply Hagree. lia.
  - intros lo hi Hle σ' _. apply trees_nil. exact Hle.
  - intros t v ts vs lo mid hi Ht IHt Hts IHts σ' Hagree.
    pose proof (tree_in_le _ _ _ _ _ _ Ht) as H1.
    pose proof (trees_in_le _ _ _ _ _ _ Hts) as H2.
    apply trees_cons with mid.
    + apply IHt. intros l Hl. apply Hagree. lia.
    + apply IHts. intros l Hl. apply Hagree. lia.
  - intros lo hi Hle σ' _. apply fields_nil. exact Hle.
  - intros k t v ts vs lo mid hi Ht IHt Hts IHts σ' Hagree.
    pose proof (tree_in_le _ _ _ _ _ _ Ht) as H1.
    pose proof (fields_in_le _ _ _ _ _ _ Hts) as H2.
    apply fields_cons with mid.
    + apply IHt. intros l Hl. apply Hagree. lia.
    + apply IHts. intros l Hl. apply Hagree. lia.
Qed.

Lemma tree_in_frame (mixed mixed' : bool) (σ σ' : store) t v (lo hi : nat) :
  (mixed = true -> mixed' = true) ->
  tree_in σ0 mixed σ t v lo hi ->
  (forall l, (lo <= l < hi)%nat -> σ' !! l = σ !! l) ->
  tree_in σ0 mixed' σ' t v lo hi.
Proof. intros Hm Ht Hagree. eapply (tree_in_moves mixed mixed' σ Hm); eauto. Qed.

Lemma trees_in_frame (mixed mixed' : bool) (σ σ' : store) ts vs (lo hi : nat) :
  (mixed = true -> mixed' = true) ->
  trees_in σ0 mixed σ ts vs lo hi ->
  (forall l, (lo <= l < hi)%nat -> σ' !! l = σ !! l) ->
  trees_in σ0 mixed' σ' ts vs lo hi.
Proof. intros Hm Ht Hagree. eapply (tree_in_moves mixed mixed' σ Hm); eauto. Qed.

Lemma fields_in_frame (mixed mixed' : bool) (σ σ' : store) ts vs (lo hi : nat) :
  (mixed = true -> mixed' = true) ->
  fields_in σ0 mixed σ ts vs lo hi ->
  (forall l, (lo <= l < hi)%nat -> σ' !! l = σ !! l) ->
  fields_in σ0 mixed' σ' ts vs lo hi.
Proof. intros Hm Ht Hagree. eapply (tree_in_moves mixed mixed' σ Hm); eauto. Qed.

(** What the old store holds reads the same from a store that keeps it. *)
Lemma snapshot_each_old (m : nat) (σ : store) (items : list value) (ts : list pyval) :
  (forall v t, snapshot m σ0 v = Some t ->
               forall n, (height t < n)%nat -> snapshot n σ v = Some t) ->
  snapshot_each m σ0 items = Some ts ->
  forall n, (list_max (List.map height ts) < n)%nat -> snapshot_each n σ items = Some ts.
Proof.
  intros IH. revert ts. induction items as [|x items IHl]; intros ts.
  - intros [= <-] n _. reflexivity.
  - change (snapshot_each m σ0 (x :: items))
      with (match snapshot m σ0 x, snapshot_each m σ0 items with
            | Some t, Some ts => Some (t :: ts)
            | _, _ => None
            end).
    destruct (snapshot m σ0 x) as [t|] eqn:Ex; [|discriminate].
    destruct (snapshot_each m σ0 items) as [ts'|] eqn:Es; [|discriminate].
    intros [= <-] n Hn.
    change (list_max (List.map height (t :: ts')))
      with (Nat.max (height t) (list_max (List.map height ts'))) in Hn.
    change (snapshot_each n σ (x :: items))
      with (match snapshot n σ x, snapshot_each n σ items with
            | Some t, Some ts => Some (t :: ts)
            | _, _ => None
            end).
    rewrite (IH x t Ex n) by lia. rewrite (IHl ts' eq_refl n) by lia. reflexivity.
Qed.

Lemma snapshot_each_item_old (m : nat) (σ : store) (items : list (string * value))
    (ts : list (string * pyval)) :
  (forall v t, snapshot m σ0 v = Some t ->
               forall n, (height t < n)%nat -> snapshot n σ v = Some t) ->
  snapshot_each_item m σ0 items = Some ts ->
  forall n, (list_max (List.map (fun kv => height (snd kv)) ts) < n)%nat ->
            snapshot_each_item n σ items = Some ts.
Proof.
  intros IH. revert ts. induction items as [|[k x] items IHl]; intros ts.
  - intros [= <-] n _. reflexivity.
  - change (snapshot_each_item m σ0 ((k, x) :: items))
      with (match snapshot m σ0 x, snapshot_each_item m σ0 items with
            | Some t, Some ts => Some ((k, t) :: ts)
            | _, _ => None
            end).
    destruct (snapshot m σ0 x) as [t|] eqn:Ex; [|discriminate].
    destruct (snapshot_each_item m σ0 items) as [ts'|] eqn:Es; [|discriminate].
    intros [= <-] n Hn.
    change (list_max (List.map (fun kv => height (snd kv)) ((k, t) :: ts')))
      with (Nat.max (height t) (list_max (List.map (fun kv => height (snd kv)) ts'))) in Hn.
    change (snapshot_each_item n σ ((k, x) :: items))
      with (match snapshot n σ x, snapshot_each_item n σ items with
            | Some t, Some ts => Some ((k, t) :: ts)
            | _, _ => None
            end).
    rewrite (IH x t Ex n) by lia. rewrite (IHl ts' eq_refl n) by lia. reflexivity.
Qed.

Lemma snapshot_old (σ : store) (n0 : nat) :
  keeps_old σ0 σ ->
  forall v t, snapshot n0 σ0 v = Some t ->
              forall n, (height t < n)%nat -> snapshot n σ v = Some t.
Proof.
  intros Hold. induction n0 as [|m IH]; intros v t; [discriminate|].
  destruct v as [s|items|l].
  - intros [= <-] [|n] Hn; [lia | reflexivity].
  - rewrite snapshot_tuple.
    destruct (snapshot_each m σ0 items) as [ts|] eqn:Es; [|discriminate].
    intros [= <-] [|n] Hn; [lia|]. cbn [height] in Hn.
    rewrite snapshot_tuple, (snapshot_each_old m σ items ts IH Es n) by lia. reflexivity.
  - destruct (σ0 !! l) as [[items|items]|] eqn:El.
    + assert (Hl : σ !! l = Some (OList items))
        by (rewrite Hold by (eapply lookup_lt_Some; exact El); exact El).
      rewrite (snapshot_list m σ0 l items El).
      destruct (snapshot_each m σ0 items) as [ts|] eqn:Es; [|discriminate].
      intros [= <-] [|n] Hn; [lia|]. cbn [height] in Hn.
      rewrite (snapshot_list n σ l items Hl), (snapshot_each_old m σ items ts IH Es n) by lia.
      reflexivity.
    + assert (Hl : σ !! l = Some (ODict items))
        by (rewrite Hold by (eapply lookup_lt_Some; exact El); exact El).
      rewrite (snapshot_dict m σ0 l items El).
      destruct (snapshot_each_item m σ0 items) as [ts|] eqn:Es; [|discriminate].
      intros [= <-] [|n] Hn; [lia|]. cbn [height] in Hn.
      rewrite (snapshot_dict n σ l items Hl),
        (snapshot_each_item_old m σ items ts IH Es n) by lia.
      reflexivity.
    + cbn [snapshot]. rewrite El. discriminate.
Qed.

(** A tree in the store reads as itself. *)
Lemma tree_in_reads (mixed : bool) (σ : store) :
  keeps_old σ0 σ ->
  (forall t v lo hi, tree_in σ0 mixed σ t v lo hi ->
     forall n, (height t < n)%nat -> snapshot n σ v = Some t)
  /\ (forall ts vs lo hi, trees_in σ0 mixed σ ts vs lo hi ->
        forall n, (list_max (List.map height ts) < n)%nat ->
                  snapshot_each n σ vs = Some ts)
  /\ (forall ts vs lo hi, fields_in σ0 mixed σ ts vs lo hi ->
        forall n, (list_max (List.map (fun kv => height (snd kv)) ts) < n)%nat ->
                  snapshot_each_item n σ vs = Some ts).
Proof.
  intros Hold. apply tree_in_mutind.
  - intros t v lo hi n0 _ _ Hsnap n Hn. eapply snapshot_old; eauto.
  - intros s lo hi _ [|n] Hn; [lia | reflexivity].
  - intros items vs lo hi _ IH [|n] Hn; [lia|]. cbn [height] in Hn.
    rewrite snapshot_tuple, (IH n) by lia. reflexivity.
  - intros items vs l lo hi _ Hobj _ IH [|n] Hn; [lia|]. cbn [height] in Hn.
    rewrite (snapshot_list n σ l vs Hobj), (IH n) by lia. reflexivity.
  - intros items vs l lo hi _ Hobj _ IH [|n] Hn; [lia|]. cbn [height] in Hn.
    rewrite (snapshot_dict n σ l vs Hobj), (IH n) by lia. reflexivity.
  - intros lo hi _ n _. reflexivity.
  - intros t v ts vs lo mid hi _ IHt _ IHts n Hn.
    change (list_max (List.map height (t :: ts)))
      with (Nat.max (height t) (list_max (List.map height ts))) in Hn.
    change (snapshot_each n σ (v :: vs))
      with (match snapshot n σ v, snapshot_each n σ vs with
            | Some t, Some ts => Some (t :: ts)
            | _, _ => None
            end).
    rewrite (IHt n), (IHts n) by lia. reflexivity.
  - intros lo hi _ n _. reflexivity.
  - intros k t v ts vs lo mid hi _ IHt _ IHts n Hn.
    change (list_max (List.map (fun kv => height (snd kv)) ((k, t) :: ts)))
      with (Nat.max (height t) (list_max (List.map (fun kv => height (snd kv)) ts))) in Hn.
    change (snapshot_each_item n σ ((k, v) :: vs))
      with (match snapshot n σ v, snapshot_each_item n σ vs with
            | Some t, Some ts => Some ((k, t) :: ts)
            | _, _ => None
            end).
    rewrite (IHt n), (IHts n) by lia. reflexivity.
Qed.

(** A freshly built tree is in the store. *)
Lemma alloc_each_builds (items : list pyval) :
  Forall (builds σ0) items ->
  forall σ, exists vs new,
    alloc_each items σ = Ok vs (σ ++ new)
    /\ forall σ', holds_new σ new σ' ->
                  trees_in σ0 false σ' items vs (length σ) (length σ + length new).
Proof.
  induction 1 as [|x rest Hx _ IH]; intros σ.
  - exists [], []. rewrite app_nil_r. split; [reflexivity|].
    intros σ' _. apply trees_nil. cbn [length]. lia.
  - destruct (Hx σ) as (v & new1 & Hv & Ht).
    destruct (IH (σ ++ new1)) as (vs & new2 & Hvs & Hts).
    exists (v :: vs), (new1 ++ new2). split.
    + cbn [alloc_each]. fold alloc_each.
      rewrite (bind_ok _ _ _ _ _ Hv), (bind_ok _ _ _ _ _ Hvs), app_assoc. reflexivity.
    + intros σ' Hold. apply trees_cons with (length σ + length new1)%nat.
      * apply Ht. eapply holds_new_left; exact Hold.
      * specialize (Hts σ' (holds_new_right _ _ _ _ Hold)).
        rewrite !length_app in Hts |- *. rewrite Nat.add_assoc. exact Hts.
Qed.

Lemma alloc_each_item_builds (items : list (string * pyval)) :
  Forall (fun kv => builds σ0 (snd kv)) items ->
  forall σ, exists vs new,
    alloc_each_item items σ = Ok vs (σ ++ new)
    /\ forall σ', holds_new σ new σ' ->
                  fields_in σ0 false σ' items vs (length σ) (length σ + length new).
Proof.
  induction 1 as [|[k x] rest Hx _ IH]; intros σ.
  - exists [], []. rewrite app_nil_r. split; [reflexivity|].
    intros σ' _. apply fields_nil. cbn [length]. lia.
  - cbn [snd] in Hx. destruct (Hx σ) as (v & new1 & Hv & Ht).
    destruct (IH (σ ++ new1)) as (vs & new2 & Hvs & Hts).
    exists ((k, v) :: vs), (new1 ++ new2). split.
    + cbn [alloc_each_item]. fold alloc_each_item.
      rewrite (bind_ok _ _ _ _ _ Hv), (bind_ok _ _ _ _ _ Hvs), app_assoc. reflexivity.
    + intros σ' Hold. apply fields_cons with (length σ + length new1)%nat.
      * apply Ht. eapply holds_new_left; exact Hold.
      * specialize (Hts σ' (holds_new_right _ _ _ _ Hold)).
        rewrite !length_app in Hts |- *. rewrite Nat.add_assoc. exact Hts.
Qed.

Lemma alloc_tree_builds (t : pyval) : builds σ0 t.
Proof.
  induction t as [s|items IH|items IH|items IH] using pyval_nested_ind; intros σ.
  - exists (VScalar s), []. rewrite app_nil_r. split; [reflexivity|].
    intros σ' _. apply tree_scalar. cbn [length]. lia.
  - destruct (alloc_each_builds items IH σ) as (vs & new & Hvs & Hts).
    exists (VTuple vs), new. split.
    + rewrite alloc_tree_tuple, (bind_ok _ _ _ _ _ Hvs). reflexivity.
    + intros σ' Hold. apply tree_tuple. apply Hts. exact Hold.
  - destruct (alloc_each_builds items IH σ) as (vs & new & Hvs & Hts).
    exists (VRef (length (σ ++ new))), (new ++ [OList vs]). split.
    + rewrite alloc_tree_list, (bind_ok _ _ _ _ _ Hvs), app_assoc. reflexivity.
    + intros σ' Hold. apply tree_list with vs.
      * rewrite !length_app. cbn [length]. lia.
      * eapply holds_new_object; exact Hold.
      * rewrite length_app. apply Hts. eapply holds_new_left; exact Hold.
  - destruct (alloc_each_item_builds items IH σ) as (vs & new & Hvs & Hts).
    exists (VRef (length (σ ++ new))), (new ++ [ODict vs]). split.
    + rewrite alloc_tree_dict, (bind_ok _ _ _ _ _ Hvs), app_assoc. reflexivity.
    + intros σ' Hold. apply tree_dict with vs.
      * rewrite !length_app. cbn [length]. lia.
      * eapply holds_new_object; exact Hold.
      * rewrite length_app. apply Hts. eapply holds_new_left; exact Hold.
Qed.

(** The value a tree was read from has the shape of the tree. *)
Lemma snapshot_shape (n : nat) (σ : store) (v : value) (t : pyval) :
  snapshot n σ v = Some t ->
  match t with
  | PScalar s => v = VScalar s
  | PTuple ts =>
      exists m vs, n = S m /\ v = VTuple vs /\ snapshot_each m σ vs = Some ts
  | PList ts =>
      exists m l vs, n = S m /\ v = VRef l /\ σ !! l = Some (OList vs)
                     /\ snapshot_each m σ vs = Some ts
  | PDict ts =>
      exists m l vs, n = S m /\ v = VRef l /\ σ !! l = Some (ODict vs)
                     /\ snapshot_each_item m σ vs = Some ts
  end.
Proof.
  destruct n as [|m]; [discriminate|]. destruct v as [s|items|l].
  - intros [= <-]. reflexivity.
  - rewrite snapshot_tuple. destruct (snapshot_each m σ items) as [ts|] eqn:Es; [|discriminate].
    intros [= <-]. exists m, items. auto.
  - destruct (σ !! l) as [[items|items]|] eqn:El.
    + rewrite (snapshot_list m σ l items El).
      destruct (snapshot_each m σ items) as [ts|] eqn:Es; [|discriminate].
      intros [= <-]. exists m, l, items. auto.
    + rewrite (snapshot_dict m σ l items El).
      destruct (snapshot_each_item m σ items) as [ts|] eqn:Es; [|discriminate].
      intros [= <-]. exists m, l, items. auto.
    + cbn [snapshot]. rewrite El. discriminate.
Qed.

Lemma snapshot_each_item_cons (m : nat) (σ : store) (k : string) (v : value)
    (vs : list (string * value)) (ts : list (string * pyval)) :
  snapshot_each_item m σ ((k, v) :: vs) = Some ts ->
  exists t ts', ts = (k, t) :: ts' /\ snapshot m σ v = Some t
                /\ snapshot_each_item m σ vs = Some ts'.
Proof.
  change (snapshot_each_item m σ ((k, v) :: vs))
    with (match snapshot m σ v, snapshot_each_item m σ vs with
          | Some t, Some ts => Some ((k, t) :: ts)
          | _, _ => None
          end).
  destruct (snapshot m σ v) as [t|]; [|discriminate].
  destruct (snapshot_each_item m σ vs) as [ts'|]; [|discriminate].
  intros [= <-]. exists t, ts'. auto.
Qed.

(** A list read as trees none of which is a tuple holds no tuple. *)
Lemma snapshot_each_no_tuple (m : nat) (σ : store) (vs : list value) (ts : list pyval) :
  snapshot_each m σ vs = Some ts ->
  existsb is_ptuple ts = false ->
  length vs = length ts /\ Forall (fun v => is_tuple v = false) vs.
Proof.
  revert ts. induction vs as [|v vs IH]; intros ts.
  - intros [= <-] _. split; [reflexivity | constructor].
  - change (snapshot_each m σ (v :: vs))
      with (match snapshot m σ v, snapshot_each m σ vs with
            | Some t, Some ts => Some (t :: ts)
            | _, _ => None
            end).
    destruct (snapshot m σ v) as [t|] eqn:Ev; [|discriminate].
    destruct (snapshot_each m σ vs) as [ts'|] eqn:Es; [|discriminate].
    intros [= <-]. cbn [existsb]. intros Hno. apply orb_false_iff in Hno as [Ht Hno].
    destruct (IH ts' eq_refl Hno) as [Hlen Hall]. split; [cbn [length]; lia|].
    constructor; [|exact Hall].
    destruct v as [s|items|l]; [reflexivity | | reflexivity].
    apply snapshot_shape in Ev. destruct t; try discriminate Ht;
      try (destruct Ev as (? & ? & ? & ? & ?); discriminate);
      try (destruct Ev as (? & ? & ? & ? & ? & ?); discriminate).
    discriminate Ev.
Qed.

(** The entries of a dict under the loop. *)
Lemma fields_are_entries (σ : store) ts vs (lo hi : nat) :
  fields_in σ0 false σ ts vs lo hi -> entries_in σ0 (fun _ => false) σ ts vs lo hi.
Proof.
  induction 1 as [lo hi Hle | k t v ts vs lo mid hi Ht Hts IH].
  - apply entries_nil. exact Hle.
  - apply entries_cons with mid; [exact Ht | exact IH].
Qed.

Lemma entries_are_fields (met : string -> bool) (σ : store) ts vs (lo hi : nat) :
  entries_in σ0 met σ ts vs lo hi -> fields_in σ0 true σ ts vs lo hi.
Proof.
  induction 1 as [lo hi Hle | k t v ts vs lo mid hi Ht Hts IH].
  - apply fields_nil. exact Hle.
  - apply fields_cons with mid; [|exact IH].
    apply (tree_in_frame (met k) true σ σ); [reflexivity | exact Ht | reflexivity].
Qed.

Lemma entries_le (met : string -> bool) (σ : store) ts vs (lo hi : nat) :
  entries_in σ0 met σ ts vs lo hi -> (lo <= hi)%nat.
Proof.
  induction 1 as [lo hi Hle | k t v ts vs lo mid hi Ht Hts IH]; [exact Hle|].
  pose proof (tree_in_le _ _ _ _ _ _ Ht). lia.
Qed.

Lemma entries_moves (met met' : string -> bool) (σ σ' : store) ts vs (lo hi : nat) :
  entries_in σ0 met σ ts vs lo hi ->
  (forall k, met k = true -> met' k = true) ->
  (forall l, (lo <= l < hi)%nat -> σ' !! l = σ !! l) ->
  entries_in σ0 met' σ' ts vs lo hi.
Proof.
  intros H Hm. induction H as [lo hi Hle | k t v ts vs lo mid hi Ht Hts IH]; intros Hagree.
  - apply entries_nil. exact Hle.
  - pose proof (tree_in_le _ _ _ _ _ _ Ht) as H1.
    pose proof (entries_le _ _ _ _ _ _ Hts) as H2.
    apply entries_cons with mid.
    + apply (tree_in_frame (met k) (met' k) σ σ'); [apply Hm | exact Ht |].
      intros l Hl. apply Hagree. lia.
    + apply IH. intros l Hl. apply Hagree. lia.
Qed.

Lemma entries_has (met : string -> bool) (σ : store) ts vs (lo hi : nat) (key : string) :
  entries_in σ0 met σ ts vs lo hi -> dict_has ts key = dict_has vs key.
Proof.
  unfold dict_has.
  induction 1 as [lo hi Hle | k t v ts vs lo mid hi Ht Hts IH]; [reflexivity|].
  cbn [dict_get]. destruct (String.eqb k key); [reflexivity | exact IH].
Qed.

(** An assignment [existing[key] = value] with a value of the old store. *)
Lemma entries_assign (met met' : string -> bool) (σ σ' : store) ts vs (lo hi : nat)
    (key : string) (t : pyval) (v : value) (n : nat) :
  entries_in σ0 met σ ts vs lo hi ->
  snapshot n σ0 v = Some t ->
  met' key = true ->
  (forall k, met k = true -> met' k = true) ->
  (forall l, (lo <= l < hi)%nat -> σ' !! l = σ !! l) ->
  entries_in σ0 met' σ' (dict_set ts key t) (dict_set vs key v) lo hi.
Proof.
  intros H Hsnap Hkey Hm.
  induction H as [lo hi Hle | k t0 v0 ts vs lo mid hi Ht Hts IH]; intros Hagree.
  - cbn [dict_set]. apply entries_cons with hi.
    + apply tree_old with n; [exact Hkey | exact Hle | exact Hsnap].
    + apply entries_nil. lia.
  - pose proof (tree_in_le _ _ _ _ _ _ Ht) as H1.
    pose proof (entries_le _ _ _ _ _ _ Hts) as H2.
    cbn [dict_set]. destruct (String.eqb k key) eqn:E.
    + apply String.eqb_eq in E. subst k. apply entries_cons with mid.
      * apply tree_old with n; [exact Hkey | exact H1 | exact Hsnap].
      * apply (entries_moves met met' σ σ'); [exact Hts | exact Hm |].
        intros l Hl. apply Hagree. lia.
    + apply entries_cons with mid.
      * apply (tree_in_frame (met k) (met' k) σ σ'); [apply Hm | exact Ht |].
        intros l Hl. apply Hagree. lia.
      * apply IH. intros l Hl. apply Hagree. lia.
Qed.

(** The entry the loop descends into: as it was built, in a segment of
    its own; what the recursion makes of it takes its place. *)
Lemma entries_descend (met : string -> bool) (σ : store) ts vs (lo hi : nat)
    (key : string) (sub : value) :
  entries_in σ0 met σ ts vs lo hi ->
  dict_get vs key = Some sub ->
  met key = false ->
  exists old lo' hi',
    dict_get ts key = Some old
    /\ (lo <= lo')%nat /\ (hi' <= hi)%nat
    /\ tree_in σ0 false σ old sub lo' hi'
    /\ forall (met' : string -> bool) σ' new,
         (forall k, met k = true -> met' k = true) ->
         met' key = true ->
         (forall l, (lo <= l < hi)%nat -> ~ (lo' <= l < hi')%nat -> σ' !! l = σ !! l) ->
         tree_in σ0 true σ' new sub lo' hi' ->
         entries_in σ0 met' σ' (dict_set ts key new) vs lo hi.
Proof.
  intros H Hget Hkey.
  induction H as [lo hi Hle | k t0 v0 ts vs lo mid hi Ht Hts IH]; [discriminate|].
  pose proof (tree_in_le _ _ _ _ _ _ Ht) as H1.
  pose proof (entries_le _ _ _ _ _ _ Hts) as H2.
  cbn [dict_get] in Hget |- *. destruct (String.eqb k key) eqn:E.
  - apply String.eqb_eq in E. subst k. injection Hget as <-.
    rewrite Hkey in Ht.
    exists t0, lo, mid. repeat split; [lia | lia | exact Ht |].
    intros met' σ' new Hm Hkey' Hagree Hnew.
    cbn [dict_set]. rewrite String.eqb_refl. apply entries_cons with mid.
    + rewrite Hkey'. exact Hnew.
    + apply (entries_moves met met' σ σ'); [exact Hts | exact Hm |].
      intros l Hl. apply Hagree; lia.
  - destruct (IH Hget) as (old & lo' & hi' & Hold & Hlo & Hhi & Hsub & Hcont).
    exists old, lo', hi'. repeat split; [exact Hold | lia | lia | exact Hsub |].
    intros met' σ' new Hm Hkey' Hagree Hnew.
    cbn [dict_set]. rewrite E. apply entries_cons with mid.
    + apply (tree_in_frame (met k) (met' k) σ σ'); [apply Hm | exact Ht |].
      intros l Hl. apply Hagree; lia.
    + apply Hcont; [exact Hm | exact Hkey' | | exact Hnew].
      intros l Hl Hout. apply Hagree; [lia | exact Hout].
Qed.

(** The assignment of the loop, on the store. *)
Lemma assign_step (met : string -> bool) (σ : store) (le lo : nat) dt dv
    (key : string) (t : pyval) (v : value) (n : nat) :
  σ !! le = Some (ODict dv) ->
  entries_in σ0 met σ dt dv lo le ->
  snapshot n σ0 v = Some t ->
  let σ1 := <[le := ODict (dict_set dv key v)]> σ in
  (forall l, ~ (lo <= l < S le)%nat -> σ1 !! l = σ !! l)
  /\ σ1 !! le = Some (ODict (dict_set dv key v))
  /\ entries_in σ0 (fun k => met k || String.eqb k key) σ1
       (dict_set dt key t) (dict_set dv key v) lo le.
Proof.
  intros Hl Hent Hsnap σ1. pose proof (entries_le _ _ _ _ _ _ Hent) as Hle.
  assert (Hlen : (le < length σ)%nat) by (eapply lookup_lt_Some; exact Hl).
  split; [|split].
  - intros l Hout. unfold σ1. apply list_lookup_insert_ne. lia.
  - unfold σ1. apply list_lookup_insert_eq. exact Hlen.
  - apply (entries_assign met _ σ σ1 dt dv lo le key t v n Hent Hsnap).
    + rewrite String.eqb_refl. apply orb_true_r.
    + intros k ->. reflexivity.
    + intros l Hin. unfold σ1. apply list_lookup_insert_ne. lia.
Qed.

(** One step of the loop of [dict_replace] over a mapping. *)
Lemma replace_key_merges (fuel m : nat) (le lo : nat) (σ : store) (met : string -> bool)
    dt dv (key : string) (v : value) (t : pyval) :
  (length σ0 <= lo)%nat ->
  keeps_old σ0 σ ->
  σ !! le = Some (ODict dv) ->
  entries_in σ0 met σ dt dv lo le ->
  snapshot m σ0 v = Some t ->
  merges σ0 t ->
  (weight t < fuel)%nat ->
  overlay_ok t = true ->
  met key = false ->
  exists σ1 dv1,
    replace_key (dict_replace fuel) le key v σ = Ok tt σ1
    /\ (forall l, ~ (lo <= l < S le)%nat -> σ1 !! l = σ !! l)
    /\ σ1 !! le = Some (ODict dv1)
    /\ entries_in σ0 (fun k => met k || String.eqb k key) σ1
         (replace_step dt (key, t)) dv1 lo le.
Proof.
  intros Hlo Hold Hl Hent Hsnap Hmerges Hfuel Hok Hkey.
  pose proof (assign_step met σ le lo dt dv key t v m Hl Hent Hsnap) as Hassign.
  cbv zeta in Hassign.
  pose proof (entries_has met σ dt dv lo le key Hent) as Hhas.
  unfold replace_key. rewrite (bind_ok _ _ σ σ _ (load_dict_ok σ le dv Hl)).
  unfold replace_step. cbn [fst snd].
  destruct (dict_has dv key) eqn:Hk.
  2:{ unfold dict_has in Hhas. destruct (dict_get dt key); [discriminate|].
      exists (<[le := ODict (dict_set dv key v)]> σ), (dict_set dv key v).
      split; [apply dict_setitem_ok; exact Hl | exact Hassign]. }
  unfold dict_has in Hk. destruct (dict_get dv key) as [sub|] eqn:Hsub; [|discriminate].
  destruct (entries_descend met σ dt dv lo le key sub Hent Hsub Hkey)
    as (old & lo' & hi' & Hget & Hlo' & Hhi' & Htree & Hcont).
  rewrite Hget.
  pose proof (snapshot_shape m σ0 v t Hsnap) as Hshape.
  destruct t as [s|items|items|items].
  - subst v. exists (<[le := ODict (dict_set dv key (VScalar s))]> σ), (dict_set dv key (VScalar s)).
    split; [|exact Hassign].
    rewrite (bind_ok _ _ σ σ IsOther eq_refl). apply dict_setitem_ok; exact Hl.
  - destruct Hshape as (m' & vs & -> & -> & Hvs).
    exists (<[le := ODict (dict_set dv key (VTuple vs))]> σ), (dict_set dv key (VTuple vs)).
    split; [|exact Hassign].
    rewrite (bind_ok _ _ σ σ IsOther eq_refl). apply dict_setitem_ok; exact Hl.
  - destruct Hshape as (m' & l & vs & -> & -> & Hobj & Hvs).
    assert (Hobj' : σ !! l = Some (OList vs))
      by (rewrite Hold by (eapply lookup_lt_Some; exact Hobj); exact Hobj).
    destruct (Hmerges fuel σ old sub lo' hi' (VRef l) (S m') Hfuel Hok ltac:(lia) Hold
                Hsnap Htree) as (σ' & Hrun & _ & _ & Hsame).
    subst σ'.
    exists (<[le := ODict (dict_set dv key (VRef l))]> σ), (dict_set dv key (VRef l)).
    split; [|exact Hassign].
    rewrite (bind_ok _ _ σ σ _ (view_of_list σ l vs Hobj')).
    rewrite (bind_ok _ _ σ σ _ (dict_getitem_ok σ le dv key sub Hl Hsub)).
    rewrite (bind_ok _ _ σ σ _ Hrun). cbn [negb].
    apply dict_setitem_ok; exact Hl.
  - destruct Hshape as (m' & l & vs & -> & -> & Hobj & Hvs).
    assert (Hobj' : σ !! l = Some (ODict vs))
      by (rewrite Hold by (eapply lookup_lt_Some; exact Hobj); exact Hobj).
    destruct (Hmerges fuel σ old sub lo' hi' (VRef l) (S m') Hfuel Hok ltac:(lia) Hold
                Hsnap Htree) as (σ' & Hrun & Hframe & Hnew & _).
    exists σ', dv.
    rewrite (bind_ok _ _ σ σ _ (view_of_dict σ l vs Hobj')).
    rewrite (bind_ok _ _ σ σ _ (dict_getitem_ok σ le dv key sub Hl Hsub)).
    rewrite (bind_ok _ _ σ σ' _ Hrun).
    split; [reflexivity|]. split; [|split].
    + intros l' Hout. apply Hframe. lia.
    + rewrite Hframe by lia. exact Hl.
    + apply Hcont; [intros k ->; reflexivity | | | exact Hnew].
      * rewrite String.eqb_refl. apply orb_true_r.
      * intros l' _ Hout. apply Hframe. exact Hout.
Qed.

Lemma absent_key_differs {V : Type} (rest : list (string * V)) (key : string) :
  dict_has rest key = false ->
  Forall (fun kv => String.eqb (fst kv) key = false) rest.
Proof.
  unfold dict_has. induction rest as [|[k v] rest IH]; [constructor|].
  cbn [dict_get]. destruct (String.eqb k key) eqn:E; [discriminate|].
  intros H. constructor; [exact E | apply IH; exact H].
Qed.

(** The loop of [dict_replace] over a mapping of the old store, on a dict
    built above it. *)
Lemma for_items_merges (fuel m : nat) (lr le lo : nat) (rvs : list (string * value)) :
  (length σ0 <= lo)%nat ->
  σ0 !! lr = Some (ODict rvs) ->
  forall todo σ (met : string -> bool) dt dv rest_t,
    (todo <= length rvs)%nat ->
    keeps_old σ0 σ ->
    σ !! le = Some (ODict dv) ->
    entries_in σ0 met σ dt dv lo le ->
    snapshot_each_item m σ0 (drop (length rvs - todo) rvs) = Some rest_t ->
    Forall (fun kv => merges σ0 (snd kv)) rest_t ->
    Forall (fun kv => (weight (snd kv) < fuel)%nat) rest_t ->
    forallb (fun kv => overlay_ok (snd kv)) rest_t = true ->
    unique_keys rest_t = true ->
    Forall (fun kv => met (fst kv) = false) rest_t ->
    exists σ' dv',
      for_items lr (length rvs) todo (replace_key (dict_replace fuel) le) σ = Ok tt σ'
      /\ (forall l, ~ (lo <= l < S le)%nat -> σ' !! l = σ !! l)
      /\ σ' !! le = Some (ODict dv')
      /\ fields_in σ0 true σ' (fold_left replace_step rest_t dt) dv' lo le.
Proof.
  intros Hlo Hr0.
  assert (Hlr : (lr < length σ0)%nat) by (eapply lookup_lt_Some; exact Hr0).
  induction todo as [|todo IH];
    intros σ met dt dv rest_t Htodo Hold Hl Hent Hsnap Hmerges Hfuel Hok Huniq Hmet;
    cbn [for_items].
  - assert (Hr : σ !! lr = Some (ODict rvs)) by (rewrite Hold by exact Hlr; exact Hr0).
    rewrite (bind_ok _ _ σ σ _ (load_dict_ok σ lr rvs Hr)).
    rewrite Nat.eqb_refl. cbn [negb].
    rewrite Nat.sub_0_r, drop_all in Hsnap. injection Hsnap as <-.
    exists σ, dv. split; [reflexivity|]. split; [reflexivity|]. split; [exact Hl|].
    cbn [fold_left]. eapply entries_are_fields. exact Hent.
  - assert (Hr : σ !! lr = Some (ODict rvs)) by (rewrite Hold by exact Hlr; exact Hr0).
    rewrite (bind_ok _ _ σ σ _ (load_dict_ok σ lr rvs Hr)).
    rewrite Nat.eqb_refl. cbn [negb].
    destruct (rvs !! (length rvs - S todo)%nat) as [[key v]|] eqn:Ei.
    2:{ apply lookup_ge_None in Ei. lia. }
    rewrite (drop_S _ _ _ Ei) in Hsnap.
    replace (S (length rvs - S todo)) with (length rvs - todo)%nat in Hsnap by lia.
    destruct (snapshot_each_item_cons m σ0 key v _ rest_t Hsnap) as (t & rest' & -> & Hv & Hrest).
    apply List.Forall_cons_iff in Hmerges as [Hmt Hmerges].
    apply List.Forall_cons_iff in Hfuel as [Hft Hfuel].
    apply List.Forall_cons_iff in Hmet as [Hkey Hmet].
    cbn [forallb unique_keys fst snd] in Hok, Huniq, Hmt, Hft, Hkey.
    apply andb_true_iff in Hok as [Hokt Hok].
    apply andb_true_iff in Huniq as [Hfresh Huniq].
    apply negb_true_iff in Hfresh.
    destruct (replace_key_merges fuel m le lo σ met dt dv key v t Hlo Hold Hl Hent Hv
                Hmt Hft Hokt Hkey) as (σ1 & dv1 & Hstep & Hframe1 & Hl1 & Hent1).
    rewrite (bind_ok _ _ σ σ1 tt Hstep).
    assert (Hold1 : keeps_old σ0 σ1).
    { intros l Hlt. rewrite Hframe1 by lia. apply Hold. exact Hlt. }
    destruct (IH σ1 _ (replace_step dt (key, t)) dv1 rest' ltac:(lia) Hold1 Hl1 Hent1 Hrest
                Hmerges Hfuel Hok Huniq) as (σ' & dv' & Hrun & Hframe & Hl' & Hfields).
    { pose proof (absent_key_differs rest' key Hfresh) as Hdiff.
      rewrite List.Forall_forall in Hmet, Hdiff |- *.
      intros kv Hin. rewrite (Hmet kv Hin), (Hdiff kv Hin). reflexivity. }
    exists σ', dv'. split; [exact Hrun|]. split; [|split; [exact Hl'|exact Hfields]].
    intros l Hout. rewrite Hframe by exact Hout. apply Hframe1. exact Hout.
Qed.

Lemma weight_of_entries (items : list (string * pyval)) (fuel : nat) :
  (list_sum (List.map (fun kv => weight (snd kv)) items) < fuel)%nat ->
  Forall (fun kv => (weight (snd kv) < fuel)%nat) items.
Proof.
  induction items as [|[k t] items IH]; [constructor|].
  intros H.
  change (weight t + list_sum (List.map (fun kv => weight (snd kv)) items) < fuel)%nat in H.
  constructor; [cbn [snd]; lia | apply IH; lia].
Qed.

Lemma no_tuple_positional (vs : list value) :
  Forall (fun v => is_tuple v = false) vs ->
  forallb positional vs = true /\ existsb is_tuple vs = false.
Proof.
  induction 1 as [|v vs Hv _ [IH1 IH2]]; [split; reflexivity|].
  cbn [forallb existsb]. rewrite IH1, IH2, Hv. split; [|reflexivity].
  destruct v; [reflexivity | discriminate | reflexivity].
Qed.

(** The value of a freshly built tree. *)
Lemma tree_in_fresh (σ : store) (e : pyval) (ve : value) (lo hi : nat) :
  tree_in σ0 false σ e ve lo hi ->
  match e with
  | PScalar s => ve = VScalar s
  | PTuple ts => exists vs, ve = VTuple vs
  | PList ts =>
      exists l vs, ve = VRef l /\ (l < hi)%nat /\ σ !! l = Some (OList vs)
                   /\ trees_in σ0 false σ ts vs lo l
  | PDict ts =>
      exists l vs, ve = VRef l /\ (l < hi)%nat /\ σ !! l = Some (ODict vs)
                   /\ fields_in σ0 false σ ts vs lo l
  end.
Proof.
  intros H. inversion H; subst; try discriminate; eauto 8.
Qed.

(** An overlay that is no container changes nothing. *)
Lemma other_overlay_merges (fuel : nat) (σ : store) (e : pyval) (ve vr : value) (lo hi : nat) :
  tree_in σ0 false σ e ve lo hi ->
  view_of vr σ = Ok IsOther σ ->
  dict_replace (S fuel) ve vr σ = Ok false σ.
Proof.
  intros Htree Hview. cbn [dict_replace]. rewrite (bind_ok _ _ σ σ _ Hview).
  apply tree_in_fresh in Htree. destruct e as [s|ts|ts|ts].
  - subst ve. reflexivity.
  - destruct Htree as (vs & ->). reflexivity.
  - destruct Htree as (l & vs & -> & _ & Hobj & _).
    rewrite (bind_ok _ _ σ σ _ (view_of_list σ l vs Hobj)). reflexivity.
  - destruct Htree as (l & vs & -> & _ & Hobj & _).
    rewrite (bind_ok _ _ σ σ _ (view_of_dict σ l vs Hobj)). reflexivity.
Qed.

Lemma merges_all (r : pyval) : merges σ0 r.
Proof.
  induction r as [s|items IH|items IH|items IH] using pyval_nested_ind;
    intros fuel σ e ve lo hi vr n Hfuel Hok Hlo Hold Hsnap Htree;
    (destruct fuel as [|fuel]; [lia|]);
    pose proof (snapshot_shape n σ0 vr _ Hsnap) as Hshape; cbv beta iota in Hshape;
    pose proof (tree_in_frame false true σ σ e ve lo hi ltac:(discriminate) Htree
                  ltac:(reflexivity)) as Hsame.
  - subst vr. exists σ. split; [|split; [reflexivity|split; [|reflexivity]]].
    + apply (other_overlay_merges fuel σ e ve _ lo hi Htree). reflexivity.
    + exact Hsame.
  - destruct Hshape as (m & vs & -> & -> & Hvs).
    exists σ. split; [|split; [reflexivity|split; [|reflexivity]]].
    + apply (other_overlay_merges fuel σ e ve _ lo hi Htree). reflexivity.
    + exact Hsame.
  - destruct Hshape as (m & lr & rvs & -> & -> & Hr0 & Hvs).
    assert (Hlr : (lr < length σ0)%nat) by (eapply lookup_lt_Some; exact Hr0).
    assert (Hr : σ !! lr = Some (OList rvs)) by (rewrite Hold by exact Hlr; exact Hr0).
    cbn [overlay_ok] in Hok. apply negb_true_iff in Hok.
    destruct (snapshot_each_no_tuple m σ0 rvs items Hvs Hok) as [Hlen Hno].
    destruct (no_tuple_positional rvs Hno) as [Hpos Hnone].
    cbn [weight] in Hfuel.
    exists σ. split; [|split; [reflexivity|split; [exact Hsame|reflexivity]]].
    apply tree_in_fresh in Htree. destruct e as [s|ts|ts|ts].
    + subst ve. cbn [dict_replace].
      rewrite (bind_ok _ _ σ σ _ (view_of_list σ lr rvs Hr)). reflexivity.
    + destruct Htree as (vs & ->). cbn [dict_replace].
      rewrite (bind_ok _ _ σ σ _ (view_of_list σ lr rvs Hr)). reflexivity.
    + destruct Htree as (le & evs & -> & Hlt & Hobj & Hch).
      pose proof (trees_in_le _ _ _ _ _ _ Hch) as Hle.
      rewrite (dict_replace_places_run fuel σ le lr evs rvs Hobj Hr ltac:(lia) Hpos
                 ltac:(lia)).
      rewrite Hnone, (place_skips rvs evs Hnone), (list_insert_id _ _ _ Hobj).
      reflexivity.
    + destruct Htree as (le & evs & -> & Hlt & Hobj & Hch). cbn [dict_replace].
      rewrite (bind_ok _ _ σ σ _ (view_of_list σ lr rvs Hr)).
      rewrite (bind_ok _ _ σ σ _ (view_of_dict σ le evs Hobj)). reflexivity.
  - destruct Hshape as (m & lr & rvs & -> & -> & Hr0 & Hvs).
    assert (Hlr : (lr < length σ0)%nat) by (eapply lookup_lt_Some; exact Hr0).
    assert (Hr : σ !! lr = Some (ODict rvs)) by (rewrite Hold by exact Hlr; exact Hr0).
    cbn [overlay_ok] in Hok. apply andb_true_iff in Hok as [Huniq Hok].
    cbn [weight] in Hfuel.
    apply tree_in_fresh in Htree. destruct e as [s|ts|ts|ets].
    + subst ve. exists σ. split; [|split; [reflexivity|split; [exact Hsame|exact I]]].
      cbn [dict_replace]. rewrite (bind_ok _ _ σ σ _ (view_of_dict σ lr rvs Hr)). reflexivity.
    + destruct Htree as (vs & ->).
      exists σ. split; [|split; [reflexivity|split; [exact Hsame|exact I]]].
      cbn [dict_replace]. rewrite (bind_ok _ _ σ σ _ (view_of_dict σ lr rvs Hr)). reflexivity.
    + destruct Htree as (le & evs & -> & Hlt & Hobj & Hch).
      exists σ. split; [|split; [reflexivity|split; [exact Hsame|exact I]]].
      cbn [dict_replace]. rewrite (bind_ok _ _ σ σ _ (view_of_dict σ lr rvs Hr)).
      rewrite (bind_ok _ _ σ σ _ (view_of_list σ le evs Hobj)). reflexivity.
    + destruct Htree as (le & evs & -> & Hlt & Hobj & Hch).
      pose proof (fields_in_le _ _ _ _ _ _ Hch) as Hle.
      destruct (for_items_merges fuel m lr le lo rvs Hlo Hr0 (length rvs) σ
                  (fun _ => false) ets evs items ltac:(lia) Hold Hobj
                  (fields_are_entries σ ets evs lo le Hch))
        as (σ' & dv' & Hrun & Hframe & Hl' & Hfields).
      * rewrite Nat.sub_diag, drop_0. exact Hvs.
      * exact IH.
      * apply weight_of_entries. lia.
      * exact Hok.
      * exact Huniq.
      * apply List.Forall_forall. reflexivity.
      * exists σ'. split; [|split; [|split; [|exact I]]].
        -- cbn [dict_replace].
           rewrite (bind_ok _ _ σ σ _ (view_of_dict σ lr rvs Hr)).
           rewrite (bind_ok _ _ σ σ _ (view_of_dict σ le evs Hobj)).
           rewrite (bind_ok _ _ σ σ' tt Hrun). reflexivity.
        -- intros l Hout. apply Hframe. lia.
        -- change (replace_tree (PDict items) (PDict ets))
             with (PDict (fold_left replace_step items ets)).
           apply tree_dict with dv'; [exact Hlt | exact Hl' | exact Hfields].
Qed.

End DeepMerge.

(** X30: [dict_replace] on a document that was just built (as [update]
    builds it from the answer of the read) and a replace overlay in which
    no list holds a tuple is the deep merge [replace_tree]: a dict of the
    overlay is merged into the dict under the same key, key by key and at
    every depth; any other value of the overlay, a list as a whole among
    them, is assigned under its key; a dict of the overlay that meets a
    value that is no dict changes nothing.  The call returns false, the
    document then reads as the merged tree, and the overlay and every
    other object that was there before is as it was. *)
Theorem dict_replace_is_deep_merge
    (fuel n : nat) (σ0 σ : store) (e r : pyval) (ve vr : value) :
  snapshot n σ0 vr = Some r ->
  overlay_ok r = true ->
  (weight r < fuel)%nat ->
  alloc_tree e σ0 = Ok ve σ ->
  exists σ',
    dict_replace fuel ve vr σ = Ok false σ'
    /\ (forall k, (height (replace_tree r e) < k)%nat ->
                  snapshot k σ' ve = Some (replace_tree r e))
    /\ (forall l, (l < length σ0)%nat -> σ' !! l = σ0 !! l).
Proof.
  intros Hsnap Hok Hfuel Halloc.
  destruct (alloc_tree_builds σ0 e σ0) as (v & new & Hv & Hbuilt).
  rewrite Hv in Halloc. injection Halloc as -> <-.
  assert (Hold : keeps_old σ0 (σ0 ++ new)).
  { intros l Hl. apply lookup_app_l. exact Hl. }
  destruct (merges_all σ0 r fuel (σ0 ++ new) e ve (length σ0) (length σ0 + length new)%nat vr n
              Hfuel Hok ltac:(lia) Hold Hsnap (Hbuilt _ (holds_new_self σ0 new)))
    as (σ' & Hrun & Hframe & Htree & _).
  assert (Hold' : keeps_old σ0 σ').
  { intros l Hl. rewrite Hframe by lia. apply Hold. exact Hl. }
  exists σ'. split; [exact Hrun|]. split; [|exact Hold'].
  intros k Hk.
  exact (proj1 (tree_in_reads σ0 true σ' Hold') _ _ _ _ Htree k Hk).
Qed.

(** *** The retry *)

(** One read and merge with overlays of scalars and of keys: the document
    built from the answer, with the entries assigned and the keys removed;
    the overlays are as they were. *)
Lemma flat_pass (fuel : nat) (lr ld : loc) (σ : store)
    (stored : list (string * pyval)) (overlay : list (string * scalar)) (keys : list string)
    (body : pyval) :
  native false (PDict stored) = true ->
  (height (PDict stored) < S fuel)%nat ->
  unique_keys overlay = true ->
  σ !! lr = Some (overlay_object overlay) ->
  σ !! ld = Some (keys_object keys) ->
  subscript body "fields" = dict_to_firestore (PDict stored) false ->
  exists L σ1 σ2,
    parse_result body σ = Ok (true, Doc (VRef L), time_of body) σ1
    /\ merge (S fuel) (VRef L) (VRef lr) (VRef ld) None σ1 = Ok tt σ2
    /\ snapshot (S fuel) σ2 (VRef L) = Some (PDict (removed (assigned stored overlay) keys))
    /\ σ2 !! lr = Some (overlay_object overlay)
    /\ σ2 !! ld = Some (keys_object keys).
Proof.
  intros Hn Hh Hu Hr Hd Hfields.
  destruct (parse_result_builds σ body stored Hn Hfields) as (vs & new & Hparse & Hsnap).
  set (L := length (σ ++ new)) in *.
  set (σ1 := (σ ++ new) ++ [ODict vs]) in *.
  set (rvs := List.map (fun kv => (fst kv, VScalar (snd kv))) overlay).
  set (dvs := List.map (fun k => (k, VScalar SNone)) keys).
  set (final := dict_without (dict_update vs rvs) dvs).
  set (σ2 := <[L := ODict final]> σ1).
  assert (Hlr : (lr < length σ)%nat) by (eapply lookup_lt_Some; exact Hr).
  assert (Hld : (ld < length σ)%nat) by (eapply lookup_lt_Some; exact Hd).
  assert (HL : (length σ <= L)%nat) by (unfold L; rewrite length_app; lia).
  assert (Hkeep : forall l o, σ !! l = Some o -> σ1 !! l = Some o).
  { intros l o Hl. unfold σ1. apply lookup_app_l_Some, lookup_app_l_Some. exact Hl. }
  assert (H1L : σ1 !! L = Some (ODict vs)).
  { unfold σ1, L. rewrite lookup_app_r by lia. rewrite Nat.sub_diag. reflexivity. }
  assert (HlenL : (L < length σ1)%nat) by (eapply lookup_lt_Some; exact H1L).
  exists L, σ1, σ2. split; [exact Hparse|]. split; [|split].
  - unfold merge.
    rewrite (bind_ok _ _ σ1 (<[L := ODict (dict_update vs rvs)]> σ1) false).
    2:{ apply dict_replace_update_run.
        - exact H1L.
        - apply Hkeep. exact Hr.
        - lia.
        - unfold rvs. rewrite unique_keys_map. exact Hu.
        - apply overlay_is_flat. }
    rewrite (bind_ok _ _ _ σ2 (VRef L)); [reflexivity|].
    unfold σ2, final.
    rewrite <- (list_insert_insert_eq σ1 L (ODict (dict_without (dict_update vs rvs) dvs))
                  (ODict (dict_update vs rvs))).
    apply dict_pop_without_run.
    + apply list_lookup_insert_eq. exact HlenL.
    + rewrite list_lookup_insert_ne by lia. apply Hkeep. exact Hd.
    + lia.
    + apply keys_are_flat.
  - assert (Hold : holds_new σ new σ2).
    { intros l Hl. unfold σ2, L. rewrite list_lookup_insert_ne by (rewrite length_app; lia).
      unfold σ1. apply lookup_app_l. rewrite length_app. lia. }
    destruct fuel as [|n]; [cbn [height] in Hh; lia|].
    rewrite (snapshot_dict (S n) σ2 L final)
      by (apply list_lookup_insert_eq; exact HlenL).
    unfold final, dvs, rvs.
    rewrite (snapshot_removed (S n) σ2 keys _ (assigned stored overlay)); [reflexivity|].
    apply snapshot_assigned. apply Hsnap; [exact Hh | exact Hold].
  - unfold σ2. rewrite !list_lookup_insert_ne by lia. split; apply Hkeep; assumption.
Qed.

Lemma parse_result_update_accepts (answer results first time : pyval) (existing : value) :
  subscript answer "writeResults" = Val results ->
  subscript0 results = Val first ->
  subscript first "updateTime" = Val time ->
  parse_result_update answer existing = Val (true, Doc existing, time).
Proof.
  intros Hres Hfirst Htime.
  pose proof Hres as Hres'. apply subscript_val in Hres' as (aitems & -> & Hget).
  pose proof Htime as Htime'. apply subscript_val in Htime' as (fitems & -> & Hgett).
  unfold parse_result_update.
  rewrite py_in_dict. unfold dict_has at 1. rewrite Hget. cbn [res_bind].
  rewrite Hres. cbn [res_bind]. rewrite Hfirst. cbn [res_bind].
  rewrite py_in_dict. unfold dict_has at 1. rewrite Hgett. cbn [res_bind].
  rewrite Htime. reflexivity.
Qed.

(** C3 fails on the code when the overlays hold a list or a dict.  With
    overlays of scalars and of keys the retry is as claimed: after a
    FAILED_PRECONDITION answer to the first commit and an accepted second
    commit, [update] returns success with the document of the second read
    with the overlays merged into it, not the first pass's, and the
    overlays are as the caller gave them.  But [dict_replace] stores a
    list of the replace overlay by reference, and [dict_pop] then edits it
    in place: the second pass merges the overlay as the first pass left
    it.  With replace [{tags: [x, y, z]}] and delete [{tags: [(0, None)]}]
    the retried call returns [tags: [z]], where the same call without the
    conflict, on the same fresh document, returns [tags: [y, z]]. *)
Theorem update_retry_merges_edited_overlay :
  (forall (fs : Firestore) (net : nat -> reply) (fuel : nat) (collection document : string)
          (lr ld : loc) (σ : store) (t : list event)
          (stored1 stored2 : list (string * pyval))
          (overlay : list (string * scalar)) (keys : list string)
          (r1 : response) (body1 fields1 : pyval) (c1 : response) (answer1 err : pyval)
          (r2 : response) (body2 fields2 : pyval) (c2 : response)
          (answer2 results first time3 : pyval),
      let merged1 := removed (assigned stored1 overlay) keys in
      let merged2 := removed (assigned stored2 overlay) keys in
      let n0 := length (requests_of t) in
      let url := document_url fs (or_local_id fs collection) (or_local_id fs document) in
      let commit_of fields time :=
        EPost (commit_url fs)
          (commit_document fs (or_local_id fs collection) (or_local_id fs document)
             fields time) in
      (* the overlays of the caller *)
      unique_keys overlay = true ->
      σ !! lr = Some (overlay_object overlay) ->
      σ !! ld = Some (keys_object keys) ->
      String.eqb (id_token fs) "" = false ->
      (* the first pass: the read returns [stored1], the commit is refused *)
      native false (PDict stored1) = true ->
      (height (PDict stored1) < S (S fuel))%nat ->
      net n0 = Reply r1 -> json r1 = Val body1 ->
      subscript body1 "fields" = dict_to_firestore (PDict stored1) false ->
      (dict_size (PDict merged1) <= size_limit)%Z ->
      dict_to_firestore (PDict merged1) false = Val fields1 ->
      net (n0 + 1)%nat = Reply c1 -> status_code c1 = 400%Z -> json c1 = Val answer1 ->
      subscript answer1 "error" = Val err ->
      subscript err "status" = Val (PStr "FAILED_PRECONDITION") ->
      (* the second pass: the read returns [stored2], the commit is accepted *)
      native false (PDict stored2) = true ->
      (height (PDict stored2) < S (S fuel))%nat ->
      net (n0 + 2)%nat = Reply r2 -> json r2 = Val body2 ->
      subscript body2 "fields" = dict_to_firestore (PDict stored2) false ->
      (dict_size (PDict merged2) <= size_limit)%Z ->
      dict_to_firestore (PDict merged2) false = Val fields2 ->
      net (n0 + 3)%nat = Reply c2 -> status_code c2 = 200%Z -> json c2 = Val answer2 ->
      subscript answer2 "writeResults" = Val results ->
      subscript0 results = Val first ->
      subscript first "updateTime" = Val time3 ->
      exists v σ',
        update fs net (S (S fuel)) collection document (VRef lr) (VRef ld) None (World σ t)
        = Ok (true, Doc v, time3)
             (World σ'
                (t ++ [ESleep (NInt 0); EGet url; commit_of fields1 (time_of body1);
                       ESleep (NInt 0); EGet url; commit_of fields2 (time_of body2)]))
        /\ snapshot (S (S fuel)) σ' v = Some (PDict merged2)
        /\ σ' !! lr = Some (overlay_object overlay)
        /\ σ' !! ld = Some (keys_object keys))
  /\ (exists existing direct time w' w'',
         snapshot 5 (snd tags_start) tags_replace
         = Some (PDict [("tags", PList [PStr "x"; PStr "y"; PStr "z"])])
         /\ tags_run = Ok (true, Doc existing, time) w'
         /\ snapshot 5 (heap w') existing
            = Some (PDict [("z", PStr "new"); ("tags", PList [PStr "z"])])
         /\ snapshot 5 (heap w') tags_replace = Some (PDict [("tags", PList [PStr "z"])])
         /\ tags_direct_run = Ok (true, Doc direct, time) w''
         /\ snapshot 5 (heap w'') direct
            = Some (PDict [("z", PStr "new"); ("tags", PList [PStr "y"; PStr "z"])])).
Proof.
  split.
  - intros fs net fuel collection document lr ld σ t stored1 stored2 overlay keys
      r1 body1 fields1 c1 answer1 err r2 body2 fields2 c2 answer2 results first time3
      merged1 merged2 n0 url commit_of
      Hu Hr Hd Htok Hn1 Hh1 Hr1 Hj1 Hf1 Hz1 He1 Hc1 Hs1 Hjc1 Herr Hstatus
      Hn2 Hh2 Hr2 Hj2 Hf2 Hz2 He2 Hc2 Hs2 Hjc2 Hres Hfirst Htime.
    destruct (flat_pass (S fuel) lr ld σ stored1 overlay keys body1 Hn1 Hh1 Hu Hr Hd Hf1)
      as (L1 & σa & σ1 & Hp1 & Hm1 & Hsnap1 & Hr' & Hd').
    destruct (flat_pass (S fuel) lr ld σ1 stored2 overlay keys body2 Hn2 Hh2 Hu Hr' Hd' Hf2)
      as (L2 & σb & σ2 & Hp2 & Hm2 & Hsnap2 & Hr'' & Hd'').
    exists (VRef L2), σ2. split; [|split; [exact Hsnap2 | split; assumption]].
    apply (update_two_passes fs net fuel collection document (VRef lr) (VRef ld) None σ t
             r1 body1 (VRef L1) (time_of body1) (PDict merged1) fields1 σa σ1 c1 answer1
             r2 body2 (VRef L2) (time_of body2) (PDict merged2) fields2 σb σ2 c2 answer2
             time3); try assumption.
    + apply failed_precondition_true. split; [exact Hs1|]. exists err. split; assumption.
    + unfold failed_precondition. rewrite Hs2. reflexivity.
    + eapply parse_result_update_accepts; eassumption.
  - do 5 eexists. vm_compute. repeat split.
Qed.

(* ===================================================================== *)
(** ** The further properties at sample inputs *)
(* ===================================================================== *)

Lemma dict_replace_flat_is_update_witness :
  dict_replace 1 (VRef 0) (VRef 2) (snd flat_start)
  = Ok false
       (<[0%nat := ODict [("a", VScalar (SInt 1)); ("b", VScalar (SInt 3)); ("c", VRef 1)]]>
          (snd flat_start)).
Proof.
  exact (proj1 (dict_replace_flat_is_update 0 (snd flat_start) 0 2
                  [("a", VScalar (SInt 1)); ("b", VScalar (SInt 2))]
                  [("b", VScalar (SInt 3)); ("c", VRef 1)]
                  eq_refl eq_refl ltac:(discriminate) eq_refl eq_refl)).
Defined.

Lemma dict_pop_flat_removes_keys_witness :
  dict_pop 1 (VRef 0) (VRef 1) (snd drop_start)
  = Ok (VRef 0)
       (<[0%nat := ODict [("a", VScalar (SInt 1)); ("c", VScalar (SInt 3))]]> (snd drop_start)).
Proof.
  exact (proj1 (dict_pop_flat_removes_keys 0 (snd drop_start) 0 1
                  [("a", VScalar (SInt 1)); ("b", VScalar (SInt 2)); ("c", VScalar (SInt 3))]
                  [("b", VScalar SNone); ("z", VScalar SNone)]
                  eq_refl eq_refl ltac:(discriminate) eq_refl eq_refl)).
Defined.

Lemma dict_replace_positional_witness :
  dict_replace 6 (VRef 0) (VRef 1) (snd places_start)
  = Ok true
       (<[0%nat := OList [VScalar (SInt 9); VScalar (SInt 2); VScalar (SInt 3);
                          VScalar (SInt 4)]]> (snd places_start)).
Proof.
  exact (dict_replace_positional 5 (snd places_start) 0 1
           [VScalar (SInt 1); VScalar (SInt 2); VScalar (SInt 3)]
           [VTuple [VScalar (SInt 0); VScalar (SInt 9)]; VScalar (SInt 7);
            VTuple [VScalar (SInt 3); VScalar (SInt 4)];
            VTuple [VScalar (SInt 9); VScalar (SInt 5)]]
           eq_refl eq_refl ltac:(discriminate) eq_refl ltac:(simpl; lia)).
Defined.

Lemma dict_replace_mapping_onto_other_witness :
  dict_replace 2 (VRef 0) (VRef 2) (snd scalar_start) = Ok false (snd scalar_start).
Proof.
  exact (dict_replace_mapping_onto_other_is_dropped 0 (snd scalar_start) 0 2 1
           [("a", VScalar (SInt 5))] [("b", VScalar (SInt 1))] "a" (VScalar (SInt 5))
           eq_refl eq_refl eq_refl eq_refl eq_refl).
Defined.

Lemma dict_pop_index_beyond_end_witness :
  dict_pop 1 (VRef 0) (VRef 2) (snd beyond_start) = Raise IndexError (snd beyond_start).
Proof.
  exact (dict_pop_index_beyond_end 0 (snd beyond_start) 0 2
           [VScalar (SInt 1); VScalar (SInt 2)] 5 (VRef 1) true
           eq_refl eq_refl ltac:(simpl; lia) eq_refl).
Defined.

Lemma dict_replace_merges_nested_mapping_witness :
  dict_replace 2 (VRef 1) (VRef 3) (snd nested_start)
  = Ok false
       (<[0%nat := ODict [("x", VScalar (SInt 1)); ("y", VScalar (SInt 3))]]>
          (snd nested_start)).
Proof.
  exact (proj1 (dict_replace_merges_nested_mapping 0 (snd nested_start) 1 3 0 2
                  [("a", VRef 0)] [("x", VScalar (SInt 1)); ("y", VScalar (SInt 2))]
                  [("y", VScalar (SInt 3))] "a"
                  eq_refl eq_refl eq_refl eq_refl eq_refl
                  ltac:(discriminate) ltac:(discriminate) eq_refl eq_refl)).
Defined.

Lemma dict_replace_list_under_key_witness :
  dict_replace 5 (VRef 1) (VRef 3) (snd lists_start)
  = Ok false (<[1%nat := ODict [("a", VRef 2)]]> (snd lists_start)).
Proof.
  exact (dict_replace_list_under_key 3 (snd lists_start) 1 3 0 2
           [("a", VRef 0)] [VScalar (SInt 1); VScalar (SInt 2)]
           [VScalar (SInt 7); VScalar (SInt 8)] "a"
           eq_refl eq_refl eq_refl eq_refl eq_refl
           ltac:(discriminate) eq_refl ltac:(simpl; lia)).
Defined.

Lemma dict_pop_descends_into_mapping_witness :
  dict_pop 2 (VRef 1) (VRef 3) (snd inner_start)
  = Ok (VRef 1) (<[0%nat := ODict []]> (snd inner_start)).
Proof.
  exact (dict_pop_descends_into_mapping 0 (snd inner_start) 1 3 0 2
           [("a", VRef 0)] [("x", VScalar (SInt 1))] [("x", VScalar SNone)] "a"
           eq_refl eq_refl eq_refl eq_refl eq_refl
           ltac:(discriminate) ltac:(discriminate) ltac:(discriminate) eq_refl).
Defined.

Lemma update_returns_failed_read_witness :
  update sample_fs missing_net 1 "users" "u1" (VScalar SNone) (VScalar SNone) None
    (World [] [])
  = Ok (false, Error "ERROR: Document not found.", PStr "")
       (World [] [ESleep (NInt 0); EGet (document_url sample_fs "users" "u1")]).
Proof.
  exact (proj1 (update_returns_failed_read sample_fs missing_net 0 "users" "u1"
                  (VScalar SNone) (VScalar SNone) None (World [] [])
                  (World [] [ESleep (NInt 0); EGet (document_url sample_fs "users" "u1")])
                  (Error "ERROR: Document not found.") (PStr "") eq_refl)).
Defined.

Lemma operations_need_enabled_database_witness :
  read {| project_id := "demo"; local_id := ""; id_token := "" |} echo_net "users" "u1"
    (World [] [])
  = Ok not_enabled (World [] []).
Proof.
  exact (proj1 (operations_need_enabled_database sample_fs
                  {| project_id := "demo"; local_id := ""; id_token := "" |}
                  PNone echo_net 0 "users" "u1" (VScalar SNone) (VScalar SNone)
                  (VScalar SNone) None (World [] []) eq_refl eq_refl)).
Defined.

Lemma delete_succeeds_on_status_200_witness :
  delete sample_fs bare_net "users" "u1" (World [] [])
  = Ok (true, Doc (VRef 0), PStr "")
       (World [ODict []] [EDelete (document_url sample_fs "users" "u1")]).
Proof.
  exact (delete_succeeds_on_status_200 sample_fs bare_net "users" "u1" (World [] [])
           (Response 200 (Exn ValueError)) eq_refl eq_refl eq_refl).
Defined.

Lemma sign_in_succeeds_on_status_200_witness :
  answered signed_in_net (verify_url sample_auth)
    (credentials (PStr "a@b.c") (PStr "secret")) (World [] [])
    (sign_in_with_email sample_auth signed_in_net (PStr "a@b.c") (PStr "secret")
       (World [] [])).
Proof.
  exact (proj1 (sign_in_succeeds_on_status_200 sample_auth signed_in_net
                  (PStr "a@b.c") (PStr "secret") (World [] []) eq_refl)).
Defined.

Lemma Authorize_raises_on_unserializable_argument_witness :
  sign_in_with_email sample_auth signed_in_net (PStr "a@b.c") (PScalar (SBytes [Byte.x41]))
    (World [] [])
  = Raise TypeError (World [] []).
Proof.
  exact (proj1 (proj2 (proj2 (proj2
           (Authorize_raises_on_unserializable_argument sample_auth signed_in_net
              (PScalar (SBytes [Byte.x41])) (PStr "a@b.c") (World [] []) eq_refl))))).
Defined.

Lemma sign_in_with_token_enables_database_witness :
  sign_in_with_token sample_auth token_net (PStr "refresh") (World [] [])
  = Ok (true, Account (PDict [("localId", PStr "user-1"); ("idToken", PStr "token-2");
                              ("refreshToken", PStr "refresh-2")]))
       (World [] [EPost (token_url sample_auth)
                    (PDict [("grantType", PStr "refresh_token");
                            ("refreshToken", PStr "refresh")])]).
Proof.
  exact (proj1 (sign_in_with_token_enables_database sample_auth token_net sample_fs
                  (PStr "refresh") (World [] [])
                  (Response 200
                     (Val (PDict [("user_id", PStr "user-1"); ("id_token", PStr "token-2");
                                  ("refresh_token", PStr "refresh-2")])))
                  (PDict [("user_id", PStr "user-1"); ("id_token", PStr "token-2");
                          ("refresh_token", PStr "refresh-2")])
                  (PStr "refresh-2") "user-1" "token-2"
                  eq_refl eq_refl eq_refl eq_refl eq_refl eq_refl eq_refl)).
Defined.

Lemma sign_in_with_token_incomplete_answer_witness :
  sign_in_with_token sample_auth short_token_net (PStr "refresh") (World [] [])
  = Ok (false, FailureOf (KeyError "id_token"))
       (World [] [EPost (token_url sample_auth)
                    (PDict [("grantType", PStr "refresh_token");
                            ("refreshToken", PStr "refresh")])]).
Proof.
  exact (sign_in_with_token_incomplete_answer sample_auth short_token_net
           (PStr "refresh") (World [] [])
           (Response 200
              (Val (PDict [("user_id", PStr "user-1"); ("refresh_token", PStr "refresh-2")])))
           [("user_id", PStr "user-1"); ("refresh_token", PStr "refresh-2")] "id_token"
           eq_refl eq_refl eq_refl eq_refl eq_refl).
Defined.

Lemma delete_user_checks_its_argument_witness :
  delete_user sample_auth signed_in_net (PStr "ERROR: no such user") (World [] [])
  = Ok (false, Failure "ERROR: delete_user(), incorrect argument.") (World [] []).
Proof.
  exact (delete_user_checks_its_argument sample_auth signed_in_net
           (PStr "ERROR: no such user") (World [] [])
           ltac:(intros ty; discriminate)).
Defined.

Lemma read_returns_the_encoded_document_witness :
  exists v new,
    read sample_fs echo_net "users" "u1" (World [] [])
    = Ok (true, Doc v, PStr "t1")
         (World ([] ++ new) ([] ++ [EGet (document_url sample_fs "users" "u1")]))
    /\ (forall n, (height (PDict sample_native) < n)%nat ->
                  snapshot n ([] ++ new) v = Some (PDict sample_native))
    /\ (forall l o, @nil object !! l = Some o -> ([] ++ new) !! l = Some o).
Proof.
  exact (read_returns_the_encoded_document sample_fs echo_net "users" "u1" [] []
           (Response 200 (Val (PDict [("name", PStr "doc");
                                      ("fields", PDict (wire_fields sample_native));
                                      ("updateTime", PStr "t1")])))
           (PDict [("name", PStr "doc"); ("fields", PDict (wire_fields sample_native));
                   ("updateTime", PStr "t1")])
           sample_native
           ltac:(vm_compute; reflexivity) eq_refl eq_refl eq_refl
           ltac:(vm_compute; reflexivity)).
Defined.

Lemma create_posts_the_encoded_document_witness :
  let σ := snd native_start in
  exists v new,
    create sample_fs echo_net 5 "users" "u1" (nth_value (fst native_start) 0) (World σ [])
    = Ok (true, Doc v, PStr "t1")
         (World (σ ++ new)
            ([] ++ [EPost (REST sample_fs +:+ "users" +:+ "?documentId=" +:+ "u1")
                      (PDict [("fields", PDict (wire_fields sample_native))])]))
    /\ (forall n, (height (PDict sample_native) < n)%nat ->
                  snapshot n (σ ++ new) v = Some (PDict sample_native))
    /\ (forall l o, σ !! l = Some o -> (σ ++ new) !! l = Some o).
Proof.
  exact (create_posts_the_encoded_document sample_fs echo_net 5 "users" "u1"
           (nth_value (fst native_start) 0) (snd native_start) []
           (Response 200 (Val (PDict [("name", PStr "doc");
                                      ("fields", PDict (wire_fields sample_native));
                                      ("updateTime", PStr "t1")])))
           (PDict [("name", PStr "doc"); ("fields", PDict (wire_fields sample_native));
                   ("updateTime", PStr "t1")])
           sample_native
           ltac:(vm_compute; reflexivity) ltac:(vm_compute; reflexivity)
           ltac:(vm_compute; discriminate) eq_refl eq_refl eq_refl
           ltac:(vm_compute; reflexivity)).
Defined.

Lemma update_commits_the_merged_document_witness :
  exists v σ',
    update sample_fs merge_net 4 "users" "u1" (VRef 0) (VRef 1) None (World merge_store [])
    = Ok (true, Doc v, PStr "t2")
         (World σ'
            ([] ++ [ESleep (NInt 0); EGet (document_url sample_fs "users" "u1");
                    EPost (commit_url sample_fs)
                      (commit_document sample_fs "users" "u1"
                         (PDict (wire_fields merge_result)) (PStr "t1"))]))
    /\ snapshot 4 σ' v = Some (PDict merge_result)
    /\ σ' !! 0%nat = Some (overlay_object merge_overlay)
    /\ σ' !! 1%nat = Some (keys_object merge_keys).
Proof.
  exact (update_commits_the_merged_document sample_fs merge_net 3 "users" "u1" 0 1
           merge_store [] merge_stored merge_overlay merge_keys
           (Response 200 (Val (PDict [("name", PStr "doc");
                                      ("fields", PDict (wire_fields merge_stored));
                                      ("updateTime", PStr "t1")])))
           (PDict [("name", PStr "doc"); ("fields", PDict (wire_fields merge_stored));
                   ("updateTime", PStr "t1")])
           (PDict (wire_fields merge_result))
           (Response 200
              (Val (PDict [("writeResults", PList [PDict [("updateTime", PStr "t2")]])])))
           (PDict [("writeResults", PList [PDict [("updateTime", PStr "t2")]])])
           (PList [PDict [("updateTime", PStr "t2")]])
           (PDict [("updateTime", PStr "t2")]) (PStr "t2")
           ltac:(vm_compute; reflexivity) ltac:(vm_compute; lia) eq_refl eq_refl eq_refl
           eq_refl eq_refl eq_refl ltac:(vm_compute; reflexivity)
           ltac:(vm_compute; discriminate) ltac:(vm_compute; reflexivity)
           eq_refl eq_refl eq_refl eq_refl eq_refl eq_refl).
Defined.

Lemma update_raises_only_from_merge_witness :
  let w' := raised_state escape_run (World [] []) in
  exists existing σ t,
    merge 5 existing (nth_value (fst escape_start) 0) (nth_value (fst escape_start) 1) None σ
    = Raise IndexError (heap w')
    /\ trace w' = t ++ [EGet (document_url sample_fs (or_local_id sample_fs "users")
                                           (or_local_id sample_fs "u1"))].
Proof.
  exact (update_raises_only_from_merge sample_fs list_net 5 "users" "u1"
           (nth_value (fst escape_start) 0) (nth_value (fst escape_start) 1) None
           (World (snd escape_start) []) (raised_state escape_run (World [] []))
           IndexError ltac:(vm_compute; reflexivity)).
Defined.

Lemma read_reports_the_error_message_witness :
  read sample_fs missing_net "users" "u1" (World [] [])
  = Ok (false, Error "ERROR: Document not found.", PStr "")
       (World [] [EGet (document_url sample_fs "users" "u1")]).
Proof.
  exact (read_reports_the_error_message sample_fs missing_net "users" "u1" (World [] [])
           (Response 404
              (Val (PDict [("error",
                            PDict [("code", PInt 404);
                                   ("message", PStr "Document not found.");
                                   ("status", PStr "NOT_FOUND")])])))
           [("error", PDict [("code", PInt 404); ("message", PStr "Document not found.");
                             ("status", PStr "NOT_FOUND")])]
           (PDict [("code", PInt 404); ("message", PStr "Document not found.");
                   ("status", PStr "NOT_FOUND")])
           "Document not found."
           eq_refl eq_refl eq_refl eq_refl eq_refl eq_refl).
Defined.

Lemma sign_in_reports_the_error_message_witness :
  sign_in_with_email sample_auth denied_net (PStr "a@b.c") (PStr "secret") (World [] [])
  = Ok (false, Failure "ERROR: EMAIL_NOT_FOUND")
       (World [] [EPost (verify_url sample_auth)
                    (credentials (PStr "a@b.c") (PStr "secret"))]).
Proof.
  exact (proj1 (sign_in_reports_the_error_message sample_auth denied_net
                  (PStr "a@b.c") (PStr "secret") (World [] [])
                  (Response 400
                     (Val (PDict [("error",
                                   PDict [("code", PInt 400);
                                          ("message", PStr "EMAIL_NOT_FOUND")])])))
                  (PDict [("error", PDict [("code", PInt 400);
                                           ("message", PStr "EMAIL_NOT_FOUND")])])
                  (PDict [("code", PInt 400); ("message", PStr "EMAIL_NOT_FOUND")])
                  "EMAIL_NOT_FOUND"
                  eq_refl eq_refl ltac:(discriminate) eq_refl eq_refl eq_refl)).
Defined.

Lemma dict_pop_empty_container_removes_key_witness :
  dict_pop 1 (VRef 1) (VRef 3) (snd hollow_start)
  = Ok (VRef 1) (<[1%nat := ODict [("b", VScalar (SInt 2))]]> (snd hollow_start)).
Proof.
  exact (proj1 (dict_pop_empty_container_removes_key 0 (snd hollow_start) 1 3 2
                  [("a", VRef 0); ("b", VScalar (SInt 2))] "a" (ODict [])
                  eq_refl eq_refl eq_refl eq_refl eq_refl ltac:(discriminate))).
Defined.

Lemma dict_pop_removes_positions_witness :
  dict_pop 1 (VRef 0) (VRef 1) (snd shuffle_start)
  = Ok (VRef 0)
       (<[0%nat := OList [VScalar (SStr "c"); VScalar (SStr "d")]]> (snd shuffle_start)).
Proof.
  exact (dict_pop_removes_positions 0 (snd shuffle_start) 0 1
           [VScalar (SStr "a"); VScalar (SStr "b"); VScalar (SStr "c"); VScalar (SStr "d");
            VScalar (SStr "e")]
           [(1, VScalar SNone); (4, VScalar SNone); (0, VScalar SNone)]
           eq_refl eq_refl eq_refl eq_refl).
Defined.

Lemma dict_replace_is_deep_merge_witness :
  exists σ',
    dict_replace 5 (VRef 4) (VRef 2) deep_built = Ok false σ'
    /\ (forall k, (3 < k)%nat ->
          snapshot k σ' (VRef 4)
          = Some (PDict [("a", PDict [("x", PInt 1); ("y", PInt 2); ("z", PList [PInt 5])]);
                         ("b", PInt 3); ("c", PInt 4)]))
    /\ (forall l, (l < 3)%nat -> σ' !! l = deep_start !! l).
Proof.
  exact (dict_replace_is_deep_merge 5 4 deep_start deep_built deep_document deep_overlay
           (VRef 4) (VRef 2) eq_refl eq_refl ltac:(vm_compute; lia) eq_refl).
Defined.

Lemma update_retry_merges_edited_overlay_witness :
  let url := document_url sample_fs (or_local_id sample_fs "users")
               (or_local_id sample_fs "u1") in
  let commit_of fields time :=
    EPost (commit_url sample_fs)
      (commit_document sample_fs (or_local_id sample_fs "users") (or_local_id sample_fs "u1")
         fields time) in
  exists v σ',
    update sample_fs retry_net 2 "users" "u1" plain_replace plain_delete None
      (World plain_store [])
    = Ok (true, Doc v, PStr "t3")
         (World σ'
            ([] ++ [ESleep (NInt 0); EGet url;
                    commit_of (PDict [("a", wire_int 1); ("b", wire_int 2)]) (PStr "t1");
                    ESleep (NInt 0); EGet url;
                    commit_of (PDict [("z", PDict [("stringValue", PStr "new")]);
                                      ("b", wire_int 2)]) (PStr "t2")]))
    /\ snapshot 2 σ' v = Some (PDict [("z", PStr "new"); ("b", PInt 2)])
    /\ σ' !! 0%nat = Some (ODict [("b", VScalar (SInt 2))])
    /\ σ' !! 1%nat = Some (ODict []).
Proof.
  intros url commit_of.
  apply (proj1 update_retry_merges_edited_overlay sample_fs retry_net 0%nat "users" "u1"
           0%nat 1%nat plain_store []
           [("a", PInt 1)] [("z", PStr "new")] [("b", SInt 2)] []
           (Response 200 (Val first_body)) first_body
           (PDict [("a", wire_int 1); ("b", wire_int 2)])
           (Response 400 (Val refused_body)) refused_body
           (PDict [("code", PInt 400);
                   ("message", PStr "the stored document has changed");
                   ("status", PStr "FAILED_PRECONDITION")])
           (Response 200 (Val second_body)) second_body
           (PDict [("z", PDict [("stringValue", PStr "new")]); ("b", wire_int 2)])
           (Response 200 (Val accepted_body)) accepted_body
           (PList [PDict [("updateTime", PStr "t3")]])
           (PDict [("updateTime", PStr "t3")])
           (PStr "t3"));
    try reflexivity; try (cbn; lia); try (apply Z.leb_le; vm_compute; reflexivity).
Defined.
